(** * soccerbet_scraper: the streaming ingestion, state-merge and enrichment core

    A shallow embedding of the services under [src/services]:
    - [LiveStreamService] (bulk snapshot ingestion, the live state store, the
      subscription loop),
    - [SportMappingService] and [DataService] (catalog join, enrichment, the
      mode orchestrator),
    - [LiveDataUtils] (filters, grouping and sorting of headers and bets),
    - two routes of the server that read the orchestrator.

    JavaScript values are embedded as follows.  A parsed JSON value is a
    [jsval].  A number is held as the integer it is worth ([Z]); where the
    code converts to a number the result is rounded to the nearest double
    ([to_double]), and [2^1024] stands for [Infinity].  [undefined] is the
    [None] of [option jsval].  A record of the store (a header or a bet, typed
    [any] in the source) is a finite map from property names to values,
    [gmap string jsval]: a partial update is a map with fewer keys.  A string
    is the sequence of the bytes of its UTF-8 text; a chunk of a response is
    a sequence of bytes, which [chunk.toString()] reads as UTF-8
    ([buffer_toString]).  What the provider and the clock do is an input of
    the operations that wait for them. *)

From Stdlib Require Import ZArith Lia Ascii Sorted.
From stdpp Require Import gmap strings list fin_maps pretty.

Set Warnings "-register-all".
Local Open Scope Z_scope.

(** ** JavaScript values *)

Inductive jsval : Type :=
| JNull
| JBool (b : bool)
| JNum (n : Z)
| JStr (s : string)
| JArr (items : list jsval)
| JObj (props : list (string * jsval)).

(** Decidable equality, by recursion through the nested lists. *)
Lemma jsval_eq_dec : forall x y : jsval, {x = y} + {x <> y}.
Proof.
  fix IH 1. intros x y.
  destruct x as [|b|n|s|l|o], y as [|b'|n'|s'|l'|o']; try (right; discriminate).
  - left; reflexivity.
  - destruct (Bool.bool_dec b b'); [left; congruence | right; congruence].
  - destruct (Z.eq_dec n n'); [left; congruence | right; congruence].
  - destruct (String.string_dec s s'); [left; congruence | right; congruence].
  - assert (D : {l = l'} + {l <> l'}).
    { revert l'. induction l as [|a l IHl]; intros [|a' l'];
        try (right; discriminate); [left; reflexivity|].
      destruct (IH a a'); [|right; congruence].
      destruct (IHl l'); [left; congruence | right; congruence]. }
    destruct D; [left; congruence | right; congruence].
  - assert (D : {o = o'} + {o <> o'}).
    { revert o'. induction o as [|[k a] o IHo]; intros [|[k' a'] o'];
        try (right; discriminate); [left; reflexivity|].
      destruct (String.string_dec k k'); [|right; congruence].
      destruct (IH a a'); [|right; congruence].
      destruct (IHo o'); [left; congruence | right; congruence]. }
    destruct D; [left; congruence | right; congruence].
Defined.

#[global] Instance jsval_eqdec : EqDecision jsval := jsval_eq_dec.

(** [a === b] where a side is [undefined], [null], a boolean, a number or a
    string: equality of the values.  It is used where the code compares a
    property with a number or a string, or two properties that the types of
    the parameters give as numbers ([mId] and [lid] in [LiveDataUtils], the
    [id] of [EnhancedBetData]). *)
Definition strict_equal (a b : option jsval) : bool := bool_decide (a = b).

(** [undefined], [null], booleans, numbers and strings. *)
Definition is_primitive (v : option jsval) : bool :=
  match v with
  | Some (JArr _) | Some (JObj _) => false
  | _ => true
  end.

(** [a === b] between properties of two different records, both typed
    [any]: [h.id === newRec.id] between a record of the store and a record of
    a patch, [h.mc === matchCode] between a header and a bet.  [undefined],
    [null], booleans, numbers and strings are compared by value; arrays and
    objects are compared by identity.  Every frame is the result of a
    [JSON.parse] of its own, which shares no object between two places, and
    the store holds only records of the snapshot and of earlier patches: a
    value that is an array or an object is never the same object as the
    value held by another record. *)
Definition identical (a b : option jsval) : bool :=
  is_primitive a && strict_equal a b.

(** Truthiness of a value, and of a possibly [undefined] value. *)
Definition truthy (v : jsval) : bool :=
  match v with
  | JNull => false
  | JBool b => b
  | JNum n => negb (n =? 0)
  | JStr s => negb (String.eqb s "")
  | JArr _ | JObj _ => true
  end.

Definition truthy_opt (v : option jsval) : bool :=
  match v with Some x => truthy x | None => false end.

(** ** The Live State Store ([LiveStreamService.liveData]) *)

(** A header or a bet: the own properties of the object. *)
Abbreviation record := (gmap string jsval).

(** [r.id] *)
Definition rec_id (r : record) : option jsval := r !! "id".

(** [{ ...old, ...new }]: every property of [new] overwrites, the other
    properties of [old] stay. *)
Definition spread_merge (old new : record) : record := new ∪ old.

(** [arr.findIndex(h => h.id === newRec.id)], [None] for [-1]. *)
Fixpoint findIndex (arr : list record) (id : option jsval) : option nat :=
  match arr with
  | [] => None
  | h :: rest =>
      if identical (rec_id h) id then Some 0%nat
      else option_map S (findIndex rest id)
  end.

(** The body of the loop of [updateLiveHeaders] and [updateLiveBets]:
    [arr[existingIndex] = { ...arr[existingIndex], ...newRec }] when the id is
    found, [arr.push(newRec)] otherwise. *)
Definition update_one (arr : list record) (newRec : record) : list record :=
  match findIndex arr (rec_id newRec) with
  | Some existingIndex =>
      match arr !! existingIndex with
      | Some existing => <[existingIndex := spread_merge existing newRec]> arr
      | None => arr
      end
  | None => arr ++ [newRec]
  end.

(** [for (const newRec of newRecs) { ... }] *)
Definition update_all (arr : list record) (newRecs : list record) : list record :=
  fold_left update_one newRecs arr.

Inductive Sport := football | tennis | basketball.

(** [LiveData] of [types/liveTypes.ts]; [initializedAt] is the clock reading
    handed in by the environment. *)
Record LiveData := mkLiveData {
  sports : list jsval;
  headers : list record;
  bets : list record;
  lastTimestamp : Z;
  initializedAt : Z;
  sport : Sport
}.

(** [updateLiveHeaders]: nothing happens while [this.liveData] is [null]. *)
Definition updateLiveHeaders (liveData : option LiveData) (newHeaders : list record)
  : option LiveData :=
  match liveData with
  | None => None
  | Some d =>
      Some (mkLiveData (sports d) (update_all (headers d) newHeaders) (bets d)
              (lastTimestamp d) (initializedAt d) (sport d))
  end.

(** [updateLiveBets] *)
Definition updateLiveBets (liveData : option LiveData) (newBets : list record)
  : option LiveData :=
  match liveData with
  | None => None
  | Some d =>
      Some (mkLiveData (sports d) (headers d) (update_all (bets d) newBets)
              (lastTimestamp d) (initializedAt d) (sport d))
  end.

(** ** JavaScript strings *)

Definition LF : string := String (ascii_of_nat 10) "".

(** [s.startsWith(p)] *)
Fixpoint startsWith (p s : string) : bool :=
  match p, s with
  | EmptyString, _ => true
  | String a p', String b s' => if Ascii.eqb a b then startsWith p' s' else false
  | String _ _, EmptyString => false
  end.

(** [s.substring(n)]: the text from position [n] on. *)
Fixpoint substring_from (n : nat) (s : string) : string :=
  match n, s with
  | O, _ => s
  | S n', String _ s' => substring_from n' s'
  | S _, EmptyString => ""
  end.

Fixpoint string_rev_onto (acc s : string) : string :=
  match s with
  | EmptyString => acc
  | String c s' => string_rev_onto (String c acc) s'
  end.

Definition string_rev (s : string) : string := string_rev_onto "" s.

(** [s.endsWith(p)] *)
Definition endsWith (p s : string) : bool :=
  startsWith (string_rev p) (string_rev s).

(** [s.split(sep)] for a separator that is not empty: the pieces between the
    occurrences of [sep], found from the left without overlap.  [skip] counts
    the characters of a matched separator still to be passed, [cur] holds the
    current piece backwards. *)
Fixpoint split_go (sep : string) (skip : nat) (cur : string) (s : string)
  : list string :=
  match s with
  | EmptyString => [string_rev cur]
  | String c s' =>
      match skip with
      | S k => split_go sep k cur s'
      | O =>
          if startsWith sep s
          then string_rev cur :: split_go sep (String.length sep - 1) "" s'
          else split_go sep 0 (String c cur) s'
      end
  end.

Definition split (sep s : string) : list string := split_go sep 0 "" s.

(** [s.replace(pat, rep)] with a string pattern: the first occurrence only. *)
Fixpoint replace_first (pat rep s : string) : string :=
  if startsWith pat s then rep +:+ substring_from (String.length pat) s
  else match s with
       | EmptyString => ""
       | String c s' => String c (replace_first pat rep s')
       end.

Definition bytes (l : list nat) : string :=
  fold_right (fun n acc => String (ascii_of_nat n) acc) "" l.

(** U+FFFD, the replacement character. *)
Definition replacement : string := bytes [239; 191; 189]%nat.

(** The UTF-8 decoder behind [Buffer.prototype.toString]: [need] bytes of
    the open character are still to come, the next of them between [lo] and
    [hi]; [pending] holds the bytes of the open character backwards.  A byte
    that cannot start a character, a byte that cannot continue the open
    character (it is then read again as a first byte), and a character still
    open at the end each give U+FFFD. *)
Fixpoint utf8_decode (need lo hi : nat) (pending : string) (s : string) : string :=
  match s with
  | EmptyString => match need with O => "" | S _ => replacement end
  | String c rest =>
      let b := nat_of_ascii c in
      let first :=
        if (b <? 128)%nat then String c (utf8_decode 0 128 191 "" rest)
        else if (194 <=? b)%nat && (b <=? 223)%nat
        then utf8_decode 1 128 191 (String c "") rest
        else if (224 <=? b)%nat && (b <=? 239)%nat
        then utf8_decode 2 (if (b =? 224)%nat then 160 else 128)
               (if (b =? 237)%nat then 159 else 191) (String c "") rest
        else if (240 <=? b)%nat && (b <=? 244)%nat
        then utf8_decode 3 (if (b =? 240)%nat then 144 else 128)
               (if (b =? 244)%nat then 143 else 191) (String c "") rest
        else replacement +:+ utf8_decode 0 128 191 "" rest in
      match need with
      | O => first
      | S k =>
          if (lo <=? b)%nat && (b <=? hi)%nat then
            match k with
            | O => string_rev (String c pending) +:+ utf8_decode 0 128 191 "" rest
            | S _ => utf8_decode k 128 191 (String c pending) rest
            end
          else replacement +:+ first
      end
  end.

(** [chunk.toString()] *)
Definition buffer_toString (chunk : string) : string :=
  utf8_decode 0 128 191 "" chunk.

(** The white space and line terminators that [trim] and [parseInt] strip, in
    UTF-8: TAB, LF, VT, FF, CR, SP, U+00A0, U+1680, U+2000 to U+200A, U+2028,
    U+2029, U+202F, U+205F, U+3000 and U+FEFF. *)
Definition js_whitespace : list string :=
  map bytes
    [ [9]; [10]; [11]; [12]; [13]; [32]; [194; 160]; [225; 154; 128];
      [226; 128; 128]; [226; 128; 129]; [226; 128; 130]; [226; 128; 131];
      [226; 128; 132]; [226; 128; 133]; [226; 128; 134]; [226; 128; 135];
      [226; 128; 136]; [226; 128; 137]; [226; 128; 138]; [226; 128; 168];
      [226; 128; 169]; [226; 128; 175]; [226; 129; 159]; [227; 128; 128];
      [239; 187; 191] ]%nat.

(** One leading item of [ws] removed, if there is one. *)
Fixpoint strip_one (ws : list string) (s : string) : option string :=
  match ws with
  | [] => None
  | w :: ws' =>
      if startsWith w s then Some (substring_from (String.length w) s)
      else strip_one ws' s
  end.

Fixpoint strip_many (fuel : nat) (ws : list string) (s : string) : string :=
  match fuel with
  | O => s
  | S fuel' =>
      match strip_one ws s with
      | Some s' => strip_many fuel' ws s'
      | None => s
      end
  end.

Definition trimStart (s : string) : string :=
  strip_many (String.length s) js_whitespace s.

Definition trimEnd (s : string) : string :=
  string_rev (strip_many (String.length s) (map string_rev js_whitespace) (string_rev s)).

(** [s.trim()] *)
Definition trim (s : string) : string := trimEnd (trimStart s).

(** The value of a digit in a radix, if it is one. *)
Definition digit_value (radix : Z) (c : ascii) : option Z :=
  let n := Z.of_nat (nat_of_ascii c) in
  let v := if (48 <=? n) && (n <=? 57) then Some (n - 48)
           else if (97 <=? n) && (n <=? 122) then Some (n - 87)
           else if (65 <=? n) && (n <=? 90) then Some (n - 55)
           else None in
  match v with
  | Some d => if d <? radix then Some d else None
  | None => None
  end.

(** The longest run of digits at the front of [s], read in [radix]; [None]
    when [s] does not start with a digit. *)
Fixpoint parse_digits (radix : Z) (acc : option Z) (s : string) : option Z :=
  match s with
  | EmptyString => acc
  | String c s' =>
      match digit_value radix c with
      | Some d => parse_digits radix (Some (default 0 acc * radix + d)) s'
      | None => acc
      end
  end.

(** ** Numbers *)

(** [Infinity], as the model holds it: no double is worth [2^1024]. *)
Definition infinity : Z := 2 ^ 1024.

(** A natural number rounded to a significand of 53 bits, ties to the even
    significand. *)
Definition round_53 (n : Z) : Z :=
  let e := Z.log2 n - 52 in
  if e <=? 0 then n
  else
    let q := Z.shiftr n e in
    let r := Z.land n (Z.ones e) in
    let half := Z.shiftl 1 (e - 1) in
    let q' := if (half <? r) || ((r =? half) && Z.odd q) then q + 1 else q in
    Z.shiftl q' e.

(** The Number an integer is converted to: the nearest double, [Infinity]
    when that is beyond the largest double. *)
Definition to_double (n : Z) : Z :=
  let m := round_53 (Z.abs n) in
  Z.sgn n * (if infinity <=? m then infinity else m).

(** A number that may be [NaN]. *)
Inductive jsnum := NaN | Num (n : Z).

(** [parseInt(s)] without a radix. *)
Definition parseInt (s : string) : jsnum :=
  let s1 := trimStart s in
  let '(sign, s2) :=
    match s1 with
    | String c r =>
        if Ascii.eqb c "-"%char then (-1, r)
        else if Ascii.eqb c "+"%char then (1, r)
        else (1, s1)
    | EmptyString => (1, s1)
    end in
  let '(radix, s3) :=
    if startsWith "0x" s2 || startsWith "0X" s2
    then (16, substring_from 2 s2) else (10, s2) in
  match parse_digits radix None s3 with
  | Some n => Num (to_double (sign * n))
  | None => NaN
  end.

(** Truthiness of a number that may be [null]: [null], [NaN] and [0] are
    falsy. *)
Definition truthy_num (x : option jsnum) : option Z :=
  match x with
  | Some (Num n) => if n =? 0 then None else Some n
  | _ => None
  end.

(** The text of a number, [Number::toString]: an integer below [2^53] in
    full; from there on the shortest run of digits [s] that, followed by
    zeros up to the [n] digits of the number, is still read as the same
    double, written in full below [10^21] and as mantissa and exponent from
    there on. *)
Definition digits_of (x : Z) : Z := Z.of_nat (String.length (pretty x)).

(** The runs of [k] digits next to [x], each with the number of digits [n] of
    the number it stands for. *)
Definition candidates (x k : Z) : list (Z * Z) :=
  let n := digits_of x in
  let lo := x / 10 ^ (n - k) in
  let hi := lo + 1 in
  (if hi =? 10 ^ k then [(10 ^ (k - 1), n + 1)] else [(hi, n)]) ++ [(lo, n)].

Definition value_of (k : Z) (c : Z * Z) : Z := fst c * 10 ^ (snd c - k).

(** Of the candidates that are read as [x], the one nearest to [x]. *)
Definition closest (x k : Z) (cs : list (Z * Z)) : option (Z * Z) :=
  fold_left
    (fun best c =>
       if to_double (value_of k c) =? x then
         match best with
         | None => Some c
         | Some b =>
             let db := Z.abs (value_of k b - x) in
             let dc := Z.abs (value_of k c - x) in
             if (dc <? db) || ((dc =? db) && Z.even (fst c)) then Some c else Some b
         end
       else best)
    cs None.

Fixpoint shortest (fuel : nat) (x k : Z) : Z * Z * Z :=
  match fuel with
  | O => (x, digits_of x, digits_of x)
  | S fuel' =>
      match closest x k (candidates x k) with
      | Some (s, n) => (s, k, n)
      | None => shortest fuel' x (k + 1)
      end
  end.

Definition big_number_to_string (x : Z) : string :=
  let '(s, k, n) := shortest 17 x 1 in
  let ds := pretty s in
  if n <=? 21 then ds +:+ String.concat "" (replicate (Z.to_nat (n - k)) "0")
  else
    match ds with
    | String d EmptyString => String d "" +:+ "e+" +:+ pretty (n - 1)
    | String d rest => String d ("." +:+ rest) +:+ "e+" +:+ pretty (n - 1)
    | EmptyString => ""
    end.

Definition number_to_string (n : Z) : string :=
  let x := to_double n in
  if Z.abs x <? 2 ^ 53 then pretty x
  else if infinity <=? Z.abs x then (if x <? 0 then "-Infinity" else "Infinity")
  else (if x <? 0 then "-" else "") +:+ big_number_to_string (Z.abs x).

(** ** Stream Ingestion Engine ([LiveStreamService.initializeLiveEvents]) *)

(** A decoded frame: [LiveStreamResponse] with the three properties the
    service reads, each possibly missing. *)
Record Payload := mkPayload {
  liveSports : option (list jsval);
  liveHeaders : option (list record);
  liveBets : option (list record)
}.

(** The locals of the promise executor other than [dataBuffer]. *)
Record Accum := mkAccum {
  accSports : list jsval;
  accHeaders : list record;
  accBets : list record;
  endTimestamp : option jsnum
}.

Definition accum0 : Accum := mkAccum [] [] [] None.

(** [processLiveStreamData]: each property that is there is pushed onto its
    array. *)
Definition processLiveStreamData (data : Payload) (a : Accum) : Accum :=
  mkAccum
    (accSports a ++ default [] (liveSports data))
    (accHeaders a ++ default [] (liveHeaders data))
    (accBets a ++ default [] (liveBets data))
    (endTimestamp a).

(** How the bulk request went: [axios.get] fails (with an [AbortError] or
    another error), or the response stream delivers its chunks and then ends,
    fails, or stays open. *)
Inductive StreamFin := FinEnd | FinError (abort : bool) | FinOpen.

Inductive BulkResponse :=
| RequestFailed (abort : bool)
| Streamed (chunks : list string) (fin : StreamFin).

Inductive Failure :=
| NoEndTimestamp
| StreamFailure
| InitFailed
| AbortError
| NoTimestampAvailable
| SubscriptionFailed
| CatalogFailed
| PreGameFailed.

(** The fixed text of the errors the services create themselves. *)
Definition failure_message (f : Failure) : string :=
  match f with
  | NoEndTimestamp => "No END timestamp received from live events stream"
  | NoTimestampAvailable => "No timestamp available. Initialize live events first."
  | InitFailed => "Failed to initialize live events"
  | PreGameFailed => "Failed to fetch pre-game data"
  | CatalogFailed => "Failed to fetch sports data"
  | StreamFailure | AbortError | SubscriptionFailed => ""
  end.

(** Resolved, rejected, or never settled. *)
Inductive Outcome (A : Type) :=
| Resolved (a : A)
| Rejected (f : Failure)
| Pending.
Arguments Resolved {A} a.
Arguments Rejected {A} f.
Arguments Pending {A}.

Section Decoder.

(** [JSON.parse] followed by the reading of [liveSports], [liveHeaders] and
    [liveBets]; [None] when the text is not JSON of that shape, which the
    [try] block around it turns into a skipped frame. *)
Variable decode : string -> option Payload.

(** [jsonData]: the line without a leading [data:]. *)
Definition json_part (line : string) : string :=
  if startsWith "data:" line then substring_from 5 line else line.

(** The body of [for (const line of lines)] in the [data] handler. *)
Definition process_line (a : Accum) (line : string) : Accum :=
  if String.eqb (trim line) "" then a
  else
    let jsonData := json_part line in
    if String.eqb (trim jsonData) "" then a
    else if startsWith "END " jsonData then
      mkAccum (accSports a) (accHeaders a) (accBets a)
        (Some (parseInt (trim (replace_first "END " "" jsonData))))
    else
      match decode jsonData with
      | Some data => processLiveStreamData data a
      | None => a
      end.

(** The [data] handler, on [dataBuffer] and the other locals: the buffer
    grows by the text of the chunk, is cut at blank lines, keeps its last
    piece and hands the others on. *)
Definition on_data (st : string * Accum) (chunk : string) : string * Accum :=
  let lines := split (LF +:+ LF) (fst st +:+ buffer_toString chunk) in
  (List.last lines "", fold_left process_line (removelast lines) (snd st)).

(** The frames the [data] handler hands on during a run of chunks. *)
Fixpoint frames_from (buffer : string) (chunks : list string) : list string :=
  match chunks with
  | [] => []
  | chunk :: rest =>
      let lines := split (LF +:+ LF) (buffer +:+ buffer_toString chunk) in
      removelast lines ++ frames_from (List.last lines "") rest
  end.

(** The [end] handler. *)
Definition on_end (a : Accum) (sport : Sport) (now : Z) : Outcome LiveData :=
  match truthy_num (endTimestamp a) with
  | Some ts =>
      Resolved (mkLiveData (accSports a) (accHeaders a) (accBets a) ts now sport)
  | None => Rejected NoEndTimestamp
  end.

(** The promise [initializeLiveEvents] returns, as a function of what the
    transport does. *)
Definition bulk_outcome (sport : Sport) (resp : BulkResponse) (now : Z)
  : Outcome LiveData :=
  match resp with
  | RequestFailed true => Rejected AbortError
  | RequestFailed false => Rejected InitFailed
  | Streamed chunks fin =>
      let a := snd (fold_left on_data chunks ("", accum0)) in
      match fin with
      | FinEnd => on_end a sport now
      | FinError true => Pending
      | FinError false => Rejected StreamFailure
      | FinOpen => Pending
      end
  end.

End Decoder.

(** ** The service object and the Subscription Loop *)

(** The two [setTimeout] calls of [subscribeToLiveUpdates]: 1000 ms after the
    stream ended, 5000 ms after it failed. *)
Inductive Backoff := AfterEnd | AfterError.

Definition backoff_ms (b : Backoff) : Z :=
  match b with AfterEnd => 1000 | AfterError => 5000 end.

(** How the [axios.get] of a subscription went. *)
Inductive ConnResult := ConnOpen | ConnError | ConnAborted.

(** The fields of [LiveStreamService], and what the runtime holds for it.
    [liveData] refers to a [LiveData] object of [objects]: the orchestrator
    keeps a reference to the same object.  [timers] are the pending backoff
    timers, [streams] counts the subscription responses whose handlers are
    registered, [attempts] counts the subscription requests made. *)
Record LiveStream := mkLiveStream {
  isStreaming : bool;
  shouldStream : bool;
  currentTimestamp : option Z;
  liveData : option nat;
  abortController : bool;
  objects : list LiveData;
  timers : list Backoff;
  streams : nat;
  attempts : nat
}.

Definition liveStream0 : LiveStream :=
  mkLiveStream false false None None false [] [] 0 0.

(** [getLiveData()] *)
Definition getLiveData (s : LiveStream) : option LiveData :=
  match liveData s with
  | Some p => objects s !! p
  | None => None
  end.

Definition set_liveData (s : LiveStream) (d : option LiveData) : LiveStream :=
  match liveData s, d with
  | Some p, Some d' =>
      mkLiveStream (isStreaming s) (shouldStream s) (currentTimestamp s)
        (liveData s) (abortController s) (<[p := d']> (objects s))
        (timers s) (streams s) (attempts s)
  | _, _ => s
  end.

Definition timestamp_set (s : LiveStream) : bool :=
  match currentTimestamp s with
  | Some n => negb (n =? 0)
  | None => false
  end.

(** [subscribeToLiveUpdates]; the boolean tells whether it throws. *)
Definition subscribeToLiveUpdates (s : LiveStream) (c : ConnResult)
  : LiveStream * bool :=
  if negb (timestamp_set s) then (s, false)
  else
    let n := S (attempts s) in
    match c with
    | ConnOpen =>
        (mkLiveStream (isStreaming s) (shouldStream s) (currentTimestamp s)
           (liveData s) true (objects s) (timers s) (S (streams s)) n, false)
    | ConnAborted =>
        (mkLiveStream false (shouldStream s) (currentTimestamp s)
           (liveData s) true (objects s) (timers s) (streams s) n, false)
    | ConnError =>
        (mkLiveStream false (shouldStream s) (currentTimestamp s)
           (liveData s) true (objects s) (timers s) (streams s) n, true)
    end.

(** [startLiveSubscription] *)
Definition startLiveSubscription (s : LiveStream) (c : ConnResult)
  : LiveStream * option Failure :=
  if negb (timestamp_set s) then (s, Some NoTimestampAvailable)
  else if isStreaming s then (s, None)
  else
    let s1 := mkLiveStream true true (currentTimestamp s) (liveData s)
                (abortController s) (objects s) (timers s) (streams s)
                (attempts s) in
    let '(s2, thrown) := subscribeToLiveUpdates s1 c in
    (s2, if thrown then Some SubscriptionFailed else None).

(** [stopLiveSubscription] *)
Definition stopLiveSubscription (s : LiveStream) : LiveStream :=
  mkLiveStream false false (currentTimestamp s) (liveData s) false
    (objects s) (timers s) (streams s) (attempts s).

(** The [end] handler of a subscription stream. *)
Definition on_stream_end (s : LiveStream) : LiveStream :=
  match streams s with
  | O => s
  | S k =>
      mkLiveStream false (shouldStream s) (currentTimestamp s) (liveData s)
        (abortController s) (objects s) (timers s ++ [AfterEnd]) k (attempts s)
  end.

(** The [error] handler of a subscription stream. *)
Definition on_stream_error (s : LiveStream) (abort : bool) : LiveStream :=
  match streams s with
  | O => s
  | S k =>
      if abort then
        mkLiveStream (isStreaming s) (shouldStream s) (currentTimestamp s)
          (liveData s) (abortController s) (objects s) (timers s) k (attempts s)
      else
        mkLiveStream false (shouldStream s) (currentTimestamp s) (liveData s)
          (abortController s) (objects s) (timers s ++ [AfterError]) k
          (attempts s)
  end.

(** The callback of the pending timer number [i]. *)
Definition fire_timer (s : LiveStream) (i : nat) (c : ConnResult) : LiveStream :=
  match timers s !! i with
  | None => s
  | Some b =>
      let s1 := mkLiveStream (isStreaming s) (shouldStream s)
                  (currentTimestamp s) (liveData s) (abortController s)
                  (objects s) (delete i (timers s)) (streams s) (attempts s) in
      if shouldStream s1 then
        match b with
        | AfterEnd =>
            fst (subscribeToLiveUpdates
                   (mkLiveStream true (shouldStream s1) (currentTimestamp s1)
                      (liveData s1) (abortController s1) (objects s1)
                      (timers s1) (streams s1) (attempts s1)) c)
        | AfterError => fst (subscribeToLiveUpdates s1 c)
        end
      else s1
  end.

(** [processLiveUpdateData], without the [liveUpdate] event it emits. *)
Definition processLiveUpdateData (s : LiveStream) (data : Payload) : LiveStream :=
  let d1 := match liveHeaders data with
            | Some hs => updateLiveHeaders (getLiveData s) hs
            | None => getLiveData s
            end in
  let d2 := match liveBets data with
            | Some bs => updateLiveBets d1 bs
            | None => d1
            end in
  set_liveData s d2.

(** The store part of an update frame, on the snapshot itself. *)
Definition apply_frame (data : Payload) (d : LiveData) : LiveData :=
  mkLiveData (sports d)
    (match liveHeaders data with Some hs => update_all (headers d) hs | None => headers d end)
    (match liveBets data with Some bs => update_all (bets d) bs | None => bets d end)
    (lastTimestamp d) (initializedAt d) (sport d).

(** [liveData.headers = hs] *)
Definition with_headers (d : LiveData) (hs : list record) : LiveData :=
  mkLiveData (sports d) hs (bets d) (lastTimestamp d) (initializedAt d) (sport d).

Section Service.

Variable decode : string -> option Payload.

(** [initializeLiveEvents]: the settled promise and the fields it wrote. *)
Definition initializeLiveEvents (s : LiveStream) (sp : Sport)
    (resp : BulkResponse) (now : Z) : LiveStream * Outcome LiveData :=
  let out := bulk_outcome decode sp resp now in
  match out with
  | Resolved d =>
      (mkLiveStream (isStreaming s) (shouldStream s) (Some (lastTimestamp d))
         (Some (length (objects s))) true (objects s ++ [d]) (timers s)
         (streams s) (attempts s), out)
  | _ =>
      (mkLiveStream (isStreaming s) (shouldStream s) (currentTimestamp s)
         (liveData s) true (objects s) (timers s) (streams s) (attempts s), out)
  end.

(** What can happen to the service: its two operations and [stop] are
    called, a subscription stream ends or fails, a backoff timer fires, an
    update frame arrives on an open subscription, the orchestrator assigns
    the headers of the snapshot. *)
Inductive Event :=
| EvInit (sp : Sport) (resp : BulkResponse) (now : Z)
| EvStart (c : ConnResult)
| EvStop
| EvStreamEnd
| EvStreamError (abort : bool)
| EvTimer (i : nat) (c : ConnResult)
| EvUpdate (data : Payload)
| EvSetHeaders (hs : list record).

Definition step (s : LiveStream) (e : Event) : LiveStream :=
  match e with
  | EvInit sp resp now => fst (initializeLiveEvents s sp resp now)
  | EvStart c => fst (startLiveSubscription s c)
  | EvStop => stopLiveSubscription s
  | EvStreamEnd => on_stream_end s
  | EvStreamError abort => on_stream_error s abort
  | EvTimer i c => fire_timer s i c
  | EvUpdate data =>
      match streams s with O => s | S _ => processLiveUpdateData s data end
  | EvSetHeaders hs =>
      set_liveData s (option_map (fun d => with_headers d hs) (getLiveData s))
  end.

Definition run (s : LiveStream) (evs : list Event) : LiveStream :=
  fold_left step evs s.

Definition is_start (e : Event) : bool :=
  match e with EvStart _ => true | _ => false end.

End Service.

(** ** Reference catalog and Sport Mapping Table *)

(** [SportData] of [soccerbetApi.ts], with the properties the services read. *)
Record SportData := mkSportData {
  sd_name : string;
  sd_sportTypeCode : string;
  sd_active : bool
}.

Record SportMapping := mkSportMapping {
  sm_name : string;
  sm_sportTypeCode : string;
  sm_englishName : string
}.

(** [BetPickMapItem] *)
Record BetPickMapItem := mkBetPickMapItem {
  bpm_label : string;
  bpm_caption : string;
  bpm_tipTypeCode : Z;
  bpm_betPickCode : Z;
  bpm_betCode : Z
}.

(** [BetPickGroup]; [tipTypes] may be [null]. *)
Record BetPickGroup := mkBetPickGroup {
  bpg_id : Z;
  bpg_description : string;
  bpg_name : string;
  bpg_orderNumber : Z;
  bpg_tipTypes : option (list Z);
  bpg_sport : string
}.

(** [BettingOptionsResponse]: the two dictionaries, each as the list of its
    entries in the order [Object.entries] yields them. *)
Record BettingOptions := mkBettingOptions {
  betPickGroupMap : list (string * BetPickGroup);
  betPickMap : list (string * BetPickMapItem)
}.

(** [dict[key]] on such a dictionary. *)
Fixpoint dict_get {A : Type} (dict : list (string * A)) (key : string) : option A :=
  match dict with
  | [] => None
  | (k, v) :: rest => if String.eqb k key then Some v else dict_get rest key
  end.

(** The names of the members every plain object inherits from
    [Object.prototype]. *)
Definition object_prototype_names : list string :=
  [ "constructor"; "__defineGetter__"; "__defineSetter__"; "hasOwnProperty";
    "__lookupGetter__"; "__lookupSetter__"; "isPrototypeOf";
    "propertyIsEnumerable"; "toString"; "valueOf"; "__proto__";
    "toLocaleString" ].

(** What [obj[key]] finds on a dictionary of the catalog, a plain object out
    of [JSON.parse]: an own property, else a member inherited from
    [Object.prototype] (the prototype itself or a function, on which [label],
    [caption] and [betCode] are [undefined]), else [undefined]. *)
Inductive Lookup (A : Type) :=
| OwnProperty (a : A)
| InheritedMember
| NoProperty.
Arguments OwnProperty {A} a.
Arguments InheritedMember {A}.
Arguments NoProperty {A}.

Definition object_get {A : Type} (dict : list (string * A)) (key : string) : Lookup A :=
  match dict_get dict key with
  | Some a => OwnProperty a
  | None =>
      if existsb (String.eqb key) object_prototype_names then InheritedMember
      else NoProperty
  end.

Definition sport_name (sp : Sport) : string :=
  match sp with
  | football => "football"
  | tennis => "tennis"
  | basketball => "basketball"
  end.

(** [sportNameMap] of [initializeSportMappings] *)
Definition sportNameMap (name : string) : option string :=
  if String.eqb name "FUDBAL" then Some "football"
  else if String.eqb name "KOŠARKA" then Some "basketball"
  else if String.eqb name "TENIS" then Some "tennis"
  else None.

(** [initializeSportMappings]: the table is cleared and filled again. *)
Definition initializeSportMappings (sportsData : list SportData)
  : gmap string SportMapping :=
  fold_left
    (fun m sd =>
       match sportNameMap (sd_name sd) with
       | Some englishName =>
           <[englishName := mkSportMapping (sd_name sd) (sd_sportTypeCode sd) englishName]> m
       | None => m
       end)
    sportsData ∅.

(** [getSportTypeCode] *)
Definition getSportTypeCode (m : gmap string SportMapping) (sp : Sport)
  : option string :=
  option_map sm_sportTypeCode (m !! sport_name sp).

(** A string that may be [null] is truthy when it is there and not empty. *)
Definition truthy_str (x : option string) : option string :=
  match x with
  | Some s => if String.eqb s "" then None else Some s
  | None => None
  end.

(** [x || null] on a number and on a string that may be missing. *)
Definition num_or_null (x : option Z) : option Z :=
  match x with
  | Some n => if n =? 0 then None else Some n
  | None => None
  end.

Definition str_or_null (x : option string) : option string := truthy_str x.

(** [filterLiveHeadersBySport] *)
Definition filterLiveHeadersBySport (m : gmap string SportMapping)
    (hs : list record) (sp : Sport) : list record :=
  match truthy_str (getSportTypeCode m sp) with
  | None => []
  | Some code =>
      List.filter (fun h => strict_equal (h !! "s") (Some (JStr code))) hs
  end.

(** [PreGameApiService.getSportCode] with its fallback table. *)
Definition getSportCode (m : gmap string SportMapping) (sp : Sport) : string :=
  match truthy_str (getSportTypeCode m sp) with
  | Some code => code
  | None =>
      match sp with football => "S" | tennis => "T" | basketball => "V" end
  end.

(** [EnhancedBetPick] *)
Record EnhancedBetPick := mkEnhancedBetPick {
  ep_key : string;
  ep_label : string;
  ep_caption : string;
  ep_tipTypeCode : Z;
  ep_betPickCode : Z;
  ep_betCode : Z;
  ep_groupId : option Z;
  ep_groupDescription : option string;
  ep_groupName : option string;
  ep_groupOrderNumber : option Z
}.

(** [EnhancedBetGroup] *)
Record EnhancedBetGroup := mkEnhancedBetGroup {
  eg_id : Z;
  eg_description : string;
  eg_name : string;
  eg_orderNumber : Z;
  eg_tipTypes : option (list Z);
  eg_sport : string;
  eg_picks : list EnhancedBetPick
}.

Record EnhancedBettingOptions := mkEnhancedBettingOptions {
  groups : list EnhancedBetGroup;
  picks : list EnhancedBetPick
}.

(** [g.tipTypes && g.tipTypes.includes(code)] *)
Definition owns_tipType (code : Z) (g : EnhancedBetGroup) : bool :=
  match eg_tipTypes g with
  | Some tts => existsb (Z.eqb code) tts
  | None => false
  end.

(** [arr.findIndex(p)] *)
Fixpoint find_index {A : Type} (p : A -> bool) (l : list A) : option nat :=
  match l with
  | [] => None
  | x :: rest => if p x then Some O else option_map S (find_index p rest)
  end.

(** One round of the loop over [betPickMap]: the pick is built, pushed onto
    [allPicks] and onto the [picks] of its group. *)
Definition add_pick (sportTypeCode : string) (acc : EnhancedBettingOptions)
    (entry : string * BetPickMapItem) : EnhancedBettingOptions :=
  let '(pickKey, pickInfo) := entry in
  if endsWith ("_" +:+ sportTypeCode) pickKey then
    let gi := find_index (owns_tipType (bpm_tipTypeCode pickInfo)) (groups acc) in
    let group := gi ≫= (fun i => groups acc !! i) in
    let enhancedPick :=
      mkEnhancedBetPick pickKey (bpm_label pickInfo) (bpm_caption pickInfo)
        (bpm_tipTypeCode pickInfo) (bpm_betPickCode pickInfo) (bpm_betCode pickInfo)
        (num_or_null (option_map eg_id group))
        (str_or_null (option_map eg_description group))
        (str_or_null (option_map eg_name group))
        (num_or_null (option_map eg_orderNumber group)) in
    let groups' :=
      match gi, group with
      | Some i, Some g =>
          <[i := mkEnhancedBetGroup (eg_id g) (eg_description g) (eg_name g)
                   (eg_orderNumber g) (eg_tipTypes g) (eg_sport g)
                   (eg_picks g ++ [enhancedPick])]> (groups acc)
      | _, _ => groups acc
      end in
    mkEnhancedBettingOptions groups' (picks acc ++ [enhancedPick])
  else acc.

(** [createEnhancedBettingOptions] *)
Definition createEnhancedBettingOptions (m : gmap string SportMapping)
    (bo : BettingOptions) (sp : Sport) : EnhancedBettingOptions :=
  match truthy_str (getSportTypeCode m sp) with
  | None => mkEnhancedBettingOptions [] []
  | Some sportTypeCode =>
      let enhancedGroups :=
        map (fun e : string * BetPickGroup =>
               let g := snd e in
               mkEnhancedBetGroup (bpg_id g) (bpg_description g) (bpg_name g)
                 (bpg_orderNumber g) (bpg_tipTypes g) (bpg_sport g) [])
          (List.filter (fun e : string * BetPickGroup =>
                          String.eqb (bpg_sport (snd e)) sportTypeCode)
             (betPickGroupMap bo)) in
      fold_left (add_pick sportTypeCode) (betPickMap bo)
        (mkEnhancedBettingOptions enhancedGroups [])
  end.

(** ** Catalog Join / Enrichment Engine: live odds *)

(** The text a template literal makes of a value. *)
Fixpoint js_to_string (v : jsval) : string :=
  match v with
  | JNull => "null"
  | JBool true => "true"
  | JBool false => "false"
  | JNum n => number_to_string n
  | JStr s => s
  | JObj _ => "[object Object]"
  | JArr items =>
      String.concat ","
        (map (fun x => match x with JNull => "" | _ => js_to_string x end) items)
  end.

(** [Object.entries(v)]; [None] is the [TypeError] on [undefined] and [null].
    An object yields its properties, an array its indexed items, a string its
    indexed code units, a number or a boolean nothing. *)
Definition object_entries (v : option jsval) : option (list (string * jsval)) :=
  match v with
  | None | Some JNull => None
  | Some (JObj props) => Some props
  | Some (JArr items) =>
      Some (imap (fun i x => (number_to_string (Z.of_nat i), x)) items)
  | Some (JStr s) =>
      Some (imap (fun i c => (number_to_string (Z.of_nat i), JStr (String c "")))
              (String.list_ascii_of_string s))
  | Some (JBool _) | Some (JNum _) => Some []
  end.

(** [v.k] for a property name [k] that is neither an index nor [length];
    the outer [None] is the [TypeError] on [null]. *)
Definition get_prop (v : jsval) (k : string) : option (option jsval) :=
  match v with
  | JNull => None
  | JObj props => Some (dict_get props k)
  | _ => Some None
  end.

(** [picks.find(pick => pick.key === betPickKey)] *)
Definition find_pick (ps : list EnhancedBetPick) (betPickKey : string)
  : option EnhancedBetPick :=
  List.find (fun pick => String.eqb (ep_key pick) betPickKey) ps.

(** [x || fallback] on a string that may be missing. *)
Definition str_or (x : option string) (fallback : string) : string :=
  default fallback (truthy_str x).

(** An entry of the [odds] array of an enriched record. *)
Record EnhancedOdd := mkEnhancedOdd {
  eo_key : string;
  eo_odds : option jsval;
  eo_betPickCode : option jsval;
  eo_description : string;
  eo_caption : string
}.

(** The callback of [Object.entries(bet.om).map] in
    [getEnhancedBettingDataForMatchWithGroups]. *)
Definition enhance_odd (ps : list EnhancedBetPick) (sportCode : jsval)
    (entry : string * jsval) : option EnhancedOdd :=
  let '(key, odd) := entry in
  let betPickKey := key +:+ "_" +:+ js_to_string sportCode in
  let enhancedPick := find_pick ps betPickKey in
  ov ← get_prop odd "ov";
  bpc ← get_prop odd "bpc";
  Some (mkEnhancedOdd key ov bpc
          (str_or (option_map ep_label enhancedPick) "Unknown Description")
          (str_or (option_map ep_caption enhancedPick) "N/A")).

(** [{ ...bet, sportCode, odds, groupId, groupDescription, groupName,
    groupOrderNumber }] *)
Record EnhancedLiveBet := mkEnhancedLiveBet {
  elb_bet : record;
  elb_sportCode : jsval;
  elb_odds : list EnhancedOdd;
  elb_groupId : option Z;
  elb_groupDescription : option string;
  elb_groupName : option string;
  elb_groupOrderNumber : option Z
}.

(** The callback of [matchBets.map]. *)
Definition enhance_live_bet (ps : list EnhancedBetPick) (sportCode : jsval)
    (bet : record) : option EnhancedLiveBet :=
  entries ← object_entries (bet !! "om");
  enhancedOdds ← mapM (enhance_odd ps sportCode) entries;
  let firstOddKey := default "undefined" (option_map fst (head entries)) in
  let firstEnhancedPick :=
    find_pick ps (firstOddKey +:+ "_" +:+ js_to_string sportCode) in
  Some (mkEnhancedLiveBet bet sportCode enhancedOdds
          (num_or_null (firstEnhancedPick ≫= ep_groupId))
          (str_or_null (firstEnhancedPick ≫= ep_groupDescription))
          (str_or_null (firstEnhancedPick ≫= ep_groupName))
          (num_or_null (firstEnhancedPick ≫= ep_groupOrderNumber))).

(** [DataService.getEnhancedBettingDataForMatchWithGroups], given what
    [getInitializedData()] and [getLiveData()] return; [None] is a thrown
    [TypeError]. *)
Definition enhancedBettingDataWithGroups (enhancedOptions : option EnhancedBettingOptions)
    (live : option LiveData) (matchId : Z) : option (list EnhancedLiveBet) :=
  match enhancedOptions, live with
  | Some opts, Some d =>
      let matchBets :=
        List.filter (fun bet => strict_equal (bet !! "mId") (Some (JNum matchId)))
          (bets d) in
      match matchBets with
      | [] => Some []
      | _ =>
          let matchHeader :=
            List.find (fun h => strict_equal (rec_id h) (Some (JNum matchId)))
              (headers d) in
          match matchHeader ≫= (fun h => h !! "s") with
          | Some sportCode =>
              if truthy sportCode
              then mapM (enhance_live_bet (picks opts) sportCode) matchBets
              else Some []
          | None => Some []
          end
      end
  | _, _ => Some []
  end.

(** An entry of the [odds] array of [EnhancedBetData]; [description] and
    [caption] may be [undefined]. *)
Record OddInfo := mkOddInfo {
  oi_key : string;
  oi_odds : option jsval;
  oi_betPickCode : option jsval;
  oi_description : option string;
  oi_caption : option string;
  oi_groupId : option Z;
  oi_groupDescription : option string;
  oi_groupName : option string
}.

(** [EnhancedBetData] of [sportMappingService.ts] *)
Record EnhancedBetData := mkEnhancedBetData {
  ebd_id : option jsval;
  ebd_betCode : option jsval;
  ebd_matchId : option jsval;
  ebd_matchCode : option jsval;
  ebd_specialValue : option jsval;
  ebd_status : option jsval;
  ebd_disabled : option jsval;
  ebd_lastChangeTime : option jsval;
  ebd_sportCode : jsval;
  ebd_odds : list OddInfo
}.

(** The callback of [Object.entries(bet.om).forEach] in
    [SportMappingService.enhanceBetData].  The key under which the group is
    looked up is the text of a number or empty, never the name of an
    inherited member. *)
Definition odd_info (bo : BettingOptions) (sportCode : jsval)
    (entry : string * jsval) : option OddInfo :=
  let '(key, oddsData) := entry in
  let betPickKey := key +:+ "_" +:+ js_to_string sportCode in
  let betPickInfo := object_get (betPickMap bo) betPickKey in
  let groupInfo :=
    dict_get (betPickGroupMap bo)
      (match betPickInfo with
       | OwnProperty i => number_to_string (bpm_betCode i)
       | InheritedMember | NoProperty => ""
       end) in
  ov ← get_prop oddsData "ov";
  bpc ← get_prop oddsData "bpc";
  Some (mkOddInfo key ov bpc
          (match betPickInfo with
           | OwnProperty i => Some (bpm_label i)
           | InheritedMember => None
           | NoProperty => Some "Unknown bet"
           end)
          (match betPickInfo with
           | OwnProperty i => Some (bpm_caption i)
           | InheritedMember => None
           | NoProperty => Some key
           end)
          (num_or_null (option_map bpg_id groupInfo))
          (str_or_null (option_map bpg_description groupInfo))
          (str_or_null (option_map bpg_name groupInfo))).

(** [SportMappingService.enhanceBetData] *)
Definition enhanceBetData (bettingOptions : option BettingOptions)
    (bet : record) (sportCode : jsval) : option EnhancedBetData :=
  odds ←
    match bettingOptions with
    | Some bo =>
        if truthy_opt (bet !! "om")
        then object_entries (bet !! "om") ≫= mapM (odd_info bo sportCode)
        else Some []
    | None => Some []
    end;
  Some (mkEnhancedBetData (bet !! "id") (bet !! "bc") (bet !! "mId") (bet !! "mc")
          (bet !! "sv") (bet !! "st") (bet !! "d") (bet !! "lct") sportCode odds).

(** [SportMappingService.getEnhancedBettingDataForMatch] *)
Definition getEnhancedBettingDataForMatch (bettingOptions : option BettingOptions)
    (matchId : Z) (bs hs : list record) : option (list EnhancedBetData) :=
  let matchBets :=
    List.filter (fun bet => strict_equal (bet !! "mId") (Some (JNum matchId))) bs in
  let matchCode := head matchBets ≫= (fun b => b !! "mc") in
  let header := List.find (fun h => identical (h !! "mc") matchCode) hs in
  match header ≫= (fun h => h !! "s") with
  | Some sportCode =>
      if truthy sportCode
      then mapM (fun bet => enhanceBetData bettingOptions bet sportCode) matchBets
      else Some []
  | None => Some []
  end.

(** ** Catalog Join / Enrichment Engine: scheduled matches *)

(** [PreGameBet] of [types/pregameTypes.ts] *)
Record PreGameBet := mkPreGameBet {
  pg_bpc : Z;
  pg_tt : Z;
  pg_s : string;
  pg_ov : Z;
  pg_bc : Z;
  pg_sv : string
}.

(** [PreGameMatch]: the properties the enrichment reads; [betMap] and its
    inner maps are the lists of their entries in [Object.entries] order. *)
Record PreGameMatch := mkPreGameMatch {
  pm_id : Z;
  pm_matchCode : Z;
  pm_home : string;
  pm_away : string;
  pm_sport : string;
  pm_betMap : list (string * list (string * PreGameBet))
}.

Record PreGameResponse := mkPreGameResponse {
  esMatches : list PreGameMatch
}.

(** One round of the [forEach] of [extractSpecialValues]:
    [const [key, value] = param.split('=')]. *)
Definition add_svParam (svParams : gmap string string) (param : string)
  : gmap string string :=
  match split "=" param with
  | key :: value :: _ =>
      if String.eqb key "" then svParams
      else <[trim key := trim value]> svParams
  | _ => svParams
  end.

(** [extractSpecialValues]: the pair [(total, handicap)]. *)
Definition extractSpecialValues (svField : string)
  : option string * option string :=
  if String.eqb svField "" then (None, None)
  else
    let svParams := fold_left add_svParam (split "," svField) ∅ in
    (str_or_null (svParams !! "total"), str_or_null (svParams !! "hcp")).

(** An entry of the [odds] array of [EnhancedPreGameBet]. *)
Record PreGameOdd := mkPreGameOdd {
  po_key : string;
  po_odds : Z;
  po_betPickCode : Z;
  po_description : string;
  po_caption : string
}.

(** [EnhancedPreGameBet] *)
Record EnhancedPreGameBet := mkEnhancedPreGameBet {
  epb_id : string;
  epb_betCode : Z;
  epb_betPickCode : Z;
  epb_tipType : Z;
  epb_status : string;
  epb_specialValue : string;
  epb_sv : string;
  epb_description : string;
  epb_caption : string;
  epb_groupId : option Z;
  epb_groupDescription : option string;
  epb_groupName : option string;
  epb_groupOrderNumber : option Z;
  epb_odds : list PreGameOdd
}.

(** The three components the grouping key is made of. *)
Definition group_triple (ps : list EnhancedBetPick) (sportCode : string)
    (betKey : string) (bet : PreGameBet)
  : option Z * option string * option string :=
  let enhancedPick := find_pick ps (betKey +:+ "_" +:+ sportCode) in
  let specialValues := extractSpecialValues (pg_sv bet) in
  (num_or_null (enhancedPick ≫= ep_groupId), fst specialValues, snd specialValues).

(** [`${groupId || 'ungrouped'}_${total || 'no-total'}_${handicap || 'no-handicap'}`] *)
Definition groupKey_of (t : option Z * option string * option string) : string :=
  let '(groupId, total, handicap) := t in
  match groupId with Some g => number_to_string g | None => "ungrouped" end
  +:+ "_" +:+ default "no-total" total
  +:+ "_" +:+ default "no-handicap" handicap.

(** [groupedBets]: a [Map], kept as the list of its entries in insertion
    order. *)
Fixpoint map_has {A : Type} (m : list (string * A)) (key : string) : bool :=
  match m with
  | [] => false
  | (k, _) :: rest => String.eqb k key || map_has rest key
  end.

(** The value under [key] changed by [f]. *)
Fixpoint map_alter {A : Type} (f : A -> A) (m : list (string * A)) (key : string)
  : list (string * A) :=
  match m with
  | [] => []
  | (k, v) :: rest =>
      if String.eqb k key then (k, f v) :: rest
      else (k, v) :: map_alter f rest key
  end.

Definition push_odd (o : PreGameOdd) (b : EnhancedPreGameBet) : EnhancedPreGameBet :=
  mkEnhancedPreGameBet (epb_id b) (epb_betCode b) (epb_betPickCode b)
    (epb_tipType b) (epb_status b) (epb_specialValue b) (epb_sv b)
    (epb_description b) (epb_caption b) (epb_groupId b)
    (epb_groupDescription b) (epb_groupName b) (epb_groupOrderNumber b)
    (epb_odds b ++ [o]).

(** The body of the inner [forEach] of [enhancePreGameBets]. *)
Definition add_bet (ps : list EnhancedBetPick) (sportCode : string) (matchId : Z)
    (groupedBets : list (string * EnhancedPreGameBet))
    (pick : string * PreGameBet) : list (string * EnhancedPreGameBet) :=
  let '(betKey, bet) := pick in
  let enhancedPick := find_pick ps (betKey +:+ "_" +:+ sportCode) in
  let groupKey := groupKey_of (group_triple ps sportCode betKey bet) in
  let description := str_or (option_map ep_label enhancedPick) "Unknown Description" in
  let caption := str_or (option_map ep_caption enhancedPick) "N/A" in
  let odd := mkPreGameOdd betKey (pg_ov bet) (pg_bpc bet) description caption in
  if map_has groupedBets groupKey then map_alter (push_odd odd) groupedBets groupKey
  else
    groupedBets ++
      [(groupKey,
        mkEnhancedPreGameBet (number_to_string matchId +:+ "_" +:+ groupKey)
          (pg_bc bet) (pg_bpc bet) (pg_tt bet) (pg_s bet) (pg_sv bet) (pg_sv bet)
          description caption
          (num_or_null (enhancedPick ≫= ep_groupId))
          (str_or_null (enhancedPick ≫= ep_groupDescription))
          (str_or_null (enhancedPick ≫= ep_groupName))
          (num_or_null (enhancedPick ≫= ep_groupOrderNumber))
          [odd])].

(** The raw picks of a match in the order the two nested [forEach] visit
    them, each with its bet-type key. *)
Definition raw_picks (m : PreGameMatch) : list (string * PreGameBet) :=
  flat_map (fun e : string * list (string * PreGameBet) =>
              map (fun p : string * PreGameBet => (fst e, snd p)) (snd e))
    (pm_betMap m).

(** The [groupedBets] map after the two loops. *)
Definition grouped_bets (ps : list EnhancedBetPick) (sportCode : string)
    (m : PreGameMatch) : list (string * EnhancedPreGameBet) :=
  fold_left (add_bet ps sportCode (pm_id m)) (raw_picks m) [].

(** [enhancePreGameBets]: [groupedBets.values()] as an array. *)
Definition enhancePreGameBets (ps : list EnhancedBetPick) (sportCode : string)
    (m : PreGameMatch) : list EnhancedPreGameBet :=
  map snd (grouped_bets ps sportCode m).

(** ** Mode Orchestrator ([DataService]) *)

Inductive Mode := live | pre_game.

(** [InitializedData]; [id_liveData] refers to the [LiveData] object the
    stream service created, and [sportMapping] is the service itself. *)
Record InitializedData := mkInitializedData {
  id_sports : list SportData;
  id_bettingOptions : BettingOptions;
  id_enhancedBettingOptions : EnhancedBettingOptions;
  id_initializedAt : Z;
  id_mode : Mode;
  id_sport : Sport;
  id_interval : option string;
  id_liveData : option nat;
  id_preGameData : option PreGameResponse
}.

(** The fields of [DataService], with those of the [SportMappingService] it
    owns ([sportMappings], [bettingOptions]). *)
Record DataService := mkDataService {
  liveStreamService : LiveStream;
  sportMappings : gmap string SportMapping;
  bettingOptions : option BettingOptions;
  initializedData : option InitializedData;
  isInitialized : bool
}.

Definition dataService0 : DataService :=
  mkDataService liveStream0 ∅ None None false.

(** What the provider answers during one [initialize]: the catalog
    ([soccerbetApi.initializeData], [None] when it throws), the bulk feed, the
    subscription request, the scheduled-match fetch ([None] when it throws),
    and the two clock readings. *)
Record InitEnv := mkInitEnv {
  env_catalog : option (list SportData * BettingOptions);
  env_bulk : BulkResponse;
  env_conn : ConnResult;
  env_pregame : option PreGameResponse;
  env_clock_bulk : Z;
  env_clock_commit : Z
}.

Section Orchestrator.

Variable decode : string -> option Payload.

(** [DataService.initialize] *)
Definition initialize (ds : DataService) (mode : Mode) (sp : Sport)
    (interval : option string) (env : InitEnv)
  : DataService * Outcome InitializedData :=
  match env_catalog env with
  | None => (ds, Rejected CatalogFailed)
  | Some (sportsData, bo) =>
      let m := initializeSportMappings sportsData in
      let enhanced := createEnhancedBettingOptions m bo sp in
      let commit ls liveRef preGameData :=
        let data := mkInitializedData sportsData bo enhanced (env_clock_commit env)
                      mode sp interval liveRef preGameData in
        (mkDataService ls m (Some bo) (Some data) true, Resolved data) in
      let abandon ls (out : Outcome InitializedData) :=
        (mkDataService ls m (Some bo) (initializedData ds) (isInitialized ds), out) in
      match mode with
      | live =>
          let '(ls1, out) :=
            initializeLiveEvents decode (liveStreamService ds) sp (env_bulk env)
              (env_clock_bulk env) in
          match out with
          | Resolved d =>
              let ls2 :=
                set_liveData ls1
                  (Some (with_headers d (filterLiveHeadersBySport m (headers d) sp))) in
              let '(ls3, thrown) := startLiveSubscription ls2 (env_conn env) in
              match thrown with
              | Some f => abandon ls3 (Rejected f)
              | None => commit ls3 (liveData ls3) None
              end
          | Rejected f => abandon ls1 (Rejected f)
          | Pending => abandon ls1 Pending
          end
      | pre_game =>
          match env_pregame env with
          | Some preGameData => commit (liveStreamService ds) None (Some preGameData)
          | None => abandon (liveStreamService ds) (Rejected PreGameFailed)
          end
      end
  end.

End Orchestrator.

(** [DataService.reset] *)
Definition reset (ds : DataService) : DataService :=
  let ls :=
    if isStreaming (liveStreamService ds)
    then stopLiveSubscription (liveStreamService ds)
    else liveStreamService ds in
  mkDataService ls (sportMappings ds) (bettingOptions ds) None false.

(** *** The query surface *)

Definition getInitializedData (ds : DataService) : option InitializedData :=
  initializedData ds.

Definition isDataInitialized (ds : DataService) : bool := isInitialized ds.

(** [DataService.getLiveData] *)
Definition ds_getLiveData (ds : DataService) : option LiveData :=
  getLiveData (liveStreamService ds).

Definition isLiveStreaming (ds : DataService) : bool :=
  isStreaming (liveStreamService ds).

Definition getPreGameData (ds : DataService) : option PreGameResponse :=
  initializedData ds ≫= id_preGameData.

Definition getCurrentSportTypeCode (ds : DataService) : option string :=
  initializedData ds ≫= (fun d => getSportTypeCode (sportMappings ds) (id_sport d)).

Definition getFilteredLiveHeadersBySport (ds : DataService) : list record :=
  match initializedData ds, ds_getLiveData ds with
  | Some d, Some l => filterLiveHeadersBySport (sportMappings ds) (headers l) (id_sport d)
  | _, _ => []
  end.

(** [EnhancedPreGameMatch]: [{ ...match, bets }] *)
Record EnhancedPreGameMatch := mkEnhancedPreGameMatch {
  epm_match : PreGameMatch;
  epm_bets : list EnhancedPreGameBet
}.

Definition getEnhancedPreGameMatches (ds : DataService) : list EnhancedPreGameMatch :=
  match initializedData ds with
  | Some d =>
      match id_preGameData d, id_mode d with
      | Some preGameData, pre_game =>
          let sportCode := getSportCode (sportMappings ds) (id_sport d) in
          map (fun m =>
                 mkEnhancedPreGameMatch m
                   (enhancePreGameBets (picks (id_enhancedBettingOptions d)) sportCode m))
            (List.filter (fun m => String.eqb (pm_sport m) sportCode)
               (esMatches preGameData))
      | _, _ => []
      end
  | None => []
  end.

(** [DataService.getEnhancedBettingDataForMatchWithGroups] *)
Definition getEnhancedBettingDataForMatchWithGroups (ds : DataService) (matchId : Z)
  : option (list EnhancedLiveBet) :=
  enhancedBettingDataWithGroups
    (option_map id_enhancedBettingOptions (initializedData ds))
    (ds_getLiveData ds) matchId.

(** [DataService.getEnhancedBettingDataForMatch] *)
Definition ds_getEnhancedBettingDataForMatch (ds : DataService) (matchId : Z)
  : option (list EnhancedBetData) :=
  match ds_getLiveData ds with
  | Some l => getEnhancedBettingDataForMatch (bettingOptions ds) matchId (bets l) (headers l)
  | None => Some []
  end.

(** What a caller can read without naming a match. *)
Record QueryView := mkQueryView {
  q_initializedData : option InitializedData;
  q_isDataInitialized : bool;
  q_liveData : option LiveData;
  q_isLiveStreaming : bool;
  q_preGameData : option PreGameResponse;
  q_sportTypeCode : option string;
  q_filteredHeaders : list record;
  q_enhancedPreGameMatches : list EnhancedPreGameMatch
}.

Definition observe (ds : DataService) : QueryView :=
  mkQueryView (getInitializedData ds) (isDataInitialized ds) (ds_getLiveData ds)
    (isLiveStreaming ds) (getPreGameData ds) (getCurrentSportTypeCode ds)
    (getFilteredLiveHeadersBySport ds) (getEnhancedPreGameMatches ds).

(** ** Sample provider data, for the worked examples *)

Definition quote : string := bytes [34%nat].

(** The frame [{"liveHeaders":[{"id":1}]}] and what [JSON.parse] makes of
    it. *)
Definition sample_header_frame : string :=
  "{" +:+ quote +:+ "liveHeaders" +:+ quote +:+ ":[{" +:+ quote +:+ "id"
  +:+ quote +:+ ":1}]}".

Definition sample_header : record := {[ "id" := JNum 1 ]}.

Definition sample_decode (text : string) : option Payload :=
  if String.eqb text sample_header_frame
  then Some (mkPayload None (Some [sample_header]) None)
  else None.

Definition blank_line : string := LF +:+ LF.

(** ** Sentinel frames *)

(** The test the [data] handler makes before it reads a line as the
    sentinel. *)
Definition is_end_line (line : string) : bool :=
  negb (String.eqb (trim line) "") &&
  negb (String.eqb (trim (json_part line)) "") &&
  startsWith "END " (json_part line).

(** Decimal digits as text, and the number they write. *)
Definition digit_char (d : nat) : ascii := ascii_of_nat (48 + d).

Fixpoint decimal (ds : list nat) : string :=
  match ds with
  | [] => ""
  | d :: rest => String (digit_char d) (decimal rest)
  end.

Definition decimal_value (ds : list nat) : Z :=
  fold_left (fun acc d => acc * 10 + Z.of_nat d) ds 0.

(** The well-formed sentinel frame [END <timestamp>]. *)
Definition sentinel (ds : list nat) : string := "END " +:+ decimal ds.

(** Characters from [!] to [~]: none of them starts or ends a white space
    sequence. *)
Definition solid (c : ascii) : bool :=
  let n := nat_of_ascii c in (33 <=? n)%nat && (n <=? 126)%nat.

(** The last character of a text is solid. *)
Fixpoint last_solid (s : string) : bool :=
  match s with
  | EmptyString => false
  | String c EmptyString => solid c
  | String _ rest => last_solid rest
  end.

(** While a subscription stream is open or a backoff timer is pending, the
    service has its watermark. *)
Definition armed (s : LiveStream) : Prop :=
  timestamp_set s = true \/ (streams s = O /\ timers s = []).

(** The states the service can be in: those a run of events leads to from
    the fresh service. *)
Definition reachable (decode : string -> option Payload) (s : LiveStream) : Prop :=
  exists evs, s = run decode liveStream0 evs.

(** A service that fetched a snapshot with watermark 17 and opened its
    subscription. *)
Definition sample_events : list Event :=
  [EvInit football (Streamed ["END 17" +:+ blank_line] FinEnd) 0; EvStart ConnOpen].

Definition sample_streaming : LiveStream := run sample_decode liveStream0 sample_events.

(** *** Names for the parts of [add_bet] *)

Section PickParts.

Variables (ps : list EnhancedBetPick) (sportCode : string) (matchId : Z).

(** The grouping key of a raw pick. *)
Definition pick_key (pick : string * PreGameBet) : string :=
  groupKey_of (group_triple ps sportCode (fst pick) (snd pick)).

(** The outcome entry a raw pick contributes. *)
Definition pick_odd (pick : string * PreGameBet) : PreGameOdd :=
  let enhancedPick := find_pick ps (fst pick +:+ "_" +:+ sportCode) in
  mkPreGameOdd (fst pick) (pg_ov (snd pick)) (pg_bpc (snd pick))
    (str_or (option_map ep_label enhancedPick) "Unknown Description")
    (str_or (option_map ep_caption enhancedPick) "N/A").

(** The record a raw pick starts. *)
Definition seed_bet (pick : string * PreGameBet) : EnhancedPreGameBet :=
  let enhancedPick := find_pick ps (fst pick +:+ "_" +:+ sportCode) in
  let bet := snd pick in
  mkEnhancedPreGameBet (number_to_string matchId +:+ "_" +:+ pick_key pick)
    (pg_bc bet) (pg_bpc bet) (pg_tt bet) (pg_s bet) (pg_sv bet) (pg_sv bet)
    (str_or (option_map ep_label enhancedPick) "Unknown Description")
    (str_or (option_map ep_caption enhancedPick) "N/A")
    (num_or_null (enhancedPick ≫= ep_groupId))
    (str_or_null (enhancedPick ≫= ep_groupDescription))
    (str_or_null (enhancedPick ≫= ep_groupName))
    (num_or_null (enhancedPick ≫= ep_groupOrderNumber))
    [pick_odd pick].

(** A record after later picks of its group were pushed onto it. *)
Definition push_picks (b : EnhancedPreGameBet) (later : list (string * PreGameBet))
  : EnhancedPreGameBet :=
  fold_left (fun b p => push_odd (pick_odd p) b) later b.

End PickParts.

(** Three scheduled picks: two on the line total 2.5, handicap -1, one on
    handicap -2; the catalog puts the three pick keys into group 7. *)
Definition sample_picks : list EnhancedBetPick :=
  [ mkEnhancedBetPick "1_S" "Home" "1" 1 11 100 (Some 7) (Some "Handicap") (Some "HCP") (Some 1);
    mkEnhancedBetPick "2_S" "Away" "2" 2 12 100 (Some 7) (Some "Handicap") (Some "HCP") (Some 1);
    mkEnhancedBetPick "3_S" "Draw" "X" 3 13 100 (Some 7) (Some "Handicap") (Some "HCP") (Some 1) ].

Definition sample_match : PreGameMatch :=
  mkPreGameMatch 40 4000 "Home FC" "Away FC" "S"
    [ ("1", [("total=2.5,hcp=-1", mkPreGameBet 11 1 "ACTIVE" 185 100 "total=2.5,hcp=-1")]);
      ("2", [("total=2.5,hcp=-1", mkPreGameBet 12 2 "ACTIVE" 195 100 "total=2.5,hcp=-1")]);
      ("3", [("total=2.5,hcp=-2", mkPreGameBet 13 3 "ACTIVE" 310 100 "total=2.5,hcp=-2")]) ].

(** Two picks whose totals and handicaps differ and whose keys coincide. *)
Definition collision_match : PreGameMatch :=
  mkPreGameMatch 41 4100 "Home FC" "Away FC" "S"
    [ ("1", [("total=1,hcp=2_3", mkPreGameBet 11 1 "ACTIVE" 185 100 "total=1,hcp=2_3")]);
      ("2", [("total=1_2,hcp=3", mkPreGameBet 12 2 "ACTIVE" 195 101 "total=1_2,hcp=3")]) ].

(** A bet whose [om] can be enumerated and holds no [null] outcome, as the
    [LiveBet] type has it. *)
Definition well_formed_om (bet : record) : Prop :=
  exists entries,
    object_entries (bet !! "om") = Some entries /\
    Forall (fun e : string * jsval => snd e <> JNull) entries.

(** A live snapshot with one match of sport [S] and one bet on it, and a
    catalog without any entry. *)
Definition sample_live : LiveData :=
  mkLiveData []
    [ {[ "id" := JNum 5; "mc" := JNum 50; "s" := JStr "S" ]} ]
    [ {[ "id" := JNum 1; "mId" := JNum 5; "mc" := JNum 50;
         "om" := JObj [("1", JObj [("ov", JNum 185); ("bpc", JNum 11)])] ]} ]
    17 0 football.

Definition empty_catalog : BettingOptions := mkBettingOptions [] [].

(** What the provider answers in the worked examples: a catalog that knows
    football as sport [S], a bulk feed with one header and the sentinel
    [END 17], a subscription that opens, and one scheduled match. *)
Definition sample_env : InitEnv :=
  mkInitEnv (Some ([mkSportData "FUDBAL" "S" true], empty_catalog))
    (Streamed [sample_header_frame +:+ blank_line +:+ "END 17" +:+ blank_line] FinEnd)
    ConnOpen (Some (mkPreGameResponse [sample_match])) 0 1.

(** The orchestrator after a live start, and after a scheduled one. *)
Definition sample_ready_live : DataService :=
  fst (initialize sample_decode dataService0 live football None sample_env).

Definition sample_ready_pregame : DataService :=
  fst (initialize sample_decode dataService0 pre_game football None sample_env).

(** A later start during which the catalog gives football the code [FB] and
    the scheduled-match fetch fails; and one whose subscription request
    fails. *)
Definition failing_env : InitEnv :=
  mkInitEnv (Some ([mkSportData "FUDBAL" "FB" true], empty_catalog))
    (RequestFailed false) ConnError None 2 3.

Definition failing_subscription_env : InitEnv :=
  mkInitEnv (Some ([mkSportData "FUDBAL" "S" true], empty_catalog))
    (Streamed ["END 17" +:+ blank_line] FinEnd) ConnError None 2 3.

(** ** Display helpers ([LiveDataUtils], [services/liveDataUtils.ts]) *)

(** A [Map] whose keys are values, kept as the list of its entries in
    insertion order.  [Map] compares keys as [===] does on the values of the
    model. *)
Fixpoint jsmap_has {A : Type} (m : list (option jsval * A)) (key : option jsval)
  : bool :=
  match m with
  | [] => false
  | (k, _) :: rest => strict_equal k key || jsmap_has rest key
  end.

Fixpoint jsmap_get {A : Type} (m : list (option jsval * A)) (key : option jsval)
  : option A :=
  match m with
  | [] => None
  | (k, v) :: rest => if strict_equal k key then Some v else jsmap_get rest key
  end.

(** [m.set(key, v)]: a known key keeps its place. *)
Fixpoint jsmap_set {A : Type} (m : list (option jsval * A)) (key : option jsval)
    (v : A) : list (option jsval * A) :=
  match m with
  | [] => [(key, v)]
  | (k, x) :: rest =>
      if strict_equal k key then (k, v) :: rest
      else (k, x) :: jsmap_set rest key v
  end.

(** The value under [key] changed in place by [f]. *)
Fixpoint jsmap_alter {A : Type} (f : A -> A) (m : list (option jsval * A))
    (key : option jsval) : list (option jsval * A) :=
  match m with
  | [] => []
  | (k, x) :: rest =>
      if strict_equal k key then (k, f x) :: rest
      else (k, x) :: jsmap_alter f rest key
  end.

(** [obj[key] || fallback] on an object literal whose own properties are
    [own]: the own property, else a member inherited from
    [Object.prototype], else the fallback. *)
(** The property key a value is turned into. *)
Definition property_key (v : option jsval) : string :=
  match v with Some x => js_to_string x | None => "undefined" end.

Inductive Looked :=
| Own (text : string)
| Inherited (name : string)
| Fallback (v : option jsval).

Definition literal_or (own : list (string * string)) (v : option jsval) : Looked :=
  match truthy_str (dict_get own (property_key v)) with
  | Some text => Own text
  | None =>
      if existsb (String.eqb (property_key v)) object_prototype_names
      then Inherited (property_key v)
      else Fallback v
  end.

Module LiveDataUtils.

Definition sportCodeMap (sp : Sport) : list string :=
  match sp with
  | football => ["FB"; "SF"]
  | tennis => ["T"]
  | basketball => ["V"]
  end.

(** [codes.includes(v)] *)
Definition includes (codes : list string) (v : option jsval) : bool :=
  existsb (fun c => strict_equal v (Some (JStr c))) codes.

Definition filterHeadersBySport (hs : list record) (sp : Sport) : list record :=
  List.filter (fun header =>
                 includes (sportCodeMap sp) (header !! "s") && truthy_opt (header !! "liv"))
    hs.

Definition filterBetsByMatch (bs : list record) (matchId : Z) : list record :=
  List.filter (fun bet => strict_equal (bet !! "mId") (Some (JNum matchId))) bs.

Definition getActiveMatches (hs : list record) : list record :=
  List.filter (fun header =>
                 strict_equal (header !! "ls") (Some (JStr "RUNNING"))
                 || strict_equal (header !! "ls") (Some (JStr "HT"))
                 || strict_equal (header !! "ls") (Some (JStr "FT")))
    hs.

Definition getBettingAllowedMatches (hs : list record) : list record :=
  List.filter (fun header => truthy_opt (header !! "ba")) hs.

Definition getTopMatches (hs : list record) : list record :=
  List.filter (fun header => truthy_opt (header !! "tm")) hs.

(** [`${header.h} vs ${header.a} - ${header.lg}`] *)
Definition formatMatchInfo (header : record) : string :=
  property_key (header !! "h") +:+ " vs " +:+ property_key (header !! "a")
  +:+ " - " +:+ property_key (header !! "lg").

Definition statusMap : list (string * string) :=
  [ ("RUNNING", "Live"); ("HT", "Half Time"); ("FT", "Full Time");
    ("POSTPONED", "Postponed"); ("CANCELLED", "Cancelled");
    ("SUSPENDED", "Suspended") ].

Definition getMatchStatusText (header : record) : Looked :=
  literal_or statusMap (header !! "ls").

Definition getActiveBets (bs : list record) : list record :=
  List.filter (fun bet => negb (truthy_opt (bet !! "d"))) bs.

(** The body of the [forEach] of [groupBetsByMatch]. *)
Definition group_bet (grouped : list (option jsval * list record)) (bet : record)
  : list (option jsval * list record) :=
  let grouped1 :=
    if negb (jsmap_has grouped (bet !! "mId"))
    then jsmap_set grouped (bet !! "mId") []
    else grouped in
  jsmap_alter (fun l => l ++ [bet]) grouped1 (bet !! "mId").

Definition groupBetsByMatch (bs : list record) : list (option jsval * list record) :=
  fold_left group_bet bs [].

Definition sportMap : list (string * string) :=
  [ ("FB", "Football"); ("SF", "Special Football"); ("T", "Tennis");
    ("V", "Basketball") ].

Definition getSportName (sportCode : option jsval) : Looked :=
  literal_or sportMap sportCode.

Definition isMatchLive (header : record) : bool :=
  strict_equal (header !! "ls") (Some (JStr "RUNNING"))
  || strict_equal (header !! "ls") (Some (JStr "HT")).

Definition getMatchesByLeague (hs : list record) (leagueId : Z) : list record :=
  List.filter (fun header => strict_equal (header !! "lid") (Some (JNum leagueId))) hs.

(** [header.kot] when it is a number. *)
Definition kot (header : record) : option Z :=
  match header !! "kot" with
  | Some (JNum n) => Some n
  | _ => None
  end.

(** [arr.sort(cmp)] is stable: an item goes in front of the first item it
    does not come after. *)
Fixpoint sort_insert {A : Type} (cmp : A -> A -> Z) (x : A) (sorted : list A)
  : list A :=
  match sorted with
  | [] => [x]
  | y :: rest =>
      if cmp x y <=? 0 then x :: y :: rest
      else y :: sort_insert cmp x rest
  end.

Definition sort_by {A : Type} (cmp : A -> A -> Z) (l : list A) : list A :=
  fold_right (sort_insert cmp) [] l.

(** [sortMatchesByKickoff]: a sorted copy.  [None] when some [kot] is not a
    number: the comparator then yields [NaN] and the order is left to the
    engine. *)
Definition sortMatchesByKickoff (hs : list record) (ascending : bool)
  : option (list record) :=
  if forallb (fun h => bool_decide (is_Some (kot h))) hs then
    Some (sort_by (fun a b =>
                     if ascending then default 0 (kot a) - default 0 (kot b)
                     else default 0 (kot b) - default 0 (kot a))
            hs)
  else None.

(** An entry of the result of [getUniqueLeagues]. *)
Record League := mkLeague {
  lg_id : option jsval;
  lg_name : option jsval;
  lg_short : option jsval
}.

(** The body of the [forEach] of [getUniqueLeagues]. *)
Definition add_league (leagues : list (option jsval * League)) (header : record)
  : list (option jsval * League) :=
  if negb (jsmap_has leagues (header !! "lid"))
  then jsmap_set leagues (header !! "lid")
         (mkLeague (header !! "lid") (header !! "lg") (header !! "lsh"))
  else leagues.

Definition getUniqueLeagues (hs : list record) : list League :=
  map snd (fold_left add_league hs []).

End LiveDataUtils.

(** ** [SportMappingService]: match and group helpers *)

(** [getSportCodeFromMatchCode]: the [s] of the first header with that match
    code, [null] when there is none. *)
Definition getSportCodeFromMatchCode (matchCode : option jsval)
    (liveHeaders : list record) : option jsval :=
  match List.find (fun h => identical (h !! "mc") matchCode) liveHeaders with
  | Some header => header !! "s"
  | None => Some JNull
  end.

(** [enhanceBetsData] *)
Definition enhanceBetsData (bettingOptions : option BettingOptions)
    (bs : list record) (sportCode : jsval) : option (list EnhancedBetData) :=
  mapM (fun bet => enhanceBetData bettingOptions bet sportCode) bs.

(** A value of the map [groupBetsByMatchWithSportCodes] builds. *)
Record MatchBets := mkMatchBets {
  mb_bets : list record;
  mb_sportCode : jsval
}.

(** [sportCode || 'Unknown'] *)
Definition or_unknown (sportCode : option jsval) : jsval :=
  match sportCode with
  | Some v => if truthy v then v else JStr "Unknown"
  | None => JStr "Unknown"
  end.

(** The body of the [forEach] of [groupBetsByMatchWithSportCodes]. *)
Definition group_bet_with_code (liveHeaders : list record)
    (grouped : list (option jsval * MatchBets)) (bet : record)
  : list (option jsval * MatchBets) :=
  let sportCode := getSportCodeFromMatchCode (bet !! "mc") liveHeaders in
  let grouped1 :=
    if negb (jsmap_has grouped (bet !! "mId"))
    then jsmap_set grouped (bet !! "mId") (mkMatchBets [] (or_unknown sportCode))
    else grouped in
  jsmap_alter (fun g => mkMatchBets (mb_bets g ++ [bet]) (mb_sportCode g))
    grouped1 (bet !! "mId").

Definition groupBetsByMatchWithSportCodes (bs liveHeaders : list record)
  : list (option jsval * MatchBets) :=
  fold_left (group_bet_with_code liveHeaders) bs [].

(** [groupInfo]: the group of the catalog, or the three properties taken
    from the odd. *)
Inductive GroupInfo :=
| CatalogGroup (g : BetPickGroup)
| OddGroup (id : Z) (description name : option string).

Record BetsOfGroup := mkBetsOfGroup {
  bg_groupInfo : GroupInfo;
  bg_bets : list EnhancedBetData
}.

(** The body of [bet.odds.forEach] in [groupEnhancedBetsByGroup]. *)
Definition group_odd (bettingOptions : option BettingOptions) (bet : EnhancedBetData)
    (grouped : list (option jsval * BetsOfGroup)) (odd : OddInfo)
  : list (option jsval * BetsOfGroup) :=
  match num_or_null (oi_groupId odd) with
  | None => grouped
  | Some groupId =>
      let key := Some (JNum groupId) in
      let grouped1 :=
        if negb (jsmap_has grouped key) then
          let groupInfo :=
            bettingOptions ≫=
              (fun bo => dict_get (betPickGroupMap bo) (number_to_string groupId)) in
          jsmap_set grouped key
            (mkBetsOfGroup
               (match groupInfo with
                | Some g => CatalogGroup g
                | None => OddGroup groupId (oi_groupDescription odd) (oi_groupName odd)
                end) [])
        else grouped in
      jsmap_alter
        (fun g =>
           if existsb (fun b => strict_equal (ebd_id b) (ebd_id bet)) (bg_bets g)
           then g
           else mkBetsOfGroup (bg_groupInfo g) (bg_bets g ++ [bet]))
        grouped1 key
  end.

Definition groupEnhancedBetsByGroup (bettingOptions : option BettingOptions)
    (enhancedBets : list EnhancedBetData) : list (option jsval * BetsOfGroup) :=
  fold_left (fun grouped bet => fold_left (group_odd bettingOptions bet) (ebd_odds bet) grouped)
    enhancedBets [].

(** The name the provider gives a sport. *)
Definition provider_name (sp : Sport) : string :=
  match sp with
  | football => "FUDBAL"
  | basketball => "KOŠARKA"
  | tennis => "TENIS"
  end.

(** [getSportMapping] *)
Definition getSportMapping (m : gmap string SportMapping) (sp : Sport)
  : option SportMapping :=
  m !! sport_name sp.

(** Every character of a text passes a test. *)
Fixpoint string_forall (p : ascii -> bool) (s : string) : bool :=
  match s with
  | EmptyString => true
  | String c rest => p c && string_forall p rest
  end.

(** A key or a value of the [sv] field: not empty, made of characters from
    [!] to [~] other than the comma and the equals sign. *)
Definition token (s : string) : bool :=
  negb (String.eqb s "") &&
  string_forall (fun c => solid c && negb (Ascii.eqb c ",") && negb (Ascii.eqb c "=")) s.

(** The [sv] text [k1=v1,k2=v2,...]. *)
Definition sv_text (params : list (string * string)) : string :=
  String.concat "," (map (fun kv => fst kv +:+ "=" +:+ snd kv) params).

(** ** The [data] handler of a subscription stream *)

Section UpdateFrames.

Variable decode : string -> option Payload.

(** The body of [for (const line of lines)] in the [data] handler of
    [subscribeToLiveUpdates]. *)
Definition update_line (s : LiveStream) (line : string) : LiveStream :=
  if String.eqb (trim line) "" then s
  else
    let jsonData := json_part line in
    if String.eqb (trim jsonData) "" then s
    else
      match decode jsonData with
      | Some data => processLiveUpdateData s data
      | None => s
      end.

(** The handler, on [dataBuffer] and the service: the buffer grows by the
    text of the chunk, is cut at line feeds, keeps its last piece and hands
    the others on. *)
Definition on_update_data (st : string * LiveStream) (chunk : string)
  : string * LiveStream :=
  let lines := split LF (fst st +:+ buffer_toString chunk) in
  (List.last lines "", fold_left update_line (removelast lines) (snd st)).

(** What a frame of the bulk feed adds to the snapshot: nothing for a blank
    frame, the sentinel, or text that is not JSON. *)
Definition frame_payload (line : string) : option Payload :=
  if String.eqb (trim line) "" then None
  else
    let jsonData := json_part line in
    if String.eqb (trim jsonData) "" then None
    else if startsWith "END " jsonData then None
    else decode jsonData.

End UpdateFrames.

(** ** What can happen to the orchestrator *)

Inductive Op :=
| OpInitialize (mode : Mode) (sp : Sport) (interval : option string) (env : InitEnv)
| OpReset
| OpStream (e : Event).

Section OrchestratorRuns.

Variable decode : string -> option Payload.

Definition ds_step (ds : DataService) (op : Op) : DataService :=
  match op with
  | OpInitialize mode sp interval env => fst (initialize decode ds mode sp interval env)
  | OpReset => reset ds
  | OpStream e =>
      mkDataService (step decode (liveStreamService ds) e) (sportMappings ds)
        (bettingOptions ds) (initializedData ds) (isInitialized ds)
  end.

Definition ds_run (ds : DataService) (ops : list Op) : DataService :=
  fold_left ds_step ops ds.

(** The states of the orchestrator a run leads to from the fresh one. *)
Definition ds_reachable (ds : DataService) : Prop :=
  exists ops, ds = ds_run dataService0 ops.

End OrchestratorRuns.

(** The part of the service the store lives in. *)
Definition store_of (s : LiveStream) : option Z * option nat * list LiveData :=
  (currentTimestamp s, liveData s, objects s).

(** The watermark and the snapshot go together. *)
Definition store_ok (s : LiveStream) : Prop :=
  currentTimestamp s = lastTimestamp <$> getLiveData s /\
  (forall d, getLiveData s = Some d -> lastTimestamp d <> 0) /\
  (liveData s = None <-> getLiveData s = None).

(** ** Names used in the statements about the helpers *)

(** A map with its values changed by [f]. *)
Definition on_values {A B : Type} (f : A -> B) (m : list (option jsval * A))
  : list (option jsval * B) :=
  map (fun e => (fst e, f (snd e))) m.

(** What holds of every group while the bets of [all] are being filed. *)
Definition group_ok (all : list EnhancedBetData) (e : option jsval * BetsOfGroup) : Prop :=
  exists groupId,
    fst e = Some (JNum groupId) /\ groupId <> 0 /\
    NoDup (map ebd_id (bg_bets (snd e))) /\
    bg_bets (snd e) <> [] /\
    forall b, b ∈ bg_bets (snd e) ->
      b ∈ all /\ exists odd, odd ∈ ebd_odds b /\ oi_groupId odd = Some groupId.

(** A bet with this id is filed under the group. *)
Definition filed (G : list (option jsval * BetsOfGroup)) (groupId : Z)
    (id : option jsval) : Prop :=
  exists g, jsmap_get G (Some (JNum groupId)) = Some g /\ id ∈ map ebd_id (bg_bets g).

(** What the loop over the picks leaves of a group as it was created. *)
Definition group_core (g : EnhancedBetGroup)
  : Z * string * string * Z * option (list Z) * string :=
  (eg_id g, eg_description g, eg_name g, eg_orderNumber g, eg_tipTypes g, eg_sport g).

(** The pick [add_pick] builds for a catalog entry, given the groups. *)
Definition pick_of (gs : list EnhancedBetGroup) (entry : string * BetPickMapItem)
  : EnhancedBetPick :=
  let group := List.find (owns_tipType (bpm_tipTypeCode (snd entry))) gs in
  mkEnhancedBetPick (fst entry) (bpm_label (snd entry)) (bpm_caption (snd entry))
    (bpm_tipTypeCode (snd entry)) (bpm_betPickCode (snd entry)) (bpm_betCode (snd entry))
    (num_or_null (option_map eg_id group))
    (str_or_null (option_map eg_description group))
    (str_or_null (option_map eg_name group))
    (num_or_null (option_map eg_orderNumber group)).

(** The group a catalog entry of the sport is created from. *)
Definition fresh_group (e : string * BetPickGroup) : EnhancedBetGroup :=
  mkEnhancedBetGroup (bpg_id (snd e)) (bpg_description (snd e)) (bpg_name (snd e))
    (bpg_orderNumber (snd e)) (bpg_tipTypes (snd e)) (bpg_sport (snd e)) [].

(** What holds of every entry of [groupedBets]. *)
Definition entry_ok (matchId : Z) (e : string * EnhancedPreGameBet) : Prop :=
  epb_id (snd e) = number_to_string matchId +:+ "_" +:+ fst e /\
  epb_odds (snd e) <> [].

(** What holds of the orchestrator in every state. *)
Definition ds_ok (ds : DataService) : Prop :=
  (isInitialized ds = true <-> is_Some (initializedData ds)) /\
  forall data, initializedData ds = Some data ->
    is_Some (bettingOptions ds) /\
    match id_mode data with
    | live =>
        is_Some (ds_getLiveData ds) /\ is_Some (id_liveData data) /\
        id_preGameData data = None
    | pre_game => is_Some (id_preGameData data) /\ id_liveData data = None
    end.

(** ** The routes of the Express server that read the orchestrator *)

(** What a handler answers: a redirect, a JSON body with its status, or the
    body of its [catch] branch, whose message is the prefix followed by the
    text of the error. *)
Inductive Reply (A : Type) :=
| Redirect (location : string)
| Json (status : Z) (success : bool) (message : string) (data : option A)
| Failed (status : Z) (messagePrefix : string).
Arguments Redirect {A} location.
Arguments Json {A} status success message data.
Arguments Failed {A} status messagePrefix.

(** [requireAuth]: [req.session.authenticated] may be missing. *)
Definition requireAuth {A : Type} (authenticated : option bool) (next : Reply A)
  : Reply A :=
  match authenticated with
  | Some true => next
  | _ => Redirect "/login"
  end.

(** The [data] of the answer of [GET /api/live-bets/:matchId]. *)
Record LiveBetsData := mkLiveBetsData {
  lb_matchId : Z;
  lb_bets : list EnhancedBetData;
  lb_totalBets : Z;
  lb_sportCode : option string
}.

(** The handler of [GET /api/live-bets/:matchId]. *)
Definition live_bets_handler (ds : DataService) (matchIdParam : string)
  : Reply LiveBetsData :=
  match parseInt matchIdParam with
  | NaN => Json 400 false "Invalid match ID" None
  | Num matchId =>
      let notInitialized :=
        Json 200 false "Live mode not initialized. Please start live mode first." None in
      match getInitializedData ds with
      | None => notInitialized
      | Some initializedData =>
          match id_mode initializedData with
          | pre_game => notInitialized
          | live =>
              match ds_getLiveData ds with
              | None => Json 200 false "No live data available" None
              | Some _ =>
                  match ds_getEnhancedBettingDataForMatch ds matchId with
                  | Some enhancedBets =>
                      Json 200 true "Enhanced live bets retrieved successfully"
                        (Some (mkLiveBetsData matchId enhancedBets
                                 (Z.of_nat (length enhancedBets))
                                 (getCurrentSportTypeCode ds)))
                  | None => Failed 500 "Failed to retrieve live bets: "
                  end
              end
          end
      end
  end.

Definition live_bets_route (authenticated : option bool) (ds : DataService)
    (matchIdParam : string) : Reply LiveBetsData :=
  requireAuth authenticated (live_bets_handler ds matchIdParam).

(** [POST /api/stop]: the orchestrator after the request, and the answer. *)
Definition stop_route (authenticated : option bool) (ds : DataService)
  : DataService * Reply unit :=
  match authenticated with
  | Some true =>
      (reset ds,
       Json 200 true "Successfully stopped data collection and reset initialized data" None)
  | _ => (ds, Redirect "/login")
  end.

(** ** Names used in the statements about the store *)

(** Every record of a patch has an id that is compared by value. *)
Definition primitive_ids (patch : list record) : Prop :=
  Forall (fun r => is_primitive (rec_id r) = true) patch.

(** [next] is the collection [cur] after the record [r] of a patch was
    applied.  When a record of [cur] has the id of [r], the first such record
    is replaced, in its slot, by the record that has every property of [r]
    and, for the property names [r] does not carry, the properties of the old
    record; when none has, [r] itself is added at the end. *)
Definition merged_or_inserted (cur : list record) (r : record) (next : list record)
  : Prop :=
  match findIndex cur (rec_id r) with
  | Some i =>
      exists existing,
        cur !! i = Some existing /\
        identical (rec_id existing) (rec_id r) = true /\
        Forall (fun h => identical (rec_id h) (rec_id r) = false) (take i cur) /\
        next = <[i := spread_merge existing r]> cur /\
        forall k, spread_merge existing r !! k =
                  match r !! k with Some v => Some v | None => existing !! k end
  | None =>
      Forall (fun h => identical (rec_id h) (rec_id r) = false) cur /\
      next = cur ++ [r]
  end.

(** ** Names used in the statements about the grouping key *)

(** A digit or the minus sign. *)
Definition numeral_char (c : ascii) : bool :=
  let n := nat_of_ascii c in ((48 <=? n)%nat && (n <=? 57)%nat) || Ascii.eqb c "-".

(** A text without an underscore. *)
Definition underscore_free (s : string) : bool :=
  string_forall (fun c => negb (Ascii.eqb c "_")) s.

(** The first of the three parts a key is made of. *)
Definition group_text (g : option Z) : string :=
  match g with Some z => number_to_string z | None => "ungrouped" end.

(** A group id that is below [2^53] in size. *)
Definition safe_group (g : option Z) : Prop :=
  forall z, g = Some z -> Z.abs z < 2 ^ 53.

(** ** Names used in the statements about the live enrichment *)

(** The key is the name of a member every plain object inherits. *)
Definition inherited_name (k : string) : bool :=
  existsb (String.eqb k) object_prototype_names.

(** What [getEnhancedBettingDataForMatchWithGroups] makes of a bet of the
    match: the bet with the sport code, and one entry per outcome of its
    [om], in order and under the key of the outcome, with the placeholders
    when the pick key of the outcome is not among the picks. *)
Definition enriched_with_groups (ps : list EnhancedBetPick) (sc : jsval)
    (bet : record) (eb : EnhancedLiveBet) : Prop :=
  elb_bet eb = bet /\ elb_sportCode eb = sc /\
  exists entries,
    object_entries (bet !! "om") = Some entries /\
    Forall2 (fun (e : string * jsval) (o : EnhancedOdd) =>
               eo_key o = fst e /\
               (find_pick ps (fst e +:+ "_" +:+ js_to_string sc) = None ->
                eo_description o = "Unknown Description" /\ eo_caption o = "N/A"))
      entries (elb_odds eb).

(** What [enhanceBetData] makes of a bet of the match: one entry per outcome
    of its [om], in order and under the key of the outcome.  When the pick
    key of the outcome has no entry in [betPickMap], the description is
    "Unknown bet" and the caption the key of the outcome, unless the pick key
    names an inherited member, which has neither label nor caption. *)
Definition enriched_plain (bo : BettingOptions) (sc : jsval)
    (bet : record) (eb : EnhancedBetData) : Prop :=
  ebd_id eb = bet !! "id" /\ ebd_matchId eb = bet !! "mId" /\
  ebd_sportCode eb = sc /\
  exists entries,
    object_entries (bet !! "om") = Some entries /\
    Forall2 (fun (e : string * jsval) (o : OddInfo) =>
               oi_key o = fst e /\
               (dict_get (betPickMap bo) (fst e +:+ "_" +:+ js_to_string sc) = None ->
                if inherited_name (fst e +:+ "_" +:+ js_to_string sc)
                then oi_description o = None /\ oi_caption o = None
                else oi_description o = Some "Unknown bet" /\
                     oi_caption o = Some (fst e)))
      entries (ebd_odds eb).

(** ** Names used in the statements about chunks *)

(** The bytes are well-formed UTF-8 for a decoder that still waits for
    [need] bytes of a character, the next of them between [lo] and [hi]. *)
Fixpoint utf8_valid (need lo hi : nat) (s : string) : bool :=
  match s with
  | EmptyString => match need with O => true | S _ => false end
  | String c rest =>
      let b := nat_of_ascii c in
      match need with
      | O =>
          if (b <? 128)%nat then utf8_valid 0 128 191 rest
          else if (194 <=? b)%nat && (b <=? 223)%nat then utf8_valid 1 128 191 rest
          else if (224 <=? b)%nat && (b <=? 239)%nat
          then utf8_valid 2 (if (b =? 224)%nat then 160 else 128)
                 (if (b =? 237)%nat then 159 else 191) rest
          else if (240 <=? b)%nat && (b <=? 244)%nat
          then utf8_valid 3 (if (b =? 240)%nat then 144 else 128)
                 (if (b =? 244)%nat then 143 else 191) rest
          else false
      | S k => (lo <=? b)%nat && (b <=? hi)%nat && utf8_valid k 128 191 rest
      end
  end.

(** A chunk that is well-formed UTF-8 on its own: it holds whole characters
    only. *)
Definition whole_characters (chunk : string) : bool := utf8_valid 0 128 191 chunk.

(** * Properties *)

(** ** The merge of the Live State Store *)

Lemma strict_equal_true a b : strict_equal a b = true <-> a = b.
Proof. unfold strict_equal. apply bool_decide_eq_true. Qed.

Lemma strict_equal_false a b : strict_equal a b = false <-> a <> b.
Proof. unfold strict_equal. apply bool_decide_eq_false. Qed.

Lemma identical_true a b : identical a b = true <-> a = b /\ is_primitive b = true.
Proof.
  unfold identical. rewrite andb_true_iff, strict_equal_true.
  split; [intros [P E] | intros [E P]]; subst; auto.
Qed.

(** An id that is an array or an object is the id of no stored record. *)
Lemma identical_object a b : is_primitive b = false -> identical a b = false.
Proof.
  intros P. destruct (identical a b) eqn:E; [|reflexivity].
  apply identical_true in E as [_ E]. congruence.
Qed.

Lemma identical_false a b :
  is_primitive b = true -> identical a b = false <-> a <> b.
Proof.
  intros P. split.
  - intros E Eq. assert (T : identical a b = true) by (by apply identical_true).
    congruence.
  - intros N. destruct (identical a b) eqn:E; [|reflexivity].
    apply identical_true in E as [E _]. congruence.
Qed.

Lemma spread_merge_lookup (old new : record) (k : string) :
  spread_merge old new !! k =
  match new !! k with Some v => Some v | None => old !! k end.
Proof.
  unfold spread_merge. destruct (new !! k) as [v|] eqn:E.
  - by apply lookup_union_Some_l.
  - by rewrite lookup_union_r.
Qed.

Lemma rec_id_spread_merge (old new : record) :
  rec_id old = rec_id new -> rec_id (spread_merge old new) = rec_id old.
Proof.
  unfold rec_id. intros E. rewrite spread_merge_lookup.
  destruct (new !! "id"); congruence.
Qed.

Lemma findIndex_None (arr : list record) id :
  findIndex arr id = None <-> Forall (fun h => identical (rec_id h) id = false) arr.
Proof.
  induction arr as [|h arr IH]; simpl.
  - split; [constructor | reflexivity].
  - destruct (identical (rec_id h) id) eqn:E.
    + split; [discriminate|]. intros F. inversion F; subst. congruence.
    + destruct (findIndex arr id) as [i|] eqn:Fi; simpl.
      * split; [discriminate|]. intros F. inversion F; subst.
        apply IH in H2. discriminate.
      * split; [|reflexivity]. intros _. constructor; [exact E|].
        by apply IH.
Qed.

Lemma findIndex_Some (arr : list record) id (i : nat) :
  findIndex arr id = Some i ->
  exists h, arr !! i = Some h /\ identical (rec_id h) id = true /\
            Forall (fun h' => identical (rec_id h') id = false) (take i arr).
Proof.
  revert i. induction arr as [|h arr IH]; simpl; intros i; [discriminate|].
  destruct (identical (rec_id h) id) eqn:E.
  - intros [= <-]. exists h. simpl. auto.
  - destruct (findIndex arr id) as [j|]; simpl; [|discriminate].
    intros [= <-]. destruct (IH j eq_refl) as (h' & L & I & F).
    exists h'. simpl. repeat split; auto.
Qed.

Lemma findIndex_object (arr : list record) id :
  is_primitive id = false -> findIndex arr id = None.
Proof.
  intros P. apply findIndex_None. apply Forall_forall. intros h _.
  by apply identical_object.
Qed.

(** The loop body, read along the array. *)
Lemma update_one_cons (h : record) (arr : list record) (r : record) :
  update_one (h :: arr) r =
  if identical (rec_id h) (rec_id r) then spread_merge h r :: arr
  else h :: update_one arr r.
Proof.
  unfold update_one. simpl.
  destruct (identical (rec_id h) (rec_id r)); [reflexivity|].
  destruct (findIndex arr (rec_id r)) as [i|] eqn:Fi; simpl; [|reflexivity].
  destruct (arr !! i); reflexivity.
Qed.

Lemma update_one_found (arr : list record) (r : record) (i : nat) :
  findIndex arr (rec_id r) = Some i ->
  exists existing, arr !! i = Some existing /\ rec_id existing = rec_id r /\
    update_one arr r = <[i := spread_merge existing r]> arr.
Proof.
  intros Fi. destruct (findIndex_Some _ _ _ Fi) as (h & L & I & _).
  apply identical_true in I as [I _].
  exists h. repeat split; auto. unfold update_one. by rewrite Fi, L.
Qed.

Lemma update_one_fresh (arr : list record) (r : record) :
  findIndex arr (rec_id r) = None -> update_one arr r = arr ++ [r].
Proof. intros Fi. unfold update_one. by rewrite Fi. Qed.

Lemma update_all_app (arr : list record) (p q : list record) :
  update_all arr (p ++ q) = update_all (update_all arr p) q.
Proof. unfold update_all. apply fold_left_app. Qed.

Lemma update_one_merged_or_inserted (cur : list record) (r : record) :
  merged_or_inserted cur r (update_one cur r).
Proof.
  unfold merged_or_inserted. destruct (findIndex cur (rec_id r)) as [i|] eqn:Fi.
  - destruct (findIndex_Some _ _ _ Fi) as (h & L & I & F).
    exists h. repeat split; auto.
    + unfold update_one. by rewrite Fi, L.
    + intros k. apply spread_merge_lookup.
  - split; [by apply findIndex_None | by apply update_one_fresh].
Qed.

(** The ids of the array after one step. *)
Lemma ids_update_one (arr : list record) (r : record) :
  map rec_id (update_one arr r) =
  map rec_id arr ++
    match findIndex arr (rec_id r) with Some _ => [] | None => [rec_id r] end.
Proof.
  induction arr as [|h arr IH].
  - reflexivity.
  - rewrite update_one_cons. simpl.
    destruct (identical (rec_id h) (rec_id r)) eqn:E.
    + apply identical_true in E as [E _]. simpl.
      rewrite rec_id_spread_merge by exact E. by rewrite app_nil_r.
    + simpl. rewrite IH. destruct (findIndex arr (rec_id r)); reflexivity.
Qed.

Lemma ids_update_all (arr patch : list record) :
  exists added,
    map rec_id (update_all arr patch) = map rec_id arr ++ added /\
    Forall (fun k => (exists r, r ∈ patch /\ rec_id r = k) /\
                     Forall (fun h => identical (rec_id h) k = false) arr) added.
Proof.
  revert arr. induction patch as [|r patch IH]; intros arr.
  - exists []. split; [by rewrite app_nil_r | constructor].
  - destruct (IH (update_one arr r)) as (added & E & F).
    change (update_all arr (r :: patch)) with (update_all (update_one arr r) patch).
    rewrite E. rewrite ids_update_one.
    assert (Hsub : Forall (fun k => (exists r0, r0 ∈ r :: patch /\ rec_id r0 = k) /\
                                    Forall (fun h => identical (rec_id h) k = false) arr) added).
    { eapply Forall_impl; [exact F|]. intros k [(r0 & Hr0 & Ek) Hk]. split.
      - exists r0. split; [by right | exact Ek].
      - apply Forall_forall. intros h Hh. rewrite Forall_forall in Hk.
        destruct (identical (rec_id h) k) eqn:S; [|reflexivity].
        apply identical_true in S as [S P].
        assert (Hin : rec_id h ∈ map rec_id (update_one arr r)).
        { rewrite ids_update_one. apply elem_of_app. left.
          apply list_elem_of_fmap. by exists h. }
        apply list_elem_of_fmap in Hin as (h' & Eh' & Hh').
        specialize (Hk h' Hh'). rewrite <- Eh', S in Hk.
        assert (T : identical k k = true) by (by apply identical_true).
        congruence. }
    destruct (findIndex arr (rec_id r)) eqn:Fi.
    + rewrite app_nil_r. exists added. split; [reflexivity | exact Hsub].
    + exists (rec_id r :: added). split; [by rewrite <- app_assoc|].
      constructor; [|exact Hsub]. split.
      * exists r. split; [left | reflexivity].
      * by apply findIndex_None.
Qed.

Lemma update_all_keeps_slot (arr patch : list record) (i : nat) (h : record) :
  arr !! i = Some h ->
  exists h', update_all arr patch !! i = Some h' /\ rec_id h' = rec_id h.
Proof.
  intros L. destruct (ids_update_all arr patch) as (added & E & _).
  assert (L' : map rec_id (update_all arr patch) !! i = Some (rec_id h)).
  { rewrite E. apply lookup_app_l_Some. by rewrite list_lookup_fmap, L. }
  rewrite list_lookup_fmap in L'.
  destruct (update_all arr patch !! i) as [h'|]; [|discriminate].
  exists h'. split; [reflexivity|]. simpl in L'. congruence.
Qed.

(** Every record of a patch is in the collection afterwards, under its id. *)
Lemma update_all_holds_ids (arr patch : list record) (r : record) :
  r ∈ patch -> rec_id r ∈ map rec_id (update_all arr patch).
Proof.
  revert arr. induction patch as [|r0 patch IH]; intros arr Hr; [inversion Hr|].
  change (update_all arr (r0 :: patch)) with (update_all (update_one arr r0) patch).
  apply elem_of_cons in Hr as [->|Hr]; [|by apply IH].
  destruct (ids_update_all (update_one arr r0) patch) as (added & E & _).
  rewrite E. apply elem_of_app. left. rewrite ids_update_one.
  destruct (findIndex arr (rec_id r0)) as [i|] eqn:Fi.
  - rewrite app_nil_r. destruct (update_one_found _ _ _ Fi) as (h & L & I & _).
    apply list_elem_of_fmap. exists h. split; [by rewrite I|].
    by eapply list_elem_of_lookup_2.
  - apply elem_of_app. right. left.
Qed.

(** A property that no record of the patch with the id of a stored record
    carries is left as it is. *)
Lemma update_all_keeps_property (patch arr : list record) (i : nat) (h : record)
    (k : string) :
  arr !! i = Some h ->
  (forall r, r ∈ patch -> rec_id r = rec_id h -> r !! k = None) ->
  exists h', update_all arr patch !! i = Some h' /\
             rec_id h' = rec_id h /\ h' !! k = h !! k.
Proof.
  revert arr h. induction patch as [|r patch IH]; intros arr h L Hk.
  - exists h. auto.
  - change (update_all arr (r :: patch)) with (update_all (update_one arr r) patch).
    assert (S1 : exists h1, update_one arr r !! i = Some h1 /\
                            rec_id h1 = rec_id h /\ h1 !! k = h !! k).
    { destruct (findIndex arr (rec_id r)) as [j|] eqn:Fi.
      - destruct (update_one_found _ _ _ Fi) as (e & Le & Ie & U). rewrite U.
        destruct (decide (j = i)) as [->|Nj].
        + assert (e = h) by congruence. subst e.
          exists (spread_merge h r). split.
          * apply list_lookup_insert_eq. by eapply lookup_lt_Some.
          * split; [by apply rec_id_spread_merge|].
            rewrite spread_merge_lookup. rewrite (Hk r); [reflexivity|left|congruence].
        + exists h. split; [|auto]. by rewrite list_lookup_insert_ne.
      - rewrite (update_one_fresh _ _ Fi). exists h. split; [|auto].
        by apply lookup_app_l_Some. }
    destruct S1 as (h1 & L1 & I1 & K1).
    destruct (IH (update_one arr r) h1 L1) as (h' & L' & I' & K').
    { intros r' Hr' E'. apply Hk; [by right | congruence]. }
    exists h'. split; [exact L'|]. split; congruence.
Qed.

(** C1, as stated, fails for ids that are not compared by value: the store
    holds a record whose id is the object [{"k":1}] and the patch carries a
    record with that id; the record is pushed, and the stored one is left as
    it was. *)
Lemma object_id_is_inserted_not_merged :
  let stored : record := {[ "id" := JObj [("k", JNum 1)]; "h" := JStr "Home FC" ]} in
  let incoming : record := {[ "id" := JObj [("k", JNum 1)]; "ls" := JStr "HT" ]} in
  let result := update_all [stored] [incoming] in
  rec_id stored = rec_id incoming /\
  updateLiveHeaders (Some (mkLiveData [] [stored] [] 5 0 football)) [incoming]
  = Some (mkLiveData [] result [] 5 0 football) /\
  updateLiveBets (Some (mkLiveData [] [] [stored] 5 0 football)) [incoming]
  = Some (mkLiveData [] [] result 5 0 football) /\
  map rec_id result = [rec_id stored; rec_id incoming] /\
  map (fun h : record => (h !! "h", h !! "ls")) result
  = [ (Some (JStr "Home FC"), None); (None, Some (JStr "HT")) ].
Proof.
  cbv zeta. split; [reflexivity|]. split; [reflexivity|]. split; [reflexivity|].
  split; vm_compute; reflexivity.
Qed.

(** C1, amended: ids are compared as [===] does.  An empty patch changes
    nothing, a patch is applied record by record, and a patch operation
    leaves the other collection and the rest of the snapshot alone.  Each
    record, when the loop reaches it, is merged into the first record with
    its id (its properties overwrite, the others stay) or, when no record has
    its id, is added as it is at the end; a record whose id is an array or an
    object is always added.  After the whole patch a stored record still has
    every property that no record of the patch with its id carries. *)
Theorem patch_is_shallow_merge_or_insert (d : LiveData) (pre post : list record)
    (r : record) :
  updateLiveHeaders (Some d) [] = Some d /\
  updateLiveBets (Some d) [] = Some d /\
  (exists dh dh' db db',
     updateLiveHeaders (Some d) pre = Some dh /\
     updateLiveHeaders (Some d) (pre ++ [r]) = Some dh' /\
     updateLiveBets (Some d) pre = Some db /\
     updateLiveBets (Some d) (pre ++ [r]) = Some db' /\
     merged_or_inserted (headers dh) r (headers dh') /\
     merged_or_inserted (bets db) r (bets db') /\
     (is_primitive (rec_id r) = false ->
      headers dh' = headers dh ++ [r] /\ bets db' = bets db ++ [r]) /\
     (bets dh', sports dh', lastTimestamp dh', initializedAt dh', sport dh')
       = (bets d, sports d, lastTimestamp d, initializedAt d, sport d) /\
     (headers db', sports db', lastTimestamp db', initializedAt db', sport db')
       = (headers d, sports d, lastTimestamp d, initializedAt d, sport d) /\
     updateLiveHeaders (Some d) (pre ++ r :: post) = updateLiveHeaders (Some dh') post /\
     updateLiveBets (Some d) (pre ++ r :: post) = updateLiveBets (Some db') post) /\
  (forall (patch : list record) (i : nat) (h : record) (k : string),
     (forall r', r' ∈ patch -> rec_id r' = rec_id h -> r' !! k = None) ->
     (headers d !! i = Some h ->
      exists d' h', updateLiveHeaders (Some d) patch = Some d' /\
                    headers d' !! i = Some h' /\ rec_id h' = rec_id h /\
                    h' !! k = h !! k) /\
     (bets d !! i = Some h ->
      exists d' h', updateLiveBets (Some d) patch = Some d' /\
                    bets d' !! i = Some h' /\ rec_id h' = rec_id h /\
                    h' !! k = h !! k)).
Proof.
  split; [by destruct d|]. split; [by destruct d|]. split.
  - eexists _, _, _, _. split; [reflexivity|]. split; [reflexivity|].
    split; [reflexivity|]. split; [reflexivity|]. cbn.
    rewrite !update_all_app. cbn [update_all fold_left].
    split; [apply update_one_merged_or_inserted|].
    split; [apply update_one_merged_or_inserted|].
    split; [|split; [reflexivity|split; [reflexivity|]]].
    + intros P. split; apply update_one_fresh; by apply findIndex_object.
    + split; reflexivity.
  - intros patch i h k Hk. split; intros L.
    + destruct (update_all_keeps_property patch _ i h k L Hk) as (h' & L' & I' & K').
      eexists _, h'. split; [reflexivity|]. cbn. auto.
    + destruct (update_all_keeps_property patch _ i h k L Hk) as (h' & L' & I' & K').
      eexists _, h'. split; [reflexivity|]. cbn. auto.
Qed.

(** *** Reading a whole patch slot by slot *)

(** All records of a patch that carry a given id, merged in order. *)
Lemma fold_merge_unit (L : list record) (x : record) :
  fold_left spread_merge L x = fold_left spread_merge L ∅ ∪ x.
Proof.
  revert x. induction L as [|r L IH]; intros x; simpl.
  - by rewrite (left_id ∅ (∪)).
  - rewrite IH. rewrite (IH (spread_merge ∅ r)). unfold spread_merge.
    rewrite (right_id ∅ (∪)). by rewrite (assoc (∪)).
Qed.

Lemma fold_merge_twice (L : list record) (x : record) :
  fold_left spread_merge L (fold_left spread_merge L x) = fold_left spread_merge L x.
Proof.
  rewrite (fold_merge_unit L (fold_left _ _ _)). rewrite (fold_merge_unit L x).
  rewrite (assoc (∪)). by rewrite (idemp (∪)).
Qed.

Lemma rec_id_fold_merge (L : list record) (x : record) :
  Forall (fun r => rec_id r = rec_id x) L ->
  rec_id (fold_left spread_merge L x) = rec_id x.
Proof.
  revert x. induction L as [|r L IH]; intros x F; simpl; [reflexivity|].
  inversion F as [|? ? E F']; subst.
  assert (Em : rec_id (spread_merge x r) = rec_id x)
    by (apply rec_id_spread_merge; congruence).
  rewrite IH; [exact Em|].
  eapply Forall_impl; [exact F'|]. simpl. intros; congruence.
Qed.

Lemma primitive_ids_filter (P : list record) (p : record -> Prop)
    `{forall r, Decision (p r)} :
  primitive_ids P -> primitive_ids (filter p P).
Proof.
  unfold primitive_ids. rewrite !Forall_forall. intros F r Hr.
  apply list_elem_of_filter in Hr as [_ Hr]. by apply F.
Qed.

(** When the ids of the patch are compared by value, the first slot receives
    exactly the records of the patch with its id; the rest of the array sees
    the other records. *)
Lemma update_all_cons (s : record) (S : list record) (P : list record) :
  primitive_ids P ->
  update_all (s :: S) P =
  fold_left spread_merge (filter (fun r => rec_id r = rec_id s) P) s
    :: update_all S (filter (fun r => rec_id r <> rec_id s) P).
Proof.
  revert s S. induction P as [|r P IH]; intros s S HP; [reflexivity|].
  inversion HP as [|? ? Hr HP']; subst.
  unfold update_all in *. simpl fold_left. rewrite update_one_cons.
  destruct (identical (rec_id s) (rec_id r)) eqn:E.
  - apply identical_true in E as [E _]. rewrite IH by exact HP'.
    rewrite rec_id_spread_merge by exact E.
    rewrite filter_cons_True by congruence.
    rewrite (filter_cons_False (fun r0 => rec_id r0 <> rec_id s)) by (intros N; apply N; congruence).
    reflexivity.
  - apply identical_false in E; [|exact Hr]. rewrite IH by exact HP'.
    rewrite filter_cons_False by congruence.
    rewrite (filter_cons_True (fun r0 => rec_id r0 <> rec_id s)) by congruence.
    reflexivity.
Qed.

Lemma update_all_nil_cons (r : record) (P : list record) :
  primitive_ids P ->
  update_all [] (r :: P) =
  fold_left spread_merge (filter (fun r' => rec_id r' = rec_id r) P) r
    :: update_all [] (filter (fun r' => rec_id r' <> rec_id r) P).
Proof. intros HP. unfold update_all at 1. simpl. by apply update_all_cons. Qed.

Lemma filter_rec_id_Forall (k : option jsval) (P : list record) :
  Forall (fun r => rec_id r = k) (filter (fun r => rec_id r = k) P).
Proof. apply Forall_forall. intros r H. by apply list_elem_of_filter in H as [? _]. Qed.

Lemma union_absorb (p r : record) : p ∪ (r ∪ (p ∪ r)) = p ∪ r.
Proof.
  apply map_eq. intros k. rewrite !lookup_union.
  destruct (p !! k), (r !! k); reflexivity.
Qed.

Lemma update_all_idem_nil (n : nat) (P : list record) :
  primitive_ids P ->
  (length P <= n)%nat -> update_all (update_all [] P) P = update_all [] P.
Proof.
  revert P. induction n as [|n IH]; intros [|r P] HP Hn; simpl in Hn; try reflexivity; [lia|].
  assert (HP' : primitive_ids P) by (by inversion HP).
  rewrite update_all_nil_cons by exact HP'.
  set (Pk := filter (fun r' => rec_id r' = rec_id r) P).
  set (Pn := filter (fun r' => rec_id r' <> rec_id r) P).
  assert (Em : rec_id (fold_left spread_merge Pk r) = rec_id r)
    by (apply rec_id_fold_merge, filter_rec_id_Forall).
  rewrite update_all_cons by exact HP. rewrite Em.
  rewrite filter_cons_True by reflexivity.
  rewrite (filter_cons_False (fun r0 => rec_id r0 <> rec_id r)) by (intros N; by apply N).
  fold Pk Pn. f_equal.
  - change (fold_left spread_merge (r :: Pk) (fold_left spread_merge Pk r))
      with (fold_left spread_merge Pk (spread_merge (fold_left spread_merge Pk r) r)).
    rewrite (fold_merge_unit Pk r). rewrite (fold_merge_unit Pk (spread_merge _ _)).
    unfold spread_merge. apply union_absorb.
  - apply IH; [by apply primitive_ids_filter|].
    subst Pn. pose proof (length_filter (fun r' => rec_id r' <> rec_id r) P). lia.
Qed.

(** Applying a patch a second time changes nothing, when its ids are
    compared by value. *)
Lemma update_all_idem (S P : list record) :
  primitive_ids P -> update_all (update_all S P) P = update_all S P.
Proof.
  revert P. induction S as [|s S IH]; intros P HP.
  - by apply (update_all_idem_nil (length P)).
  - rewrite update_all_cons by exact HP.
    set (Pk := filter (fun r => rec_id r = rec_id s) P).
    assert (Em : rec_id (fold_left spread_merge Pk s) = rec_id s)
      by (apply rec_id_fold_merge, filter_rec_id_Forall).
    rewrite update_all_cons by exact HP. rewrite Em. fold Pk.
    rewrite fold_merge_twice. rewrite IH; [reflexivity|].
    by apply primitive_ids_filter.
Qed.

Lemma update_one_NoDup (arr : list record) (r : record) :
  is_primitive (rec_id r) = true ->
  NoDup (map rec_id arr) -> NoDup (map rec_id (update_one arr r)).
Proof.
  intros P N. rewrite ids_update_one.
  destruct (findIndex arr (rec_id r)) eqn:Fi.
  - by rewrite app_nil_r.
  - apply NoDup_app. repeat split; [exact N| |apply NoDup_singleton].
    intros k Hk Hk'. apply list_elem_of_singleton in Hk'. subst k.
    apply findIndex_None in Fi. apply list_elem_of_fmap in Hk as (h & E & Hh).
    rewrite Forall_forall in Fi. specialize (Fi h Hh).
    apply identical_false in Fi; [congruence | exact P].
Qed.

Lemma update_all_NoDup (arr patch : list record) :
  primitive_ids patch ->
  NoDup (map rec_id arr) -> NoDup (map rec_id (update_all arr patch)).
Proof.
  revert arr. induction patch as [|r patch IH]; intros arr HP N; [exact N|].
  inversion HP; subst. apply IH; [assumption|]. by apply update_one_NoDup.
Qed.

Lemma getLiveData_set (s : LiveStream) (d d' : LiveData) :
  getLiveData s = Some d -> getLiveData (set_liveData s (Some d')) = Some d'.
Proof.
  unfold getLiveData, set_liveData. destruct (liveData s) as [p|] eqn:E; [|discriminate].
  intros L. simpl. apply list_lookup_insert_eq. by eapply lookup_lt_Some.
Qed.

Lemma set_liveData_twice (s : LiveStream) (d d' : LiveData) :
  set_liveData (set_liveData s (Some d)) (Some d') = set_liveData s (Some d').
Proof.
  unfold set_liveData. destruct (liveData s) as [p|] eqn:E; simpl; [|by rewrite E].
  by rewrite list_insert_insert_eq.
Qed.

Lemma processLiveUpdateData_frame (s : LiveStream) (data : Payload) :
  processLiveUpdateData s data =
  match getLiveData s with
  | Some d => set_liveData s (Some (apply_frame data d))
  | None => s
  end.
Proof.
  unfold processLiveUpdateData, apply_frame.
  destruct (getLiveData s) as [d|] eqn:G.
  - destruct d as [sp hs bs ts at_ spt].
    destruct (liveHeaders data), (liveBets data); reflexivity.
  - assert (N : set_liveData s None = s)
      by (unfold set_liveData; destruct (liveData s); reflexivity).
    destruct (liveHeaders data), (liveBets data); exact N.
Qed.

Lemma apply_frame_idem (data : Payload) (d : LiveData) :
  primitive_ids (default [] (liveHeaders data)) ->
  primitive_ids (default [] (liveBets data)) ->
  apply_frame data (apply_frame data d) = apply_frame data d.
Proof.
  intros Hh Hb. unfold apply_frame. simpl.
  destruct (liveHeaders data), (liveBets data); cbn in Hh, Hb;
    by rewrite ?update_all_idem.
Qed.

Lemma processLiveUpdateData_idem (s : LiveStream) (data : Payload) :
  primitive_ids (default [] (liveHeaders data)) ->
  primitive_ids (default [] (liveBets data)) ->
  processLiveUpdateData (processLiveUpdateData s data) data
  = processLiveUpdateData s data.
Proof.
  intros Hh Hb. rewrite (processLiveUpdateData_frame s).
  destruct (getLiveData s) as [d|] eqn:G.
  - rewrite processLiveUpdateData_frame.
    rewrite (getLiveData_set s d _ G).
    rewrite set_liveData_twice. by rewrite apply_frame_idem.
  - rewrite processLiveUpdateData_frame. by rewrite G.
Qed.

(** C9, as stated, fails: a patch with one record whose id is the object
    [{"k":1}], received twice, leaves two records where one application
    leaves one. *)
Lemma object_id_patch_twice_adds_twice :
  let patch : list record := [ {[ "id" := JObj [("k", JNum 1)]; "ls" := JStr "HT" ]} ] in
  let store := Some (mkLiveData [] [] [] 5 0 football) in
  option_map (fun d => length (headers d)) (updateLiveHeaders store patch) = Some 1%nat /\
  option_map (fun d => length (headers d))
    (updateLiveHeaders (updateLiveHeaders store patch) patch) = Some 2%nat /\
  option_map (fun d => length (bets d)) (updateLiveBets store patch) = Some 1%nat /\
  option_map (fun d => length (bets d))
    (updateLiveBets (updateLiveBets store patch) patch) = Some 2%nat /\
  updateLiveHeaders (updateLiveHeaders store patch) patch <> updateLiveHeaders store patch /\
  updateLiveBets (updateLiveBets store patch) patch <> updateLiveBets store patch.
Proof.
  cbv zeta. do 4 (split; [vm_compute; reflexivity|]). split; intros E.
  - apply (f_equal (option_map (fun d => length (headers d)))) in E.
    vm_compute in E. discriminate.
  - apply (f_equal (option_map (fun d => length (bets d)))) in E.
    vm_compute in E. discriminate.
Qed.

(** C9, amended: a header patch, an odds patch, or a whole update frame
    whose records have ids that are compared by value ([undefined], [null],
    booleans, numbers, strings), applied a second time, leaves the store as
    the first application left it. *)
Theorem patch_twice_is_patch_once (store : option LiveData) (patch : list record)
    (s : LiveStream) (data : Payload) :
  primitive_ids patch ->
  primitive_ids (default [] (liveHeaders data)) ->
  primitive_ids (default [] (liveBets data)) ->
  updateLiveHeaders (updateLiveHeaders store patch) patch
    = updateLiveHeaders store patch /\
  updateLiveBets (updateLiveBets store patch) patch
    = updateLiveBets store patch /\
  processLiveUpdateData (processLiveUpdateData s data) data
    = processLiveUpdateData s data.
Proof.
  intros HP Hh Hb. split; [|split].
  - destruct store as [d|]; simpl; [|reflexivity]. by rewrite update_all_idem.
  - destruct store as [d|]; simpl; [|reflexivity]. by rewrite update_all_idem.
  - by apply processLiveUpdateData_idem.
Qed.

Lemma patch_twice_is_patch_once_witness :
  let patch : list record :=
    [ {[ "id" := JNum 1; "ls" := JStr "HT" ]}; {[ "id" := JNum 3 ]};
      {[ "id" := JNum 1; "h" := JStr "Home FC" ]} ] in
  let store := Some (mkLiveData [] [sample_header] [] 5 0 football) in
  let data := mkPayload None (Some patch) None in
  updateLiveHeaders (updateLiveHeaders store patch) patch
    = updateLiveHeaders store patch /\
  updateLiveBets (updateLiveBets store patch) patch
    = updateLiveBets store patch /\
  processLiveUpdateData (processLiveUpdateData sample_streaming data) data
    = processLiveUpdateData sample_streaming data.
Proof.
  apply (patch_twice_is_patch_once
           (Some (mkLiveData [] [sample_header] [] 5 0 football))
           [ {[ "id" := JNum 1; "ls" := JStr "HT" ]}; {[ "id" := JNum 3 ]};
             {[ "id" := JNum 1; "h" := JStr "Home FC" ]} ]
           sample_streaming
           (mkPayload None
              (Some [ {[ "id" := JNum 1; "ls" := JStr "HT" ]}; {[ "id" := JNum 3 ]};
                      {[ "id" := JNum 1; "h" := JStr "Home FC" ]} ]) None)).
  - repeat constructor.
  - repeat constructor.
  - constructor.
Defined.

(** C10, as stated, fails for ids that are not compared by value: the id of
    the incoming record, the array [[1]], is the id of the first stored
    record, and the incoming record goes to the end while the stored one
    stays as it was. *)
Lemma known_object_id_is_appended :
  let arr : list record :=
    [ {[ "id" := JArr [JNum 1]; "h" := JStr "Home FC" ]}; {[ "id" := JNum 2 ]} ] in
  let incoming : record := {[ "id" := JArr [JNum 1]; "ls" := JStr "HT" ]} in
  let result := update_all arr [incoming] in
  rec_id incoming ∈ map rec_id arr /\
  updateLiveHeaders (Some (mkLiveData [] arr [] 5 0 football)) [incoming]
  = Some (mkLiveData [] result [] 5 0 football) /\
  map rec_id result = [Some (JArr [JNum 1]); Some (JNum 2); Some (JArr [JNum 1])] /\
  map (fun h : record => (h !! "h", h !! "ls")) result
  = [ (Some (JStr "Home FC"), None); (None, None); (None, Some (JStr "HT")) ].
Proof.
  cbv zeta. split; [left|]. split; [reflexivity|].
  split; vm_compute; reflexivity.
Qed.

(** C10, amended: a patch never moves a record, ids being compared as [===]
    does.  After any patch every record that was in the collection is at its
    index with its id; the ids of the collection are the old ids followed by
    ids of records of the patch that no old record had; every record of the
    patch is in the collection under its id.  Record by record: a record
    whose id some record has is merged into the first such record, in its
    slot, every other slot and the length staying as they are; any other
    record, and so every record whose id is an array or an object, goes to
    the end. *)
Theorem patch_keeps_positions (d : LiveData) (arr patch pre post : list record)
    (r : record) :
  (forall i h, arr !! i = Some h ->
     exists h', update_all arr patch !! i = Some h' /\ rec_id h' = rec_id h) /\
  (exists added,
     map rec_id (update_all arr patch) = map rec_id arr ++ added /\
     Forall (fun k => (exists r', r' ∈ patch /\ rec_id r' = k) /\
                      Forall (fun h => identical (rec_id h) k = false) arr) added) /\
  (forall r', r' ∈ patch -> rec_id r' ∈ map rec_id (update_all arr patch)) /\
  update_all arr [] = arr /\
  (let cur := update_all arr pre in
   let next := update_all arr (pre ++ [r]) in
   update_all arr (pre ++ r :: post) = update_all next post /\
   (is_primitive (rec_id r) = false -> next = cur ++ [r]) /\
   match findIndex cur (rec_id r) with
   | Some i =>
       length next = length cur /\
       (exists h, cur !! i = Some h /\ identical (rec_id h) (rec_id r) = true /\
                  Forall (fun h' => identical (rec_id h') (rec_id r) = false) (take i cur) /\
                  next !! i = Some (spread_merge h r) /\
                  rec_id (spread_merge h r) = rec_id h) /\
       forall j, j <> i -> next !! j = cur !! j
   | None =>
       Forall (fun h => identical (rec_id h) (rec_id r) = false) cur /\
       next = cur ++ [r]
   end) /\
  (exists d', updateLiveHeaders (Some d) patch = Some d' /\
              headers d' = update_all (headers d) patch /\ bets d' = bets d) /\
  (exists d', updateLiveBets (Some d) patch = Some d' /\
              bets d' = update_all (bets d) patch /\ headers d' = headers d).
Proof.
  split; [intros i h; apply update_all_keeps_slot|].
  split; [apply ids_update_all|].
  split; [intros r'; apply update_all_holds_ids|].
  split; [reflexivity|].
  split; [|split; eexists; simpl; repeat split].
  cbv zeta. rewrite !update_all_app.
  change (update_all (update_all arr pre) (r :: post))
    with (update_all (update_one (update_all arr pre) r) post).
  change (update_all (update_all arr pre) [r])
    with (update_one (update_all arr pre) r).
  set (cur := update_all arr pre).
  split; [reflexivity|].
  split; [intros P; apply update_one_fresh; by apply findIndex_object|].
  destruct (findIndex cur (rec_id r)) as [i|] eqn:Fi.
  - destruct (findIndex_Some _ _ _ Fi) as (e & L & I & F).
    assert (U : update_one cur r = <[i := spread_merge e r]> cur)
      by (unfold update_one; by rewrite Fi, L).
    rewrite U. repeat split.
    + apply length_insert.
    + exists e. repeat split; auto.
      * apply list_lookup_insert_eq. by eapply lookup_lt_Some.
      * apply rec_id_spread_merge. by apply identical_true in I as [I _].
    + intros j Hj. by apply list_lookup_insert_ne.
  - split; [by apply findIndex_None | by apply update_one_fresh].
Qed.

(** A header patch that carries only the status leaves the home team as it
    was, in its slot; a header with a new id goes to the end. *)
Example status_patch_keeps_home_team :
  update_all
    [ {[ "id" := JNum 1; "h" := JStr "Home FC"; "ls" := JStr "RUNNING" ]};
      {[ "id" := JNum 2; "h" := JStr "Other FC" ]} ]
    [ {[ "id" := JNum 1; "ls" := JStr "HT" ]}; {[ "id" := JNum 3 ]} ]
  = [ {[ "id" := JNum 1; "h" := JStr "Home FC"; "ls" := JStr "HT" ]};
      {[ "id" := JNum 2; "h" := JStr "Other FC" ]};
      {[ "id" := JNum 3 ]} ].
Proof. vm_compute. reflexivity. Qed.

(** ** Uniqueness of ids *)

(** C2, as stated, fails on the bulk snapshot: two frames that carry a header
    with id 1, then the sentinel.  The snapshot resolves with both records. *)
Lemma snapshot_repeats_an_id :
  exists d,
    bulk_outcome sample_decode football
      (Streamed [sample_header_frame +:+ blank_line;
                 sample_header_frame +:+ blank_line +:+ "END 5" +:+ blank_line]
         FinEnd) 0 = Resolved d /\
    map rec_id (headers d) = [Some (JNum 1); Some (JNum 1)] /\
    ~ NoDup (map rec_id (headers d)).
Proof.
  eexists. split; [vm_compute; reflexivity|]. split; [reflexivity|].
  simpl. intros N. inversion N as [|? ? Hin _]; subst. apply Hin. left.
Qed.

(** C2, amended: a patch whose ids are compared by value keeps the ids of a
    collection distinct.  If the headers and the bets hold at most one record
    per id, they still do after a header patch and after an odds patch. *)
Theorem patch_keeps_ids_unique (d : LiveData) (newHeaders newBets : list record) :
  primitive_ids newHeaders ->
  primitive_ids newBets ->
  NoDup (map rec_id (headers d)) ->
  NoDup (map rec_id (bets d)) ->
  exists d1 d2,
    updateLiveHeaders (Some d) newHeaders = Some d1 /\
    updateLiveBets (Some d1) newBets = Some d2 /\
    NoDup (map rec_id (headers d1)) /\ NoDup (map rec_id (bets d1)) /\
    NoDup (map rec_id (headers d2)) /\ NoDup (map rec_id (bets d2)).
Proof.
  intros Ph Pb Nh Nb. eexists. eexists. split; [reflexivity|]. split; [reflexivity|].
  simpl. repeat split; auto using update_all_NoDup.
Qed.

Lemma patch_keeps_ids_unique_witness :
  exists d1 d2,
    updateLiveHeaders
      (Some (mkLiveData [] [sample_header] [] 5 0 football))
      [ {[ "id" := JNum 1; "ls" := JStr "HT" ]}; {[ "id" := JNum 2 ]} ] = Some d1 /\
    updateLiveBets (Some d1) [ {[ "id" := JNum 9 ]} ] = Some d2 /\
    NoDup (map rec_id (headers d1)) /\ NoDup (map rec_id (bets d1)) /\
    NoDup (map rec_id (headers d2)) /\ NoDup (map rec_id (bets d2)).
Proof.
  apply (patch_keeps_ids_unique (mkLiveData [] [sample_header] [] 5 0 football)).
  - repeat constructor.
  - repeat constructor.
  - simpl. apply NoDup_singleton.
  - simpl. apply NoDup_nil_2.
Defined.

(** ** Bulk snapshot and its watermark *)

Lemma string_rev_onto_twice (s a b : string) :
  string_rev_onto a (string_rev_onto b s) = string_rev_onto (s +:+ a) b.
Proof.
  revert a b. induction s as [|c s IH]; intros a b; [reflexivity|].
  change (string_rev_onto a (string_rev_onto (String c b) s)
          = string_rev_onto (String c (s +:+ a)) b).
  by rewrite IH.
Qed.

Lemma string_app_empty (s : string) : s +:+ "" = s.
Proof.
  induction s as [|c s IH]; [reflexivity|].
  change (String c (s +:+ "") = String c s). by rewrite IH.
Qed.

Lemma string_rev_involutive (s : string) : string_rev (string_rev s) = s.
Proof.
  unfold string_rev. rewrite string_rev_onto_twice. simpl. apply string_app_empty.
Qed.

(** A text that starts with a solid character loses nothing at the front. *)
Lemma strip_one_solid (c : ascii) (rest : string) :
  solid c = true -> strip_one js_whitespace (String c rest) = None.
Proof.
  destruct c as [[] [] [] [] [] [] [] []]; intros H;
    try discriminate H; reflexivity.
Qed.

Lemma strip_one_rev_solid (c : ascii) (rest : string) :
  solid c = true ->
  strip_one (map string_rev js_whitespace) (String c rest) = None.
Proof.
  destruct c as [[] [] [] [] [] [] [] []]; intros H;
    try discriminate H; reflexivity.
Qed.

Lemma trimStart_solid (c : ascii) (rest : string) :
  solid c = true -> trimStart (String c rest) = String c rest.
Proof.
  intros H. unfold trimStart. simpl String.length. cbn [strip_many].
  by rewrite strip_one_solid.
Qed.

Lemma string_rev_onto_last_solid (s acc : string) :
  last_solid s = true ->
  exists c r, string_rev_onto acc s = String c r /\ solid c = true.
Proof.
  revert acc. induction s as [|c s IH]; intros acc H; [discriminate|].
  destruct s as [|c' s'].
  - exists c, acc. split; [reflexivity | exact H].
  - apply (IH (String c acc)). exact H.
Qed.

Lemma trimEnd_solid (s : string) : last_solid s = true -> trimEnd s = s.
Proof.
  intros H. unfold trimEnd.
  destruct (string_rev_onto_last_solid s "" H) as (c & r & E & Hc).
  fold (string_rev s) in E. rewrite E.
  destruct s as [|c0 s0]; [discriminate|].
  simpl String.length. cbn [strip_many].
  rewrite strip_one_rev_solid by exact Hc.
  rewrite <- E. apply string_rev_involutive.
Qed.

Lemma trim_solid (c : ascii) (rest : string) :
  solid c = true -> last_solid (String c rest) = true ->
  trim (String c rest) = String c rest.
Proof.
  intros Hc Hl. unfold trim. rewrite trimStart_solid by exact Hc.
  by apply trimEnd_solid.
Qed.

Ltac digit_cases d H :=
  do 10 (destruct d as [|d]; [try reflexivity|]); [exfalso; lia].

Lemma digit_char_solid (d : nat) : (d < 10)%nat -> solid (digit_char d) = true.
Proof. intros H. digit_cases d H. Qed.

Lemma digit_value_digit_char (d : nat) :
  (d < 10)%nat -> digit_value 10 (digit_char d) = Some (Z.of_nat d).
Proof. intros H. digit_cases d H. Qed.

Lemma decimal_last_solid (d : nat) (ds : list nat) :
  Forall (fun d => (d < 10)%nat) (d :: ds) -> last_solid (decimal (d :: ds)) = true.
Proof.
  revert d. induction ds as [|d' ds IH]; intros d F.
  - inversion F; subst. simpl. by apply digit_char_solid.
  - inversion F; subst. change (last_solid (decimal (d' :: ds)) = true). by apply IH.
Qed.

Lemma parse_digits_decimal (ds : list nat) (acc : option Z) :
  Forall (fun d => (d < 10)%nat) ds ->
  parse_digits 10 acc (decimal ds) =
  match ds with
  | [] => acc
  | _ => Some (fold_left (fun a d => a * 10 + Z.of_nat d) ds (default 0 acc))
  end.
Proof.
  revert acc. induction ds as [|d ds IH]; intros acc F; [reflexivity|].
  inversion F; subst. cbn [decimal parse_digits].
  rewrite digit_value_digit_char by assumption.
  rewrite IH by assumption. destruct ds; reflexivity.
Qed.

Lemma decimal_not_hex (ds : list nat) :
  Forall (fun d => (d < 10)%nat) ds ->
  startsWith "0x" (decimal ds) || startsWith "0X" (decimal ds) = false.
Proof.
  intros F. destruct ds as [|d ds]; [reflexivity|].
  inversion F as [|? ? Hd F']; subst.
  destruct ds as [|d' ds].
  - digit_cases d Hd.
  - inversion F' as [|? ? Hd' _]; subst.
    destruct d as [|d].
    + digit_cases d' Hd'.
    + do 9 (destruct d as [|d]; [reflexivity|]). exfalso; lia.
Qed.

(** An integer below [2^53] is a double. *)
Lemma to_double_safe (n : Z) : Z.abs n < 2 ^ 53 -> to_double n = n.
Proof.
  intros H. unfold to_double, round_53.
  assert (E : (Z.log2 (Z.abs n) - 52 <=? 0) = true).
  { apply Z.leb_le. destruct (Z.eq_dec (Z.abs n) 0) as [->|N]; [cbn; lia|].
    assert (Z.log2 (Z.abs n) < 53) by (apply Z.log2_lt_pow2; lia). lia. }
  rewrite E.
  assert (I : (infinity <=? Z.abs n) = false).
  { apply Z.leb_gt. unfold infinity.
    assert (2 ^ 53 < 2 ^ 1024) by (apply Z.pow_lt_mono_r; lia). lia. }
  rewrite I. lia.
Qed.

Lemma round_53_pos (a : Z) : 0 < a -> 0 < round_53 a.
Proof.
  intros H. unfold round_53.
  destruct (Z.log2 a - 52 <=? 0) eqn:E; [exact H|].
  apply Z.leb_gt in E. set (e := Z.log2 a - 52) in *.
  assert (Hq : 0 < Z.shiftr a e).
  { rewrite Z.shiftr_div_pow2 by lia. apply Z.div_str_pos. split.
    - apply Z.pow_pos_nonneg; lia.
    - etransitivity; [|apply (proj1 (Z.log2_spec a H))].
      apply Z.pow_le_mono_r; lia. }
  rewrite Z.shiftl_mul_pow2 by lia.
  apply Z.mul_pos_pos; [|apply Z.pow_pos_nonneg; lia].
  destruct (_ || _); lia.
Qed.

(** Only zero is converted to zero. *)
Lemma to_double_nonzero (n : Z) : n <> 0 -> to_double n <> 0.
Proof.
  intros H. unfold to_double.
  assert (Hm : 0 < round_53 (Z.abs n)) by (apply round_53_pos; lia).
  assert (Hi : 0 < infinity) by (unfold infinity; apply Z.pow_pos_nonneg; lia).
  destruct (infinity <=? round_53 (Z.abs n)); nia.
Qed.

Lemma decimal_value_nonneg (ds : list nat) : 0 <= decimal_value ds.
Proof.
  unfold decimal_value.
  assert (G : forall acc, 0 <= acc ->
                0 <= fold_left (fun acc d => acc * 10 + Z.of_nat d) ds acc).
  { induction ds as [|d ds IH]; intros acc Hacc; cbn; [exact Hacc|].
    apply IH. lia. }
  by apply G.
Qed.

(** Reading a run of decimal digits gives the number they write, as a
    double. *)
Lemma parseInt_decimal (ds : list nat) :
  ds <> [] -> Forall (fun d => (d < 10)%nat) ds ->
  parseInt (decimal ds) = Num (to_double (decimal_value ds)).
Proof.
  intros Hne F. destruct ds as [|d ds]; [congruence|].
  assert (Hd : (d < 10)%nat) by (inversion F; assumption).
  unfold parseInt. cbn [decimal].
  rewrite trimStart_solid by (by apply digit_char_solid).
  assert (Hs : Ascii.eqb (digit_char d) "-" = false /\ Ascii.eqb (digit_char d) "+" = false).
  { clear F. split; digit_cases d Hd. }
  destruct Hs as [-> ->].
  change (String (digit_char d) (decimal ds)) with (decimal (d :: ds)).
  rewrite decimal_not_hex by exact F.
  rewrite parse_digits_decimal by exact F.
  unfold decimal_value. simpl default.
  do 2 f_equal. destruct (fold_left _ _ _); reflexivity.
Qed.

Lemma sentinel_unfold (ds : list nat) :
  sentinel ds = String "E" (String "N" (String "D" (String " " (decimal ds)))).
Proof. reflexivity. Qed.

Lemma sentinel_trim (ds : list nat) :
  ds <> [] -> Forall (fun d => (d < 10)%nat) ds ->
  trim (sentinel ds) = sentinel ds.
Proof.
  intros Hne F. rewrite sentinel_unfold. apply trim_solid; [reflexivity|].
  destruct ds as [|d ds]; [congruence|].
  change (last_solid (decimal (d :: ds)) = true). by apply decimal_last_solid.
Qed.

Lemma decimal_trim (ds : list nat) :
  ds <> [] -> Forall (fun d => (d < 10)%nat) ds ->
  trim (decimal ds) = decimal ds.
Proof.
  intros Hne F. destruct ds as [|d ds]; [congruence|].
  cbn [decimal]. apply trim_solid.
  - inversion F; subst. by apply digit_char_solid.
  - change (last_solid (decimal (d :: ds)) = true). by apply decimal_last_solid.
Qed.

Lemma sentinel_is_end_line (ds : list nat) :
  ds <> [] -> Forall (fun d => (d < 10)%nat) ds ->
  is_end_line (sentinel ds) = true.
Proof.
  intros Hne F. unfold is_end_line.
  assert (J : json_part (sentinel ds) = sentinel ds) by reflexivity.
  rewrite J, sentinel_trim by assumption. reflexivity.
Qed.

(** *** The frames are cut out of the decoded text *)

Lemma string_app_assoc (a b c : string) : (a +:+ b) +:+ c = a +:+ (b +:+ c).
Proof.
  induction a as [|x a IH]; [reflexivity|].
  change (String x ((a +:+ b) +:+ c) = String x (a +:+ (b +:+ c))). by rewrite IH.
Qed.

Lemma string_rev_onto_app (s acc : string) :
  string_rev_onto acc s = string_rev s +:+ acc.
Proof.
  revert acc. induction s as [|c s IH]; intros acc; [reflexivity|].
  unfold string_rev. cbn [string_rev_onto]. rewrite (IH (String c acc)), (IH (String c "")).
  by rewrite string_app_assoc.
Qed.

Lemma string_rev_cons (c : ascii) (s : string) :
  string_rev (String c s) = string_rev s +:+ String c "".
Proof. unfold string_rev at 1. cbn [string_rev_onto]. apply string_rev_onto_app. Qed.

Lemma string_rev_app (a b : string) :
  string_rev (a +:+ b) = string_rev b +:+ string_rev a.
Proof.
  induction a as [|c a IH].
  - change ("" +:+ b) with b. by rewrite string_app_empty.
  - change (String c a +:+ b) with (String c (a +:+ b)).
    rewrite !string_rev_cons, IH. by rewrite string_app_assoc.
Qed.

Lemma string_forall_impl (p q : ascii -> bool) (s : string) :
  (forall c, p c = true -> q c = true) ->
  string_forall p s = true -> string_forall q s = true.
Proof.
  intros H. induction s as [|c s IH]; [done|]. cbn.
  intros [Hc Hs]%andb_true_iff. by rewrite (H c Hc), IH.
Qed.

Lemma string_rev_of_onto (cur a : string) :
  string_rev (string_rev_onto cur a) = string_rev cur +:+ a.
Proof.
  unfold string_rev at 1. rewrite string_rev_onto_twice, string_app_empty.
  apply string_rev_onto_app.
Qed.

Lemma startsWith_length (p s : string) :
  startsWith p s = true -> (String.length p <= String.length s)%nat.
Proof.
  revert s. induction p as [|a p IH]; intros [|b s]; cbn; try discriminate; try lia.
  destruct (Ascii.eqb a b); [|discriminate]. intros H. apply IH in H. lia.
Qed.

Lemma startsWith_app (p s b : string) :
  (String.length p <= String.length s)%nat ->
  startsWith p (s +:+ b) = startsWith p s.
Proof.
  revert s. induction p as [|a p IH]; intros [|c s] H; cbn in H; try reflexivity; try lia.
  change (startsWith (String a p) (String c (s +:+ b)) = startsWith (String a p) (String c s)).
  cbn [startsWith]. destruct (Ascii.eqb a c); [|reflexivity]. apply IH. lia.
Qed.

Lemma split_go_nonempty (sep : string) (s : string) (skip : nat) (cur : string) :
  split_go sep skip cur s <> [].
Proof.
  revert skip cur. induction s as [|c s IH]; intros skip cur; cbn; [discriminate|].
  destruct skip; [|apply IH]. destruct (startsWith sep (String c s)); [discriminate | apply IH].
Qed.

Lemma split_go_short (sep : string) (s cur : string) :
  (String.length s < String.length sep)%nat ->
  split_go sep 0 cur s = [string_rev (string_rev_onto cur s)].
Proof.
  revert cur. induction s as [|c s IH]; intros cur H; [reflexivity|].
  cbn [split_go]. destruct (startsWith sep (String c s)) eqn:E.
  - apply startsWith_length in E. lia.
  - cbn [string_rev_onto]. apply IH. cbn in H. lia.
Qed.

Lemma removelast_cons_ne {A : Type} (x : A) (l : list A) :
  l <> [] -> removelast (x :: l) = x :: removelast l.
Proof. destruct l; [congruence | reflexivity]. Qed.

Lemma last_cons_ne {A : Type} (x d : A) (l : list A) :
  l <> [] -> List.last (x :: l) d = List.last l d.
Proof. destruct l; [congruence | reflexivity]. Qed.

Section Chunking.

Variable sep : string.

(** Scanning [a +:+ b] gives the pieces found in [a] but the last, and then
    what a new scan finds in that last piece followed by [b]. *)
Lemma split_go_app (a b : string) (skip : nat) (cur : string) :
  (skip = O ->
   split_go sep 0 "" (string_rev cur +:+ (a +:+ b)) = split_go sep 0 cur (a +:+ b)) ->
  (skip <> O -> cur = "" /\ (skip <= String.length a)%nat) ->
  split_go sep skip cur (a +:+ b) =
  removelast (split_go sep skip cur a)
    ++ split_go sep 0 "" (List.last (split_go sep skip cur a) "" +:+ b).
Proof.
  revert skip cur. induction a as [|c a IH]; intros skip cur H0 Hs.
  - destruct skip as [|k]; [|destruct (Hs ltac:(discriminate)) as [_ Hk]; cbn in Hk; lia].
    cbn [split_go removelast List.last app]. symmetry. exact (H0 eq_refl).
  - change (String c a +:+ b) with (String c (a +:+ b)) in *.
    destruct skip as [|k].
    + specialize (H0 eq_refl). cbn [split_go].
      destruct (startsWith sep (String c a)) eqn:Ea.
      * pose proof (startsWith_length _ _ Ea) as Hlen. cbn in Hlen.
        assert (Eab : startsWith sep (String c (a +:+ b)) = true).
        { change (String c (a +:+ b)) with (String c a +:+ b).
          rewrite startsWith_app by exact (startsWith_length _ _ Ea). exact Ea. }
        rewrite Eab.
        rewrite removelast_cons_ne by apply split_go_nonempty.
        rewrite last_cons_ne by apply split_go_nonempty.
        cbn [app]. f_equal. apply IH.
        -- intros _. reflexivity.
        -- intros _. split; [reflexivity | lia].
      * destruct (startsWith sep (String c (a +:+ b))) eqn:Eab.
        -- assert (Hshort : (String.length (String c a) < String.length sep)%nat).
           { destruct (Nat.lt_ge_cases (String.length (String c a)) (String.length sep))
               as [Hlt|Hge]; [exact Hlt|].
             change (String c (a +:+ b)) with (String c a +:+ b) in Eab.
             rewrite startsWith_app in Eab by exact Hge. congruence. }
           assert (Ealone : split_go sep 0 (String c cur) a
                            = [string_rev (string_rev_onto (String c cur) a)]).
           { apply split_go_short. cbn in Hshort. lia. }
           rewrite Ealone. cbn [removelast List.last app].
           change (string_rev_onto (String c cur) a) with (string_rev_onto cur (String c a)).
           rewrite string_rev_of_onto, string_app_assoc.
           change (String c a +:+ b) with (String c (a +:+ b)).
           rewrite H0. cbn [split_go]. by rewrite Eab.
        -- apply IH.
           ++ intros _. rewrite string_rev_cons, string_app_assoc.
              change (String c "" +:+ (a +:+ b)) with (String c (a +:+ b)).
              rewrite H0. cbn [split_go]. by rewrite Eab.
           ++ intros N. congruence.
    + cbn [split_go]. destruct (Hs ltac:(discriminate)) as [-> Hk]. cbn in Hk.
      apply IH.
      * intros _. reflexivity.
      * intros _. split; [reflexivity | lia].
Qed.

Lemma split_app (a b : string) :
  split sep (a +:+ b) =
  removelast (split sep a) ++ split sep (List.last (split sep a) "" +:+ b).
Proof. unfold split. apply split_go_app; [reflexivity | congruence]. Qed.

(** The last piece holds no separator. *)
Lemma split_last_piece (a : string) :
  split sep (List.last (split sep a) "") = [List.last (split sep a) ""].
Proof.
  pose proof (split_app a "") as H. rewrite !string_app_empty in H.
  assert (Hne : split sep a <> []) by apply split_go_nonempty.
  rewrite (app_removelast_last "" Hne) in H at 1.
  by apply app_inv_head in H.
Qed.

Lemma removelast_app_ne {A : Type} (l1 l2 : list A) :
  l2 <> [] -> removelast (l1 ++ l2) = l1 ++ removelast l2.
Proof.
  intros H. induction l1 as [|x l1 IH]; [reflexivity|].
  cbn [app]. rewrite removelast_cons_ne; [by rewrite IH|].
  destruct l1; [exact H | discriminate].
Qed.

End Chunking.

Lemma frames_from_buffer (chunks : list string) (buffer : string) :
  split blank_line buffer = [buffer] ->
  frames_from buffer chunks =
  removelast (split blank_line
                (buffer +:+ fold_right String.append "" (map buffer_toString chunks))).
Proof.
  revert buffer. induction chunks as [|c chunks IH]; intros buffer Hb.
  - cbn [map fold_right frames_from]. rewrite string_app_empty, Hb. reflexivity.
  - cbn [map fold_right frames_from]. rewrite <- string_app_assoc.
    rewrite (split_app blank_line (buffer +:+ buffer_toString c)).
    rewrite removelast_app_ne by apply split_go_nonempty.
    f_equal. apply IH. apply split_last_piece.
Qed.

(** The frames of a run of chunks are the pieces between blank lines of the
    text the chunks are read as, one after the other; the text after the last
    blank line is left out. *)
Lemma frames_of_whole_text (chunks : list string) :
  frames_from "" chunks =
  removelast (split blank_line
                (fold_right String.append "" (map buffer_toString chunks))).
Proof.
  rewrite (frames_from_buffer chunks ""); reflexivity.
Qed.

Section BulkSnapshot.

Variable decode : string -> option Payload.

Lemma process_line_end (a : Accum) (line : string) :
  is_end_line line = true ->
  process_line decode a line =
  mkAccum (accSports a) (accHeaders a) (accBets a)
    (Some (parseInt (trim (replace_first "END " "" (json_part line))))).
Proof.
  unfold is_end_line, process_line. intros H.
  apply andb_prop in H as [H H3]. apply andb_prop in H as [H1 H2].
  apply negb_true_iff in H1, H2. by rewrite H1, H2, H3.
Qed.

Lemma process_line_other (a : Accum) (line : string) :
  is_end_line line = false ->
  endTimestamp (process_line decode a line) = endTimestamp a.
Proof.
  unfold is_end_line, process_line. intros H.
  destruct (String.eqb (trim line) ""); [reflexivity|].
  destruct (String.eqb (trim (json_part line)) ""); [reflexivity|].
  cbn [negb andb] in H. rewrite H. destruct (decode (json_part line)); reflexivity.
Qed.

Lemma process_lines_no_end (a : Accum) (ls : list string) :
  Forall (fun l => is_end_line l = false) ls ->
  endTimestamp (fold_left (process_line decode) ls a) = endTimestamp a.
Proof.
  revert a. induction ls as [|l ls IH]; intros a F; [reflexivity|].
  inversion F; subst. simpl. rewrite IH by assumption.
  by apply process_line_other.
Qed.

(** The [data] handler, chunk after chunk, hands the frames on in order. *)
Lemma on_data_frames (chunks : list string) (buffer : string) (a : Accum) :
  snd (fold_left (on_data decode) chunks (buffer, a)) =
  fold_left (process_line decode) (frames_from buffer chunks) a.
Proof.
  revert buffer a. induction chunks as [|c chunks IH]; intros buffer a; [reflexivity|].
  cbn [fold_left frames_from]. unfold on_data at 2. cbn [fst snd].
  rewrite IH. by rewrite fold_left_app.
Qed.

Lemma sentinel_sets_watermark (a : Accum) (ds : list nat) :
  ds <> [] -> Forall (fun d => (d < 10)%nat) ds ->
  endTimestamp (process_line decode a (sentinel ds))
  = Some (Num (to_double (decimal_value ds))).
Proof.
  intros Hne F. rewrite process_line_end by (by apply sentinel_is_end_line).
  cbn [endTimestamp].
  assert (R : replace_first "END " "" (json_part (sentinel ds)) = decimal ds)
    by reflexivity.
  rewrite R, decimal_trim, parseInt_decimal by assumption. reflexivity.
Qed.

(** C3, amended.  The frames are the pieces between blank lines of the text
    the chunks are read as.  When the stream of the bulk fetch ends: if the
    last frame read as an END line is the sentinel [END <digits>] and the
    digits write a number that is not zero, the promise resolves with a
    snapshot whose [lastTimestamp] is that number as [parseInt] reads it, the
    number itself below [2^53] and the nearest double from there on, and the
    service keeps it as its watermark and the snapshot as its live data; if
    no frame was read as an END line, the promise is rejected with the error
    "No END timestamp received from live events stream". *)
Theorem bulk_fetch_watermark (s : LiveStream) (sp : Sport) (chunks : list string)
    (now : Z) :
  frames_from "" chunks
    = removelast (split blank_line
                    (fold_right String.append "" (map buffer_toString chunks))) /\
  (forall (before after : list string) (ds : list nat),
     frames_from "" chunks = before ++ sentinel ds :: after ->
     ds <> [] -> Forall (fun d => (d < 10)%nat) ds ->
     decimal_value ds <> 0 ->
     Forall (fun l => is_end_line l = false) after ->
     exists s' d,
       initializeLiveEvents decode s sp (Streamed chunks FinEnd) now
         = (s', Resolved d) /\
       lastTimestamp d = to_double (decimal_value ds) /\
       (decimal_value ds < 2 ^ 53 -> lastTimestamp d = decimal_value ds) /\
       lastTimestamp d <> 0 /\
       currentTimestamp s' = Some (lastTimestamp d) /\
       getLiveData s' = Some d) /\
  (Forall (fun l => is_end_line l = false) (frames_from "" chunks) ->
   exists s',
     initializeLiveEvents decode s sp (Streamed chunks FinEnd) now
       = (s', Rejected NoEndTimestamp) /\
     failure_message NoEndTimestamp
       = "No END timestamp received from live events stream" /\
     currentTimestamp s' = currentTimestamp s /\ liveData s' = liveData s).
Proof.
  split; [apply frames_of_whole_text|]. split.
  - intros before after ds Hf Hne F Hnz Hafter.
    assert (E : endTimestamp (snd (fold_left (on_data decode) chunks ("", accum0)))
                = Some (Num (to_double (decimal_value ds)))).
    { rewrite on_data_frames, Hf, fold_left_app. cbn [fold_left].
      rewrite process_lines_no_end by exact Hafter.
      by apply sentinel_sets_watermark. }
    pose proof (decimal_value_nonneg ds) as Hge.
    pose proof (to_double_nonzero _ Hnz) as Hnz'.
    unfold initializeLiveEvents, bulk_outcome, on_end. rewrite E.
    cbn [truthy_num]. apply Z.eqb_neq in Hnz'. rewrite Hnz'.
    eexists. eexists. split; [reflexivity|]. cbn [lastTimestamp currentTimestamp].
    split; [reflexivity|]. split; [intros Hlt; apply to_double_safe; lia|].
    split; [by apply Z.eqb_neq|]. split; [reflexivity|].
    unfold getLiveData. cbn.
    rewrite lookup_app_r by lia. by rewrite Nat.sub_diag.
  - intros F.
    assert (E : endTimestamp (snd (fold_left (on_data decode) chunks ("", accum0)))
                = None).
    { rewrite on_data_frames. by rewrite process_lines_no_end. }
    unfold initializeLiveEvents, bulk_outcome, on_end. rewrite E. cbn.
    eexists. repeat split.
Qed.

End BulkSnapshot.

(** C3, as stated, fails: the well-formed sentinel [END 0] is received and
    the promise is rejected as if none had been; of two sentinels the later
    one gives the watermark; after a sentinel the promise still waits for
    the stream to end, so it is rejected when the stream fails and stays
    unsettled while the stream stays open; and the sentinel
    [END 9007199254740993] gives the watermark 9007199254740992, the nearest
    double. *)
Lemma sentinel_zero_is_rejected :
  frames_from "" ["END 0" +:+ blank_line] = [sentinel [0%nat]] /\
  bulk_outcome sample_decode football (Streamed ["END 0" +:+ blank_line] FinEnd) 0
    = Rejected NoEndTimestamp /\
  frames_from "" ["END 5" +:+ blank_line +:+ "END 7" +:+ blank_line]
    = [sentinel [5%nat]; sentinel [7%nat]] /\
  bulk_outcome sample_decode football
    (Streamed ["END 5" +:+ blank_line +:+ "END 7" +:+ blank_line] FinEnd) 0
    = Resolved (mkLiveData [] [] [] 7 0 football) /\
  bulk_outcome sample_decode football
    (Streamed ["END 5" +:+ blank_line] (FinError false)) 0
    = Rejected StreamFailure /\
  bulk_outcome sample_decode football
    (Streamed ["END 5" +:+ blank_line] FinOpen) 0 = Pending /\
  bulk_outcome sample_decode football
    (Streamed ["END 9007199254740993" +:+ blank_line] FinEnd) 0
    = Resolved (mkLiveData [] [] [] 9007199254740992 0 football).
Proof. vm_compute. repeat split. Qed.

Lemma bulk_fetch_watermark_witness :
  (exists s' d,
     initializeLiveEvents sample_decode liveStream0 football
       (Streamed ["END 17" +:+ LF; LF +:+ "x"] FinEnd) 3 = (s', Resolved d) /\
     lastTimestamp d = to_double 17 /\
     (17 < 2 ^ 53 -> lastTimestamp d = 17) /\
     lastTimestamp d <> 0 /\
     currentTimestamp s' = Some (lastTimestamp d) /\
     getLiveData s' = Some d) /\
  (exists s',
     initializeLiveEvents sample_decode liveStream0 football
       (Streamed ["ping" +:+ blank_line] FinEnd) 3 = (s', Rejected NoEndTimestamp) /\
     failure_message NoEndTimestamp
       = "No END timestamp received from live events stream" /\
     currentTimestamp s' = None /\ liveData s' = None).
Proof.
  split.
  - apply (proj1 (proj2 (bulk_fetch_watermark sample_decode liveStream0 football
                           ["END 17" +:+ LF; LF +:+ "x"] 3)) [] [] [1; 7]%nat).
    + vm_compute. reflexivity.
    + discriminate.
    + repeat constructor; lia.
    + vm_compute. discriminate.
    + constructor.
  - apply (proj2 (proj2 (bulk_fetch_watermark sample_decode liveStream0 football
                           ["ping" +:+ blank_line] 3))).
    vm_compute. repeat constructor.
Defined.

(** ** The Subscription Loop *)

Lemma set_liveData_keeps (s : LiveStream) (d : option LiveData) :
  let s' := set_liveData s d in
  isStreaming s' = isStreaming s /\ shouldStream s' = shouldStream s /\
  currentTimestamp s' = currentTimestamp s /\ timers s' = timers s /\
  streams s' = streams s /\ attempts s' = attempts s /\
  liveData s' = liveData s.
Proof.
  cbv zeta. unfold set_liveData.
  destruct (liveData s) as [p|] eqn:E, d as [d'|]; cbn; rewrite ?E; repeat split.
Qed.

Section SubscriptionLoop.

Variable decode : string -> option Payload.

Lemma initializeLiveEvents_timestamp (s : LiveStream) sp resp now :
  timestamp_set s = true ->
  timestamp_set (fst (initializeLiveEvents decode s sp resp now)) = true.
Proof.
  intros H. unfold initializeLiveEvents.
  destruct (bulk_outcome decode sp resp now) as [d| |] eqn:E; cbn; try exact H.
  unfold bulk_outcome in E. destruct resp as [[]|chunks fin]; try discriminate.
  destruct fin as [|[]|]; try discriminate. unfold on_end in E.
  destruct (truthy_num _) as [ts|] eqn:T; [|discriminate].
  injection E as <-. cbn. unfold timestamp_set. cbn.
  unfold truthy_num in T. destruct (endTimestamp _) as [[|n]|]; try discriminate.
  destruct (n =? 0) eqn:N; [discriminate|]. injection T as <-. by rewrite N.
Qed.

Lemma initializeLiveEvents_loop (s : LiveStream) sp resp now :
  let s' := fst (initializeLiveEvents decode s sp resp now) in
  streams s' = streams s /\ timers s' = timers s /\
  attempts s' = attempts s /\ shouldStream s' = shouldStream s /\
  isStreaming s' = isStreaming s.
Proof.
  unfold initializeLiveEvents.
  destruct (bulk_outcome decode sp resp now); cbn; repeat split.
Qed.

Lemma initializeLiveEvents_armed (s : LiveStream) sp resp now :
  armed s -> armed (fst (initializeLiveEvents decode s sp resp now)).
Proof.
  intros [H|[H1 H2]].
  - left. by apply initializeLiveEvents_timestamp.
  - right. destruct (initializeLiveEvents_loop s sp resp now) as (E1 & E2 & _).
    rewrite E1, E2. by split.
Qed.

Lemma subscribe_timestamp (s : LiveStream) (c : ConnResult) :
  currentTimestamp (fst (subscribeToLiveUpdates s c)) = currentTimestamp s.
Proof.
  unfold subscribeToLiveUpdates. destruct (timestamp_set s); [|reflexivity].
  destruct c; reflexivity.
Qed.

Lemma subscribe_attempts (s : LiveStream) (c : ConnResult) :
  attempts (fst (subscribeToLiveUpdates s c)) =
  if timestamp_set s then S (attempts s) else attempts s.
Proof.
  unfold subscribeToLiveUpdates. destruct (timestamp_set s); [|reflexivity].
  destruct c; reflexivity.
Qed.

Lemma step_armed (s : LiveStream) (e : Event) : armed s -> armed (step decode s e).
Proof.
  intros A. destruct e as [sp resp now|c| | |abort|i c|data|hs]; cbn [step];
    cycle 7.
  { destruct (set_liveData_keeps s (option_map (fun d => with_headers d hs) (getLiveData s)))
      as (_ & _ & E3 & E4 & E5 & _).
    unfold armed, timestamp_set in *. by rewrite E3, E4, E5. }
  - by apply initializeLiveEvents_armed.
  - unfold startLiveSubscription.
    destruct (timestamp_set s) eqn:T; cbn [negb]; [|exact A].
    destruct (isStreaming s); [exact A|].
    destruct (subscribeToLiveUpdates _ c) as [s2 thrown] eqn:E. cbn [fst].
    left. unfold timestamp_set.
    replace s2 with (fst (subscribeToLiveUpdates
      (mkLiveStream true true (currentTimestamp s) (liveData s)
         (abortController s) (objects s) (timers s) (streams s) (attempts s)) c))
      by (by rewrite E).
    rewrite subscribe_timestamp. exact T.
  - destruct A as [T|[S0 T0]]; [left; exact T | right; by split].
  - unfold on_stream_end. destruct (streams s) as [|k] eqn:St; [exact A|].
    destruct A as [T|[S0 _]]; [left; exact T | congruence].
  - unfold on_stream_error. destruct (streams s) as [|k] eqn:St; [exact A|].
    destruct A as [T|[S0 _]]; [|congruence].
    destruct abort; left; exact T.
  - unfold fire_timer. destruct (timers s !! i) as [b|] eqn:L; [|exact A].
    destruct A as [T|[_ T0]]; [|rewrite T0 in L; discriminate].
    cbn [shouldStream]. destruct (shouldStream s); [|left; exact T].
    left. unfold timestamp_set. destruct b; rewrite subscribe_timestamp; exact T.
  - destruct (streams s) as [|k] eqn:St; [exact A|].
    destruct A as [T|[S0 _]]; [|congruence].
    left. rewrite processLiveUpdateData_frame.
    destruct (getLiveData s); [|exact T].
    unfold set_liveData. destruct (liveData s); exact T.
Qed.

Lemma reachable_armed (s : LiveStream) : reachable decode s -> armed s.
Proof.
  intros [evs ->]. unfold run.
  assert (G : forall s0, armed s0 -> armed (fold_left (step decode) evs s0)).
  { induction evs as [|e evs IH]; intros s0 A; [exact A|].
    simpl. apply IH. by apply step_armed. }
  apply G. right. split; reflexivity.
Qed.

(** After a stop, and until the next start, the flag stays down and no
    subscription request is made. *)
Lemma stopped_step (s : LiveStream) (e : Event) :
  is_start e = false -> shouldStream s = false ->
  shouldStream (step decode s e) = false /\
  attempts (step decode s e) = attempts s.
Proof.
  intros Hs H. destruct e as [sp resp now|c| | |abort|i c|data|hs]; cbn [step];
    try discriminate Hs; cycle 6.
  { destruct (set_liveData_keeps s (option_map (fun d => with_headers d hs) (getLiveData s)))
      as (_ & E2 & _ & _ & _ & E6 & _).
    by rewrite E2, E6. }
  - destruct (initializeLiveEvents_loop s sp resp now) as (_ & _ & E3 & E4 & _).
    by rewrite E3, E4.
  - split; reflexivity.
  - unfold on_stream_end. destruct (streams s); by split.
  - unfold on_stream_error. destruct (streams s); [by split|].
    destruct abort; by split.
  - unfold fire_timer. destruct (timers s !! i); [|by split].
    cbn [shouldStream]. rewrite H. by split.
  - destruct (streams s); [by split|]. rewrite processLiveUpdateData_frame.
    destruct (getLiveData s); [|by split].
    unfold set_liveData. destruct (liveData s); by split.
Qed.

Lemma stopped_run (evs : list Event) (s : LiveStream) :
  forallb (fun e => negb (is_start e)) evs = true -> shouldStream s = false ->
  shouldStream (run decode s evs) = false /\
  attempts (run decode s evs) = attempts s.
Proof.
  revert s. induction evs as [|e evs IH]; intros s F H; [by split|].
  cbn [forallb] in F. apply andb_prop in F as [Fe F].
  apply negb_true_iff in Fe.
  destruct (stopped_step s e Fe H) as [H1 H2].
  unfold run in *. cbn [fold_left]. destruct (IH _ F H1) as [H3 H4].
  split; [exact H3 | congruence].
Qed.

(** C4, amended: when a subscription stream ends, the short backoff timer is
    set and no request is made yet; when that timer fires while [shouldStream]
    is up, one subscription request is made.  After [stopLiveSubscription],
    whatever happens short of a new [startLiveSubscription] (timers of either
    kind firing, streams ending or failing), the flag stays down and no
    subscription request is made. *)
Theorem reconnect_unless_stopped (s : LiveStream) (evs : list Event) :
  (reachable decode s -> (0 < streams s)%nat ->
   let s1 := step decode s EvStreamEnd in
   timers s1 = timers s ++ [AfterEnd] /\ backoff_ms AfterEnd = 1000 /\
   attempts s1 = attempts s /\ shouldStream s1 = shouldStream s) /\
  (reachable decode s ->
   forall i c, timers s !! i = Some AfterEnd -> shouldStream s = true ->
     attempts (step decode s (EvTimer i c)) = S (attempts s) /\
     timers (step decode s (EvTimer i c)) = delete i (timers s)) /\
  (forallb (fun e => negb (is_start e)) evs = true ->
   let stopped := step decode s EvStop in
   shouldStream stopped = false /\
   shouldStream (run decode stopped evs) = false /\
   attempts (run decode stopped evs) = attempts s /\
   forall i c, attempts (step decode (run decode stopped evs) (EvTimer i c))
               = attempts s).
Proof.
  repeat split.
  - cbn [step]. unfold on_stream_end. destruct (streams s); [lia | reflexivity].
  - cbn [step]. unfold on_stream_end. destruct (streams s); reflexivity.
  - cbn [step]. unfold on_stream_end. destruct (streams s); reflexivity.
  - destruct (reachable_armed s H) as [T|[_ T0]]; [|rewrite T0 in H0; discriminate].
    cbn [step]. unfold fire_timer. rewrite H0. cbn [shouldStream]. rewrite H1.
    rewrite subscribe_attempts. unfold timestamp_set in *. cbn. by rewrite T.
  - destruct (reachable_armed s H) as [T|[_ T0]]; [|rewrite T0 in H0; discriminate].
    cbn [step]. unfold fire_timer. rewrite H0. cbn [shouldStream]. rewrite H1.
    unfold subscribeToLiveUpdates, timestamp_set in *. cbn. rewrite T.
    destruct c; reflexivity.
  - by apply (stopped_run evs (step decode s EvStop)).
  - by apply (stopped_run evs (step decode s EvStop)).
  - intros i c.
    destruct (stopped_run evs (step decode s EvStop) H eq_refl) as [H1 H2].
    destruct (stopped_step (run decode (step decode s EvStop) evs) (EvTimer i c)
                eq_refl H1) as [_ H3].
    rewrite H3, H2. reflexivity.
Qed.

End SubscriptionLoop.

Lemma sample_streaming_reachable (evs : list Event) :
  reachable sample_decode (run sample_decode sample_streaming evs).
Proof.
  exists (sample_events ++ evs). unfold sample_streaming, run.
  by rewrite fold_left_app.
Qed.

(** C4, as stated, fails: the stream ends and the short timer is pending; the
    subscription is stopped and started again; the old timer then fires with
    the flag up and requests the subscription once more. *)
Lemma restart_rearms_pending_timer :
  let s1 := run sample_decode sample_streaming [EvStreamEnd; EvStop] in
  let s2 := step sample_decode s1 (EvStart ConnOpen) in
  timers s1 = [AfterEnd] /\ shouldStream s1 = false /\
  timers s2 = [AfterEnd] /\ shouldStream s2 = true /\ attempts s2 = 2%nat /\
  attempts (step sample_decode s2 (EvTimer 0 ConnOpen)) = 3%nat.
Proof. vm_compute. repeat split. Qed.

Lemma reconnect_unless_stopped_witness :
  (let s1 := step sample_decode sample_streaming EvStreamEnd in
   timers s1 = timers sample_streaming ++ [AfterEnd] /\ backoff_ms AfterEnd = 1000 /\
   attempts s1 = attempts sample_streaming /\
   shouldStream s1 = shouldStream sample_streaming) /\
  (attempts (step sample_decode (step sample_decode sample_streaming EvStreamEnd)
               (EvTimer 0 ConnOpen)) = 2%nat /\
   timers (step sample_decode (step sample_decode sample_streaming EvStreamEnd)
             (EvTimer 0 ConnOpen)) = []) /\
  (let stopped := step sample_decode (step sample_decode sample_streaming EvStreamEnd) EvStop in
   let evs := [EvTimer 0 ConnOpen; EvStreamError false; EvTimer 0 ConnOpen] in
   shouldStream stopped = false /\
   shouldStream (run sample_decode stopped evs) = false /\
   attempts (run sample_decode stopped evs) = 1%nat /\
   forall i c, attempts (step sample_decode (run sample_decode stopped evs) (EvTimer i c))
               = 1%nat).
Proof.
  split; [|split].
  - apply (proj1 (reconnect_unless_stopped sample_decode sample_streaming [])).
    + apply (sample_streaming_reachable []).
    + vm_compute. lia.
  - apply (proj1 (proj2 (reconnect_unless_stopped sample_decode
                           (step sample_decode sample_streaming EvStreamEnd) []))).
    + apply (sample_streaming_reachable [EvStreamEnd]).
    + reflexivity.
    + reflexivity.
  - apply (proj2 (proj2 (reconnect_unless_stopped sample_decode
                           (step sample_decode sample_streaming EvStreamEnd)
                           [EvTimer 0 ConnOpen; EvStreamError false; EvTimer 0 ConnOpen]))).
    reflexivity.
Defined.

(** ** Grouping of scheduled picks *)

Section Grouping.

Variables (ps : list EnhancedBetPick) (sportCode : string) (matchId : Z).

Local Abbreviation key := (pick_key ps sportCode).
Local Abbreviation F := (add_bet ps sportCode matchId).
Local Abbreviation pick := (string * PreGameBet)%type.

Lemma add_bet_parts (R : list (string * EnhancedPreGameBet)) (p : pick) :
  F R p =
  if map_has R (key p) then map_alter (push_odd (pick_odd ps sportCode p)) R (key p)
  else R ++ [(key p, seed_bet ps sportCode matchId p)].
Proof. destruct p as [betKey bet]. reflexivity. Qed.

Lemma add_bet_cons (k : string) (b : EnhancedPreGameBet)
    (R : list (string * EnhancedPreGameBet)) (p : pick) :
  F ((k, b) :: R) p =
  if String.eqb k (key p) then (k, push_odd (pick_odd ps sportCode p) b) :: R
  else (k, b) :: F R p.
Proof.
  rewrite !add_bet_parts. cbn [map_has map_alter].
  destruct (String.eqb k (key p)); cbn [orb]; [reflexivity|].
  destruct (map_has R (key p)); reflexivity.
Qed.

Lemma fold_add_bet_cons (L : list pick) (k : string) (b : EnhancedPreGameBet)
    (R : list (string * EnhancedPreGameBet)) :
  fold_left F L ((k, b) :: R) =
  (k, push_picks ps sportCode b (filter (fun p => key p = k) L))
    :: fold_left F (filter (fun p => key p <> k) L) R.
Proof.
  revert b R. induction L as [|p L IH]; intros b R; [reflexivity|].
  cbn [fold_left]. rewrite add_bet_cons.
  destruct (String.eqb k (key p)) eqn:E.
  - apply String.eqb_eq in E. rewrite IH.
    rewrite filter_cons_True by congruence.
    rewrite (filter_cons_False (fun p0 => key p0 <> k)) by (intros N; apply N; congruence).
    reflexivity.
  - apply String.eqb_neq in E. rewrite IH.
    rewrite filter_cons_False by congruence.
    rewrite (filter_cons_True (fun p0 => key p0 <> k)) by congruence.
    reflexivity.
Qed.

Lemma fold_add_bet_nil (p : pick) (L : list pick) :
  fold_left F (p :: L) [] =
  (key p, push_picks ps sportCode (seed_bet ps sportCode matchId p)
            (filter (fun q => key q = key p) L))
    :: fold_left F (filter (fun q => key q <> key p) L) [].
Proof.
  cbn [fold_left]. rewrite add_bet_parts. cbn [map_has app].
  apply fold_add_bet_cons.
Qed.

(** The records of a match, read group by group. *)
Lemma grouped_by_key (n : nat) (L : list pick) :
  (length L <= n)%nat ->
  let R := fold_left F L [] in
  NoDup (map fst R) /\
  (forall p, p ∈ L -> key p ∈ map fst R) /\
  (forall k b, (k, b) ∈ R ->
     exists p0 later,
       filter (fun p => key p = k) L = p0 :: later /\
       b = push_picks ps sportCode (seed_bet ps sportCode matchId p0) later).
Proof.
  revert L. induction n as [|n IH]; intros [|p L] Hn; simpl in Hn; try lia.
  - cbn. repeat split; [constructor | intros p H; inversion H | intros k b H; inversion H].
  - cbn. repeat split; [constructor | intros p H; inversion H | intros k b H; inversion H].
  - intros R. subst R. rewrite fold_add_bet_nil.
    set (Ln := filter (fun q => key q <> key p) L).
    assert (Hlen : (length Ln <= n)%nat).
    { subst Ln. pose proof (length_filter (fun q => key q <> key p) L). lia. }
    destruct (IH Ln Hlen) as (ND & Hin & Hrec).
    assert (Hfresh : forall k b, (k, b) ∈ fold_left F Ln [] -> k <> key p).
    { intros k b Hkb. destruct (Hrec k b Hkb) as (p0 & later & Ef & _).
      assert (Hp0 : p0 ∈ filter (fun p1 => key p1 = k) Ln) by (rewrite Ef; left).
      apply list_elem_of_filter in Hp0 as [Hk Hp0].
      subst Ln. apply list_elem_of_filter in Hp0 as [Hne _]. congruence. }
    cbn [map fst]. repeat split.
    + apply NoDup_cons. split; [|exact ND].
      intros Hk. apply list_elem_of_fmap in Hk as ([k b] & Ek & Hkb).
      cbn in Ek. subst k. by apply (Hfresh _ _ Hkb).
    + intros q Hq. apply elem_of_cons in Hq as [->|Hq]; [left|].
      destruct (decide (key q = key p)) as [E|N]; [rewrite E; left|].
      right. apply Hin. subst Ln. apply list_elem_of_filter. by split.
    + intros k b Hkb. apply elem_of_cons in Hkb as [Hkb|Hkb].
      * injection Hkb as -> ->. eexists. eexists.
        rewrite filter_cons_True by reflexivity. split; reflexivity.
      * destruct (Hrec k b Hkb) as (p0 & later & Ef & Eb).
        exists p0, later. split; [|exact Eb].
        pose proof (Hfresh k b Hkb) as Hk.
        rewrite filter_cons_False by congruence.
        rewrite <- Ef. subst Ln. symmetry.
        apply list_filter_filter_l. intros x Hx. congruence.
Qed.

Lemma push_picks_fields (b : EnhancedPreGameBet) (later : list pick) :
  let b' := push_picks ps sportCode b later in
  epb_odds b' = epb_odds b ++ map (pick_odd ps sportCode) later /\
  epb_id b' = epb_id b /\ epb_betCode b' = epb_betCode b /\
  epb_status b' = epb_status b /\ epb_specialValue b' = epb_specialValue b.
Proof.
  revert b. induction later as [|p later IH]; intros b.
  - cbn. by rewrite app_nil_r.
  - cbn [push_picks fold_left map]. destruct (IH (push_odd (pick_odd ps sportCode p) b))
      as (E1 & E2 & E3 & E4 & E5).
    unfold push_picks in *. rewrite E1, E2, E3, E4, E5. cbn.
    by rewrite <- app_assoc.
Qed.

End Grouping.

Lemma string_app_inj_r (a x y : string) : a +:+ x = a +:+ y -> x = y.
Proof.
  induction a as [|c a IH]; intros H; [exact H|].
  change (String c (a +:+ x) = String c (a +:+ y)) in H.
  injection H as H. by apply IH.
Qed.

Lemma string_app_inj_l (x y a : string) : x +:+ a = y +:+ a -> x = y.
Proof.
  intros H. apply (f_equal string_rev) in H. rewrite !string_rev_app in H.
  apply string_app_inj_r in H. apply (f_equal string_rev) in H.
  by rewrite !string_rev_involutive in H.
Qed.

(** *** The text of a group id *)

Lemma number_to_string_safe (n : Z) : Z.abs n < 2 ^ 53 -> number_to_string n = pretty n.
Proof.
  intros H. unfold number_to_string. rewrite to_double_safe by exact H. cbv zeta.
  by apply Z.ltb_lt in H as ->.
Qed.


Lemma pretty_N_go_numeral (x : N) (s : string) :
  string_forall numeral_char s = true ->
  string_forall numeral_char (pretty_N_go x s) = true.
Proof.
  revert s. induction (N.lt_wf_0 x) as [x _ IH]; intros s Hs.
  destruct (decide (x = 0)%N) as [->|Hx]; [by rewrite pretty_N_go_0|].
  rewrite pretty_N_go_step by lia. apply IH; [apply N.div_lt; lia|].
  cbn [string_forall]. rewrite Hs, andb_true_r.
  unfold pretty_N_char. by repeat case_match.
Qed.

Lemma pretty_Z_numeral (z : Z) : string_forall numeral_char (pretty z) = true.
Proof.
  assert (HN : forall p : positive, string_forall numeral_char (pretty p) = true).
  { intros p. unfold pretty, pretty_positive, pretty, pretty_N.
    case_decide; [done|]. by apply pretty_N_go_numeral. }
  destruct z as [|p|p]; [done | apply HN |].
  change (string_forall numeral_char (String "-" (pretty p)) = true).
  cbn [string_forall]. apply andb_true_intro. split; [done | apply HN].
Qed.


Lemma numeral_underscore_free (s : string) :
  string_forall numeral_char s = true -> underscore_free s = true.
Proof.
  unfold underscore_free. apply string_forall_impl. intros c Hc.
  destruct (Ascii.eqb_spec c "_") as [->|]; [discriminate Hc | done].
Qed.

(** A text is cut at its first underscore in one way only. *)
Lemma first_underscore_cut (a b x y : string) :
  underscore_free a = true -> underscore_free b = true ->
  a +:+ "_" +:+ x = b +:+ "_" +:+ y -> a = b /\ x = y.
Proof.
  unfold underscore_free. revert b.
  induction a as [|c a IH]; intros [|c' b] Ha Hb E.
  - cbn in E. by injection E.
  - cbn in E, Hb. injection E as <- _. discriminate Hb.
  - cbn in E, Ha. injection E as -> _. discriminate Ha.
  - cbn in E, Ha, Hb. injection E as -> E.
    apply andb_prop in Ha as [_ Ha]. apply andb_prop in Hb as [_ Hb].
    destruct (IH b Ha Hb E) as [-> ->]. done.
Qed.


Lemma groupKey_of_parts (g : option Z) (t h : option string) :
  groupKey_of (g, t, h)
  = group_text g +:+ "_" +:+ default "no-total" t +:+ "_" +:+ default "no-handicap" h.
Proof. by destruct g. Qed.

Lemma group_text_inj (g1 g2 : option Z) :
  safe_group g1 -> safe_group g2 -> group_text g1 = group_text g2 -> g1 = g2.
Proof.
  intros S1 S2 E. destruct g1 as [z1|], g2 as [z2|]; cbn in E; [| | |done].
  - rewrite !number_to_string_safe in E by auto.
    by apply (inj pretty) in E as ->.
  - rewrite number_to_string_safe in E by auto.
    pose proof (pretty_Z_numeral z1) as H. rewrite E in H. discriminate H.
  - rewrite number_to_string_safe in E by auto.
    pose proof (pretty_Z_numeral z2) as H. rewrite <- E in H. discriminate H.
Qed.

Lemma group_text_underscore_free (g : option Z) :
  safe_group g -> underscore_free (group_text g) = true.
Proof.
  intros S. destruct g as [z|]; [|done]. cbn.
  rewrite number_to_string_safe by auto.
  apply numeral_underscore_free, pretty_Z_numeral.
Qed.

(** Keys of triples that differ in the handicap only, in the total only, or
    in the group only. *)
Lemma handicap_separates_keys (g : option Z) (t h1 h2 : option string) :
  groupKey_of (g, t, h1) = groupKey_of (g, t, h2)
  <-> default "no-handicap" h1 = default "no-handicap" h2.
Proof.
  rewrite !groupKey_of_parts. split; [|by intros ->].
  intros E. by do 4 apply string_app_inj_r in E.
Qed.

Lemma total_separates_keys (g : option Z) (t1 t2 h : option string) :
  groupKey_of (g, t1, h) = groupKey_of (g, t2, h)
  <-> default "no-total" t1 = default "no-total" t2.
Proof.
  rewrite !groupKey_of_parts. split; [|by intros ->].
  intros E. do 2 apply string_app_inj_r in E.
  rewrite <- !string_app_assoc in E. by do 2 apply string_app_inj_l in E.
Qed.

Lemma group_separates_keys (g1 g2 : option Z) (t h : option string) :
  safe_group g1 -> safe_group g2 ->
  groupKey_of (g1, t, h) = groupKey_of (g2, t, h) <-> g1 = g2.
Proof.
  intros S1 S2. rewrite !groupKey_of_parts. split; [|by intros ->].
  intros E. apply string_app_inj_l in E. by apply group_text_inj.
Qed.

(** When no total holds an underscore, the key tells the three parts. *)
Lemma key_tells_parts (g1 g2 : option Z) (t1 t2 h1 h2 : option string) :
  safe_group g1 -> safe_group g2 ->
  underscore_free (default "no-total" t1) = true ->
  underscore_free (default "no-total" t2) = true ->
  groupKey_of (g1, t1, h1) = groupKey_of (g2, t2, h2)
  <-> g1 = g2 /\ default "no-total" t1 = default "no-total" t2 /\
      default "no-handicap" h1 = default "no-handicap" h2.
Proof.
  intros S1 S2 U1 U2. rewrite !groupKey_of_parts. split.
  - intros E.
    apply first_underscore_cut in E as [Eg E];
      [|by apply group_text_underscore_free..].
    apply first_underscore_cut in E as [Et Eh]; [|done..].
    split; [by apply group_text_inj | done].
  - by intros (-> & -> & ->).
Qed.

(** C5, as stated, fails: the two picks of [collision_match] differ in total
    and in handicap and end up in one record. *)
Lemma colliding_keys_merge_distinct_triples :
  raw_picks collision_match =
    [ ("1", mkPreGameBet 11 1 "ACTIVE" 185 100 "total=1,hcp=2_3");
      ("2", mkPreGameBet 12 2 "ACTIVE" 195 101 "total=1_2,hcp=3") ] /\
  map (fun p => group_triple [] "S" (fst p) (snd p)) (raw_picks collision_match) =
    [ (None, Some "1", Some "2_3"); (None, Some "1_2", Some "3") ] /\
  map (fun b => (epb_id b, epb_betCode b, map po_key (epb_odds b)))
    (enhancePreGameBets [] "S" collision_match) =
    [ ("41_ungrouped_1_2_3", 100, ["1"; "2"]) ].
Proof. vm_compute. repeat split. Qed.

(** C5, what the code does: the raw picks of a scheduled match are merged by
    their grouping key.  The records have distinct keys; every pick is in the
    record of its key; the record of a key lists one outcome entry per pick
    with that key, in the order of the picks, and takes its id, bet code,
    status and special value from the first of them.  Picks with equal (group
    id, total, handicap) have equal keys.  Two triples that differ in one
    component have different keys, a missing total or handicap counting as
    its placeholder text; and when no total holds an underscore, two triples
    have one key only if they agree in the three components (group ids being
    below [2^53] in size). *)
Theorem scheduled_picks_merge_by_key (ps : list EnhancedBetPick) (sportCode : string)
    (m : PreGameMatch) :
  let L := raw_picks m in
  let R := grouped_bets ps sportCode m in
  enhancePreGameBets ps sportCode m = map snd R /\
  NoDup (map fst R) /\
  (forall p, p ∈ L -> exists b, (pick_key ps sportCode p, b) ∈ R) /\
  (forall k b, (k, b) ∈ R ->
     exists p0 later,
       filter (fun p => pick_key ps sportCode p = k) L = p0 :: later /\
       epb_odds b = map (pick_odd ps sportCode) (p0 :: later) /\
       epb_id b = number_to_string (pm_id m) +:+ "_" +:+ k /\
       epb_betCode b = pg_bc (snd p0) /\
       epb_status b = pg_s (snd p0) /\
       epb_specialValue b = pg_sv (snd p0)) /\
  (forall p q : string * PreGameBet,
     group_triple ps sportCode (fst p) (snd p) = group_triple ps sportCode (fst q) (snd q) ->
     pick_key ps sportCode p = pick_key ps sportCode q) /\
  (forall (g : option Z) (t h1 h2 : option string),
     groupKey_of (g, t, h1) = groupKey_of (g, t, h2)
     <-> default "no-handicap" h1 = default "no-handicap" h2) /\
  (forall (g : option Z) (t1 t2 h : option string),
     groupKey_of (g, t1, h) = groupKey_of (g, t2, h)
     <-> default "no-total" t1 = default "no-total" t2) /\
  (forall (g1 g2 : option Z) (t h : option string),
     safe_group g1 -> safe_group g2 ->
     groupKey_of (g1, t, h) = groupKey_of (g2, t, h) <-> g1 = g2) /\
  (forall (g1 g2 : option Z) (t1 t2 h1 h2 : option string),
     safe_group g1 -> safe_group g2 ->
     underscore_free (default "no-total" t1) = true ->
     underscore_free (default "no-total" t2) = true ->
     groupKey_of (g1, t1, h1) = groupKey_of (g2, t2, h2)
     <-> g1 = g2 /\ default "no-total" t1 = default "no-total" t2 /\
         default "no-handicap" h1 = default "no-handicap" h2).
Proof.
  intros L R.
  destruct (grouped_by_key ps sportCode (pm_id m) (length L) L (le_n _))
    as (ND & Hin & Hrec).
  fold (grouped_bets ps sportCode m) in ND, Hin, Hrec. fold R in ND, Hin, Hrec.
  split; [reflexivity|]. split; [exact ND|].
  split; [|split; [|split; [|split; [|split; [|split]]]]].
  - intros p Hp. specialize (Hin p Hp).
    apply list_elem_of_fmap in Hin as ([k b] & Ek & Hkb).
    change (pick_key ps sportCode p = k) in Ek.
    exists b. by rewrite Ek.
  - intros k b Hkb. destruct (Hrec k b Hkb) as (p0 & later & Ef & Eb).
    exists p0, later. split; [exact Ef|].
    destruct (push_picks_fields ps sportCode (seed_bet ps sportCode (pm_id m) p0) later)
      as (E1 & E2 & E3 & E4 & E5).
    rewrite <- Eb in E1, E2, E3, E4, E5.
    assert (Hk : pick_key ps sportCode p0 = k).
    { assert (Hp0 : p0 ∈ filter (fun p => pick_key ps sportCode p = k) L)
        by (rewrite Ef; left).
      by apply list_elem_of_filter in Hp0 as [Hk _]. }
    rewrite E1, E2, E3, E4, E5. split; [reflexivity|]. split; [|repeat split].
    unfold seed_bet. cbn [epb_id]. by rewrite Hk.
  - intros p q E.
    change (groupKey_of (group_triple ps sportCode (fst p) (snd p))
            = groupKey_of (group_triple ps sportCode (fst q) (snd q))).
    by rewrite E.
  - apply handicap_separates_keys.
  - apply total_separates_keys.
  - apply group_separates_keys.
  - apply key_tells_parts.
Qed.

Lemma scheduled_picks_merge_by_key_witness :
  map fst (grouped_bets sample_picks "S" sample_match) = ["7_2.5_-1"; "7_2.5_-2"] /\
  exists b,
    ("7_2.5_-1", b) ∈ grouped_bets sample_picks "S" sample_match /\
    map po_key (epb_odds b) = ["1"; "2"] /\
    epb_id b = "40_7_2.5_-1" /\ epb_betCode b = 100 /\
    epb_status b = "ACTIVE" /\ epb_specialValue b = "total=2.5,hcp=-1".
Proof.
  split; [vm_compute; reflexivity|].
  destruct (scheduled_picks_merge_by_key sample_picks "S" sample_match)
    as (_ & _ & Hin & Hrec & _).
  destruct (Hin ("1", mkPreGameBet 11 1 "ACTIVE" 185 100 "total=2.5,hcp=-1"))
    as [b Hb]; [left|].
  exists b. split; [exact Hb|].
  destruct (Hrec _ _ Hb) as (p0 & later & Ef & E1 & E2 & E3 & E4 & E5).
  vm_compute in Ef. injection Ef as <- <-.
  rewrite E1, E2, E3, E4, E5. vm_compute. repeat split.
Defined.

(** ** Live enrichment without a dictionary entry *)

Lemma Forall2_elem_of_r {A B : Type} (P : A -> B -> Prop) (l : list A) (k : list B) (y : B) :
  Forall2 P l k -> y ∈ k -> exists x, x ∈ l /\ P x y.
Proof.
  induction 1 as [|x y' l k Hxy HF IH]; intros Hy; [inversion Hy|].
  apply elem_of_cons in Hy as [->|Hy].
  - exists x. split; [left | exact Hxy].
  - destruct (IH Hy) as (x' & Hx' & HP). exists x'. split; [by right | exact HP].
Qed.

Lemma get_prop_total (v : jsval) (k : string) : v <> JNull -> is_Some (get_prop v k).
Proof. destruct v; intros H; try congruence; eexists; reflexivity. Qed.

Lemma enhance_odd_total (ps : list EnhancedBetPick) (sc : jsval) (e : string * jsval) :
  snd e <> JNull -> is_Some (enhance_odd ps sc e).
Proof.
  destruct e as [key odd]. cbn [snd]. intros H. unfold enhance_odd.
  destruct (get_prop_total odd "ov" H) as [ov ->].
  destruct (get_prop_total odd "bpc" H) as [bpc ->]. eexists. reflexivity.
Qed.

Lemma enhance_odd_spec (ps : list EnhancedBetPick) (sc : jsval) (e : string * jsval)
    (o : EnhancedOdd) :
  enhance_odd ps sc e = Some o ->
  eo_key o = fst e /\
  eo_description o =
    str_or (option_map ep_label (find_pick ps (fst e +:+ "_" +:+ js_to_string sc)))
      "Unknown Description" /\
  eo_caption o =
    str_or (option_map ep_caption (find_pick ps (fst e +:+ "_" +:+ js_to_string sc)))
      "N/A".
Proof.
  destruct e as [key odd]. unfold enhance_odd.
  destruct (get_prop odd "ov") as [ov|]; [|discriminate].
  destruct (get_prop odd "bpc") as [bpc|]; [|discriminate].
  cbn. intros [= <-]. repeat split.
Qed.

Lemma enhance_live_bet_total (ps : list EnhancedBetPick) (sc : jsval) (bet : record) :
  well_formed_om bet -> is_Some (enhance_live_bet ps sc bet).
Proof.
  intros (entries & E & F). unfold enhance_live_bet. rewrite E. cbn.
  assert (M : is_Some (mapM (enhance_odd ps sc) entries)).
  { apply mapM_is_Some_2. eapply Forall_impl; [exact F|].
    intros e He. by apply enhance_odd_total. }
  destruct M as [odds ->]. eexists. reflexivity.
Qed.

Lemma enhance_live_bet_spec (ps : list EnhancedBetPick) (sc : jsval) (bet : record)
    (eb : EnhancedLiveBet) :
  enhance_live_bet ps sc bet = Some eb ->
  elb_bet eb = bet /\ elb_sportCode eb = sc /\
  exists entries,
    object_entries (bet !! "om") = Some entries /\
    Forall2 (fun e o => enhance_odd ps sc e = Some o) entries (elb_odds eb).
Proof.
  unfold enhance_live_bet.
  destruct (object_entries (bet !! "om")) as [entries|]; [|discriminate]. cbn.
  destruct (mapM (enhance_odd ps sc) entries) as [odds|] eqn:M; [|discriminate].
  cbn. intros [= <-]. cbn. repeat split. exists entries. split; [reflexivity|].
  by apply mapM_Some_1.
Qed.

Lemma odd_info_total (bo : BettingOptions) (sc : jsval) (e : string * jsval) :
  snd e <> JNull -> is_Some (odd_info bo sc e).
Proof.
  destruct e as [key odd]. cbn [snd]. intros H. unfold odd_info.
  destruct (get_prop_total odd "ov" H) as [ov ->].
  destruct (get_prop_total odd "bpc" H) as [bpc ->]. eexists. reflexivity.
Qed.

Lemma odd_info_spec (bo : BettingOptions) (sc : jsval) (e : string * jsval)
    (o : OddInfo) :
  odd_info bo sc e = Some o ->
  oi_key o = fst e /\
  oi_description o =
    match object_get (betPickMap bo) (fst e +:+ "_" +:+ js_to_string sc) with
    | OwnProperty i => Some (bpm_label i)
    | InheritedMember => None
    | NoProperty => Some "Unknown bet"
    end /\
  oi_caption o =
    match object_get (betPickMap bo) (fst e +:+ "_" +:+ js_to_string sc) with
    | OwnProperty i => Some (bpm_caption i)
    | InheritedMember => None
    | NoProperty => Some (fst e)
    end.
Proof.
  destruct e as [key odd]. unfold odd_info.
  destruct (get_prop odd "ov") as [ov|]; [|discriminate].
  destruct (get_prop odd "bpc") as [bpc|]; [|discriminate].
  cbn. intros [= <-]. repeat split.
Qed.

(** A key without an entry finds an inherited member or nothing. *)
Lemma object_get_missing {A : Type} (dict : list (string * A)) (k : string) :
  dict_get dict k = None ->
  object_get dict k =
  if inherited_name k then InheritedMember else NoProperty.
Proof. unfold object_get, inherited_name. by intros ->. Qed.

Lemma enhanceBetData_total (bo : BettingOptions) (sc : jsval) (bet : record) :
  well_formed_om bet -> is_Some (enhanceBetData (Some bo) bet sc).
Proof.
  intros (entries & E & F). unfold enhanceBetData.
  destruct (truthy_opt (bet !! "om")); [|eexists; reflexivity].
  rewrite E. cbn.
  assert (M : is_Some (mapM (odd_info bo sc) entries)).
  { apply mapM_is_Some_2. eapply Forall_impl; [exact F|].
    intros e He. by apply odd_info_total. }
  destruct M as [odds ->]. eexists. reflexivity.
Qed.

(** A value that is not truthy has no property to enumerate. *)
Lemma falsy_has_no_entries (v : option jsval) (entries : list (string * jsval)) :
  truthy_opt v = false -> object_entries v = Some entries -> entries = [].
Proof.
  destruct v as [[|b|n|s|items|props]|]; cbn; try discriminate.
  - by intros _ [= <-].
  - by intros _ [= <-].
  - intros H. apply negb_false_iff, String.eqb_eq in H as ->. by intros [= <-].
Qed.

Lemma enhanceBetData_spec (bo : BettingOptions) (sc : jsval) (bet : record)
    (eb : EnhancedBetData) (entries : list (string * jsval)) :
  object_entries (bet !! "om") = Some entries ->
  enhanceBetData (Some bo) bet sc = Some eb ->
  ebd_id eb = bet !! "id" /\ ebd_matchId eb = bet !! "mId" /\
  ebd_sportCode eb = sc /\
  Forall2 (fun e o => odd_info bo sc e = Some o) entries (ebd_odds eb).
Proof.
  intros E. unfold enhanceBetData.
  destruct (truthy_opt (bet !! "om")) eqn:T.
  - rewrite E. cbn.
    destruct (mapM (odd_info bo sc) entries) as [odds|] eqn:M; [|discriminate].
    cbn. intros [= <-]. cbn. repeat split. by apply mapM_Some_1.
  - cbn. intros [= <-]. cbn. repeat split.
    rewrite (falsy_has_no_entries _ _ T E). constructor.
Qed.

Lemma add_pick_picks (sc : string) (acc : EnhancedBettingOptions)
    (entry : string * BetPickMapItem) (p : EnhancedBetPick) :
  p ∈ picks (add_pick sc acc entry) -> p ∈ picks acc \/ ep_key p = fst entry.
Proof.
  destruct entry as [pickKey pickInfo]. unfold add_pick.
  destruct (endsWith ("_" +:+ sc) pickKey); [|by left].
  cbn [picks]. intros H. apply elem_of_app in H as [H|H]; [by left|].
  apply list_elem_of_singleton in H. subst p. by right.
Qed.

Lemma fold_add_pick_picks (sc : string) (entries : list (string * BetPickMapItem))
    (acc : EnhancedBettingOptions) (p : EnhancedBetPick) :
  p ∈ picks (fold_left (add_pick sc) entries acc) ->
  p ∈ picks acc \/ ep_key p ∈ map fst entries.
Proof.
  revert acc. induction entries as [|e entries IH]; intros acc H; [by left|].
  cbn [fold_left] in H. destruct (IH _ H) as [H1|H1].
  - destruct (add_pick_picks _ _ _ _ H1) as [H2|H2]; [by left|].
    right. rewrite H2. left.
  - right. by right.
Qed.

Lemma dict_get_None {A : Type} (dict : list (string * A)) (k : string) :
  dict_get dict k = None -> k ∉ map fst dict.
Proof.
  induction dict as [|[k' v] dict IH]; cbn; intros H Hin; [inversion Hin|].
  destruct (String.eqb k' k) eqn:E; [discriminate|].
  apply String.eqb_neq in E. apply elem_of_cons in Hin as [Hin|Hin]; [congruence|].
  by apply IH.
Qed.

Lemma find_pick_None (ps : list EnhancedBetPick) (k : string) :
  (forall p, p ∈ ps -> ep_key p <> k) -> find_pick ps k = None.
Proof.
  unfold find_pick. induction ps as [|p ps IH]; intros H; [reflexivity|].
  cbn. destruct (String.eqb (ep_key p) k) eqn:E.
  - apply String.eqb_eq in E. exfalso. apply (H p); [left | exact E].
  - apply IH. intros q Hq. apply H. by right.
Qed.

(** A key that is not in [betPickMap] is not among the enriched picks. *)
Lemma missing_key_has_no_pick (m : gmap string SportMapping) (bo : BettingOptions)
    (sp : Sport) (k : string) :
  dict_get (betPickMap bo) k = None ->
  find_pick (picks (createEnhancedBettingOptions m bo sp)) k = None.
Proof.
  intros H. apply dict_get_None in H. apply find_pick_None. intros p Hp E.
  unfold createEnhancedBettingOptions in Hp.
  destruct (truthy_str (getSportTypeCode m sp)); [|inversion Hp].
  apply fold_add_pick_picks in Hp as [Hp|Hp]; [inversion Hp|].
  apply H. by rewrite <- E.
Qed.

(** C6, as stated, fails on the second entry point: [enhanceBetData], behind
    [getEnhancedBettingDataForMatch], labels an outcome without a dictionary
    entry "Unknown bet" and captions it with its key. *)
Lemma second_entry_point_uses_other_placeholders :
  dict_get (betPickMap empty_catalog) "1_S" = None /\
  option_map (map (fun eb => map (fun o => (oi_key o, oi_description o, oi_caption o))
                               (ebd_odds eb)))
    (getEnhancedBettingDataForMatch (Some empty_catalog) 5
       (bets sample_live) (headers sample_live))
  = Some [[("1", Some "Unknown bet", Some "1")]].
Proof. vm_compute. split; reflexivity. Qed.

(** The pick key [__proto__] of the outcome [_] of sport [proto__] has no
    entry in an empty catalog, and the lookup finds the prototype of the
    dictionary: the outcome gets neither description nor caption. *)
Example inherited_pick_key_gives_no_label :
  dict_get (betPickMap empty_catalog) ("_" +:+ "_" +:+ "proto__") = None /\
  option_map (fun o => (oi_key o, oi_description o, oi_caption o))
    (odd_info empty_catalog (JStr "proto__")
       ("_", JObj [("ov", JNum 185); ("bpc", JNum 11)]))
  = Some ("_", None, None).
Proof. vm_compute. split; reflexivity. Qed.

(** C6, amended: an outcome whose pick key has no dictionary entry never
    makes the enrichment fail, and gets a record.  For the bets of a match
    whose [om] enumerates and holds no [null], both entry points return.
    When the header of the match gives a sport code,
    [getEnhancedBettingDataForMatchWithGroups] returns one record per bet and
    in it one entry per outcome, with the description "Unknown Description"
    and the caption "N/A" for an outcome whose pick key is not among the
    picks; [getEnhancedBettingDataForMatch] returns one record per bet and in
    it one entry per outcome, with the description "Unknown bet" and the key
    of the outcome as caption for an outcome whose pick key has no entry,
    unless the pick key names a member every object inherits, which gives
    neither.  A pick key without an entry in the catalog is not among the
    picks made of the catalog. *)
Theorem missing_pick_gets_placeholders (opts : EnhancedBettingOptions)
    (bo : BettingOptions) (d : LiveData) (matchId : Z) (sc : jsval) :
  let matchBets :=
    List.filter (fun bet => strict_equal (bet !! "mId") (Some (JNum matchId))) (bets d) in
  Forall well_formed_om matchBets ->
  truthy sc = true ->
  is_Some (enhancedBettingDataWithGroups (Some opts) (Some d) matchId) /\
  is_Some (getEnhancedBettingDataForMatch (Some bo) matchId (bets d) (headers d)) /\
  (List.find (fun h => strict_equal (rec_id h) (Some (JNum matchId))) (headers d)
     ≫= (fun h => h !! "s") = Some sc ->
   exists result,
     enhancedBettingDataWithGroups (Some opts) (Some d) matchId = Some result /\
     Forall2 (enriched_with_groups (picks opts) sc) matchBets result) /\
  (getSportCodeFromMatchCode (head matchBets ≫= (fun b => b !! "mc")) (headers d)
     = Some sc ->
   exists result,
     getEnhancedBettingDataForMatch (Some bo) matchId (bets d) (headers d) = Some result /\
     Forall2 (enriched_plain bo sc) matchBets result) /\
  (forall (m : gmap string SportMapping) (sp : Sport) (k : string),
     dict_get (betPickMap bo) k = None ->
     find_pick (picks (createEnhancedBettingOptions m bo sp)) k = None).
Proof.
  intros matchBets WF Hsc.
  assert (M1 : forall sc', exists result,
            mapM (enhance_live_bet (picks opts) sc') matchBets = Some result /\
            Forall2 (enriched_with_groups (picks opts) sc') matchBets result).
  { intros sc'.
    assert (M : is_Some (mapM (enhance_live_bet (picks opts) sc') matchBets)).
    { apply mapM_is_Some_2. eapply Forall_impl; [exact WF|].
      intros bet Hb. by apply enhance_live_bet_total. }
    destruct M as [result M]. exists result. split; [exact M|].
    apply mapM_Some_1 in M. eapply Forall2_impl; [exact M|].
    intros bet eb Hbet.
    destruct (enhance_live_bet_spec _ _ _ _ Hbet) as (Eb & Esc & entries & Eo & F2).
    split; [exact Eb|]. split; [exact Esc|]. exists entries. split; [exact Eo|].
    eapply Forall2_impl; [exact F2|]. intros e o He.
    destruct (enhance_odd_spec _ _ _ _ He) as (Ek & Ed & Ec).
    split; [exact Ek|]. intros Hnone. by rewrite Ed, Ec, Hnone. }
  assert (M2 : forall sc', exists result,
            mapM (fun bet => enhanceBetData (Some bo) bet sc') matchBets = Some result /\
            Forall2 (enriched_plain bo sc') matchBets result).
  { intros sc'.
    assert (M : is_Some (mapM (fun bet => enhanceBetData (Some bo) bet sc') matchBets)).
    { apply mapM_is_Some_2. eapply Forall_impl; [exact WF|].
      intros bet Hb. by apply enhanceBetData_total. }
    destruct M as [result M]. exists result. split; [exact M|].
    apply mapM_Some_1 in M.
    assert (G : forall bets0, Forall well_formed_om bets0 -> forall res,
              Forall2 (fun bet eb => enhanceBetData (Some bo) bet sc' = Some eb) bets0 res ->
              Forall2 (enriched_plain bo sc') bets0 res).
    { intros bets0 WF0 res F2. induction F2 as [|bet eb bets0 res Hbet F2 IH];
        [constructor|].
      inversion WF0 as [|? ? (entries & Eo & _) WF0']; subst.
      constructor; [|by apply IH].
      destruct (enhanceBetData_spec _ _ _ _ _ Eo Hbet) as (E1 & E2 & E3 & F).
      split; [exact E1|]. split; [exact E2|]. split; [exact E3|].
      exists entries. split; [exact Eo|].
      eapply Forall2_impl; [exact F|]. intros e o He.
      destruct (odd_info_spec _ _ _ _ He) as (Ek & Ed & Ec).
      split; [exact Ek|]. intros Hnone.
      rewrite (object_get_missing _ _ Hnone) in Ed, Ec.
      by destruct (inherited_name _). }
    by apply G. }
  split; [|split; [|split; [|split]]].
  - unfold enhancedBettingDataWithGroups. fold matchBets.
    destruct matchBets as [|b0 rest] eqn:Em; [by eexists|].
    destruct (_ ≫= _) as [sc'|]; [|by eexists].
    destruct (truthy sc'); [|by eexists].
    destruct (M1 sc') as (result & -> & _). by eexists.
  - unfold getEnhancedBettingDataForMatch. fold matchBets.
    destruct (_ ≫= _) as [sc'|]; [|by eexists].
    destruct (truthy sc'); [|by eexists].
    destruct (M2 sc') as (result & -> & _). by eexists.
  - intros Hh. unfold enhancedBettingDataWithGroups. fold matchBets.
    destruct (M1 sc) as (result & M & F2).
    destruct matchBets as [|b0 rest] eqn:Em.
    + exists []. split; [reflexivity|]. cbn in M. injection M as <-. constructor.
    + rewrite Hh, Hsc. exists result. by split.
  - intros Hh. unfold getEnhancedBettingDataForMatch. fold matchBets.
    destruct (M2 sc) as (result & M & F2).
    unfold getSportCodeFromMatchCode in Hh.
    destruct (List.find _ (headers d)) as [h|] eqn:Ef; cbn [mbind option_bind].
    + rewrite Hh, Hsc. exists result. by split.
    + injection Hh as <-. discriminate Hsc.
  - intros m sp k. apply missing_key_has_no_pick.
Qed.

Lemma missing_pick_gets_placeholders_witness :
  exists result,
    enhancedBettingDataWithGroups (Some (mkEnhancedBettingOptions [] []))
      (Some sample_live) 5 = Some result /\
    Forall2 (enriched_with_groups [] (JStr "S"))
      (List.filter (fun bet => strict_equal (bet !! "mId") (Some (JNum 5)))
         (bets sample_live))
      result.
Proof.
  refine (proj1 (proj2 (proj2 (missing_pick_gets_placeholders
                   (mkEnhancedBettingOptions [] []) empty_catalog sample_live 5
                   (JStr "S") _ _))) _).
  - constructor; [|constructor].
    eexists. split; [reflexivity|]. constructor; [discriminate | constructor].
  - reflexivity.
  - reflexivity.
Defined.

Example live_enrichment_of_sample :
  option_map (map (fun eb => map (fun o => (eo_key o, eo_description o, eo_caption o))
                               (elb_odds eb)))
    (enhancedBettingDataWithGroups (Some (mkEnhancedBettingOptions [] []))
       (Some sample_live) 5)
  = Some [[("1", "Unknown Description", "N/A")]].
Proof. vm_compute. reflexivity. Qed.

(** ** The Mode Orchestrator *)

(** C7, as stated, fails: after a live start and a reset the orchestrator
    reports that nothing is initialized, and [getLiveData] still returns the
    snapshot with its watermark. *)
Lemma reset_keeps_live_snapshot :
  isDataInitialized sample_ready_live = true /\
  isLiveStreaming sample_ready_live = true /\
  getInitializedData (reset sample_ready_live) = None /\
  isDataInitialized (reset sample_ready_live) = false /\
  isLiveStreaming (reset sample_ready_live) = false /\
  ds_getLiveData (reset sample_ready_live) = Some (mkLiveData [] [] [] 17 0 football) /\
  currentTimestamp (liveStreamService (reset sample_ready_live)) = Some 17.
Proof. vm_compute. repeat split. Qed.

Section OrchestratorProperties.

Variable decode : string -> option Payload.

(** What the orchestrator does to the stream service is a run of its events,
    so the service of an orchestrator stays among the reachable states. *)
Lemma initialize_as_events (ds : DataService) (mode : Mode) (sp : Sport)
    (interval : option string) (env : InitEnv) :
  exists evs,
    liveStreamService (fst (initialize decode ds mode sp interval env))
    = run decode (liveStreamService ds) evs.
Proof.
  unfold initialize. destruct (env_catalog env) as [[sportsData bo]|]; [|by exists []].
  destruct mode.
  - destruct (initializeLiveEvents decode (liveStreamService ds) sp (env_bulk env)
                (env_clock_bulk env)) as [ls1 out] eqn:E1.
    assert (H1 : ls1 = step decode (liveStreamService ds)
                         (EvInit sp (env_bulk env) (env_clock_bulk env)))
      by (cbn [step]; by rewrite E1).
    destruct out as [d|f|].
    + set (hs := filterLiveHeadersBySport (initializeSportMappings sportsData) (headers d) sp).
      assert (G : getLiveData ls1 = Some d).
      { unfold initializeLiveEvents in E1.
        destruct (bulk_outcome decode sp (env_bulk env) (env_clock_bulk env));
          try discriminate E1.
        injection E1 as <- <-. unfold getLiveData. cbn.
        rewrite lookup_app_r by lia. by rewrite Nat.sub_diag. }
      destruct (startLiveSubscription _ (env_conn env)) as [ls3 thrown] eqn:E3.
      exists [EvInit sp (env_bulk env) (env_clock_bulk env); EvSetHeaders hs;
              EvStart (env_conn env)].
      unfold run. cbn [fold_left]. rewrite <- H1. cbn [step]. rewrite G. cbn [option_map].
      fold hs in E3. rewrite E3. destruct thrown; reflexivity.
    + exists [EvInit sp (env_bulk env) (env_clock_bulk env)]. by rewrite H1.
    + exists [EvInit sp (env_bulk env) (env_clock_bulk env)]. by rewrite H1.
  - exists []. destruct (env_pregame env); reflexivity.
Qed.

Lemma reset_as_events (ds : DataService) :
  exists evs, liveStreamService (reset ds) = run decode (liveStreamService ds) evs.
Proof.
  unfold reset. cbn [liveStreamService].
  destruct (isStreaming (liveStreamService ds)); [by exists [EvStop] | by exists []].
Qed.

(** C7, amended: [reset] stops the subscription whenever [isStreaming] is up,
    so that no subscription request is made until the next start; afterwards
    nothing is streaming and the orchestrator reports no initialized and no
    scheduled data; the snapshot and the watermark held by the stream service
    stay as they were.  A second reset changes nothing, and a reset of an
    orchestrator that is not initialized and not streaming changes nothing. *)
Theorem reset_clears_orchestrator (ds : DataService) (matchId : Z) (evs : list Event) :
  let ds' := reset ds in
  (isStreaming (liveStreamService ds) = true ->
   liveStreamService ds' = stopLiveSubscription (liveStreamService ds) /\
   shouldStream (liveStreamService ds') = false /\
   (forallb (fun e => negb (is_start e)) evs = true ->
    attempts (run decode (liveStreamService ds') evs) = attempts (liveStreamService ds))) /\
  isLiveStreaming ds' = false /\
  getInitializedData ds' = None /\
  isDataInitialized ds' = false /\
  getPreGameData ds' = None /\
  getEnhancedPreGameMatches ds' = [] /\
  getFilteredLiveHeadersBySport ds' = [] /\
  getCurrentSportTypeCode ds' = None /\
  getEnhancedBettingDataForMatchWithGroups ds' matchId = Some [] /\
  ds_getLiveData ds' = ds_getLiveData ds /\
  currentTimestamp (liveStreamService ds') = currentTimestamp (liveStreamService ds) /\
  reset ds' = ds' /\
  (initializedData ds = None -> isInitialized ds = false ->
   isStreaming (liveStreamService ds) = false -> reset ds = ds).
Proof.
  intros ds'. subst ds'. unfold reset.
  destruct ds as [ls sm bo idata init]. cbn [liveStreamService sportMappings
    bettingOptions initializedData isInitialized].
  split.
  { intros H. rewrite H. cbn. repeat split.
    intros F. apply (stopped_run decode evs (stopLiveSubscription ls) F eq_refl). }
  unfold isLiveStreaming, getInitializedData, isDataInitialized, getPreGameData,
    getEnhancedPreGameMatches, getFilteredLiveHeadersBySport, getCurrentSportTypeCode,
    getEnhancedBettingDataForMatchWithGroups, ds_getLiveData.
  cbn [liveStreamService sportMappings bettingOptions initializedData isInitialized].
  destruct (isStreaming ls) eqn:E; cbn; rewrite ?E; repeat split; try reflexivity.
  all: try (intros; subst; reflexivity).
  all: try (intros; congruence).
Qed.

Lemma bulk_resolved_nonzero (sp : Sport) (resp : BulkResponse) (now : Z) (d : LiveData) :
  bulk_outcome decode sp resp now = Resolved d -> (lastTimestamp d =? 0) = false.
Proof.
  unfold bulk_outcome. destruct resp as [[]|chunks fin]; try discriminate.
  destruct fin as [|[]|]; try discriminate. unfold on_end, truthy_num.
  destruct (endTimestamp _) as [[|n]|]; try discriminate.
  destruct (n =? 0) eqn:N; [discriminate|]. by intros [= <-].
Qed.

Lemma set_liveData_fields (s : LiveStream) (d : option LiveData) :
  isStreaming (set_liveData s d) = isStreaming s /\
  currentTimestamp (set_liveData s d) = currentTimestamp s.
Proof. unfold set_liveData. destruct (liveData s), d; split; reflexivity. Qed.

Lemma startLiveSubscription_throws (s s' : LiveStream) (c : ConnResult) (f : Failure) (n : Z) :
  currentTimestamp s = Some n -> (n =? 0) = false ->
  startLiveSubscription s c = (s', Some f) ->
  isStreaming s = false /\ c = ConnError /\ currentTimestamp s' = Some n.
Proof.
  intros Hts Hn. unfold startLiveSubscription, subscribeToLiveUpdates, timestamp_set.
  cbn [currentTimestamp]. rewrite Hts, Hn. cbn [negb].
  destruct (isStreaming s); [discriminate|].
  destruct c; cbn; try discriminate. intros [= <- _]. cbn. by repeat split.
Qed.

(** What a rejected [initialize] leaves behind. *)
Lemma rejected_initialize_state (ds ds' : DataService) (mode : Mode)
    (sp : Sport) (interval : option string) (env : InitEnv) (f : Failure) :
  initialize decode ds mode sp interval env = (ds', Rejected f) ->
  initializedData ds' = initializedData ds /\
  isInitialized ds' = isInitialized ds /\
  getInitializedData ds' = getInitializedData ds /\
  isDataInitialized ds' = isDataInitialized ds /\
  getPreGameData ds' = getPreGameData ds /\
  (env_catalog env = None -> ds' = ds /\ f = CatalogFailed) /\
  (forall sportsData bo, env_catalog env = Some (sportsData, bo) ->
     sportMappings ds' = initializeSportMappings sportsData /\
     bettingOptions ds' = Some bo /\
     match mode with
     | pre_game =>
         env_pregame env = None /\ f = PreGameFailed /\
         liveStreamService ds' = liveStreamService ds
     | live =>
         bulk_outcome decode sp (env_bulk env) (env_clock_bulk env) = Rejected f \/
         exists d, bulk_outcome decode sp (env_bulk env) (env_clock_bulk env) = Resolved d /\
                   isStreaming (liveStreamService ds) = false /\
                   env_conn env = ConnError /\
                   currentTimestamp (liveStreamService ds') = Some (lastTimestamp d)
     end).
Proof.
  unfold initialize, getInitializedData, isDataInitialized, getPreGameData.
  destruct (env_catalog env) as [[sportsData bo]|] eqn:Ec.
  - destruct mode.
    + unfold initializeLiveEvents.
      destruct (bulk_outcome decode sp (env_bulk env) (env_clock_bulk env))
        as [d|f'|] eqn:Eb.
      * cbn [fst snd].
        destruct (startLiveSubscription _ (env_conn env)) as [ls3 thrown] eqn:Es.
        destruct thrown as [f'|]; [|discriminate].
        intros [= <- <-]. cbn.
        do 5 (split; [reflexivity|]). split; [discriminate|].
        intros sd' bo' [= <- <-]. split; [reflexivity|]. split; [reflexivity|].
        right. exists d. split; [reflexivity|].
        pose proof (bulk_resolved_nonzero _ _ _ _ Eb) as Hnz.
        match type of Es with
        | startLiveSubscription ?s0 _ = _ =>
            destruct (set_liveData_fields
                        (mkLiveStream (isStreaming (liveStreamService ds))
                           (shouldStream (liveStreamService ds))
                           (Some (lastTimestamp d))
                           (Some (length (objects (liveStreamService ds)))) true
                           (objects (liveStreamService ds) ++ [d])
                           (timers (liveStreamService ds))
                           (streams (liveStreamService ds))
                           (attempts (liveStreamService ds)))
                        (Some (with_headers d
                                 (filterLiveHeadersBySport
                                    (initializeSportMappings sportsData)
                                    (headers d) sp)))) as [F1 F2];
            destruct (startLiveSubscription_throws s0 ls3 (env_conn env) f'
                        (lastTimestamp d) F2 Hnz Es) as (G1 & G2 & G3)
        end.
        rewrite F1 in G1. cbn in G1. auto.
      * intros [= <- <-]. cbn.
        do 5 (split; [reflexivity|]). split; [discriminate|].
        intros sd' bo' [= <- <-]. split; [reflexivity|]. split; [reflexivity|].
        by left.
      * discriminate.
    + destruct (env_pregame env) as [pg|] eqn:Ep; [discriminate|].
      intros [= <- <-]. cbn.
      do 5 (split; [reflexivity|]). split; [discriminate|].
      intros sd' bo' [= <- <-]. repeat split.
  - intros [= <- <-].
    do 5 (split; [reflexivity|]). split; [by split|]. discriminate.
Qed.

(** Each step that fails makes [initialize] reject. *)
Lemma failing_step_rejects (ds : DataService) (mode : Mode) (sp : Sport)
    (interval : option string) (env : InitEnv) :
  let out := snd (initialize decode ds mode sp interval env) in
  (env_catalog env = None -> out = Rejected CatalogFailed) /\
  (forall c, env_catalog env = Some c -> mode = pre_game ->
     env_pregame env = None -> out = Rejected PreGameFailed) /\
  (forall c f, env_catalog env = Some c -> mode = live ->
     bulk_outcome decode sp (env_bulk env) (env_clock_bulk env) = Rejected f ->
     out = Rejected f) /\
  (forall c d, env_catalog env = Some c -> mode = live ->
     bulk_outcome decode sp (env_bulk env) (env_clock_bulk env) = Resolved d ->
     isStreaming (liveStreamService ds) = false -> env_conn env = ConnError ->
     out = Rejected SubscriptionFailed).
Proof.
  cbv zeta. unfold initialize. repeat split.
  - by intros ->.
  - intros [sd bo] -> -> ->. reflexivity.
  - intros [sd bo] f -> -> Eb. unfold initializeLiveEvents. by rewrite Eb.
  - intros [sd bo] d -> -> Eb Hs Hc. unfold initializeLiveEvents. rewrite Eb.
    cbn [fst snd]. pose proof (bulk_resolved_nonzero _ _ _ _ Eb) as Hnz.
    unfold startLiveSubscription, subscribeToLiveUpdates, set_liveData, timestamp_set.
    cbn. rewrite Hnz, Hs, Hc. reflexivity.
Qed.

(** C8, amended: a failed [initialize] hands its error to the caller and
    leaves [initializedData] and [isInitialized] as they were, and with them
    what [getInitializedData], [isDataInitialized] and [getPreGameData]
    report.  When the catalog fetch fails nothing changes at all; when a later
    step fails the sport mapping table and the betting options of the new
    catalog are already in place, and the error is that of the scheduled
    fetch, of the bulk fetch, or of the subscription request. *)
Theorem failed_initialize_keeps_commit (ds : DataService) (mode : Mode) (sp : Sport)
    (interval : option string) (env : InitEnv) :
  let r := initialize decode ds mode sp interval env in
  (env_catalog env = None -> snd r = Rejected CatalogFailed /\ fst r = ds) /\
  (forall c, env_catalog env = Some c -> mode = pre_game ->
     env_pregame env = None -> snd r = Rejected PreGameFailed) /\
  (forall c f, env_catalog env = Some c -> mode = live ->
     bulk_outcome decode sp (env_bulk env) (env_clock_bulk env) = Rejected f ->
     snd r = Rejected f) /\
  (forall c d, env_catalog env = Some c -> mode = live ->
     bulk_outcome decode sp (env_bulk env) (env_clock_bulk env) = Resolved d ->
     isStreaming (liveStreamService ds) = false -> env_conn env = ConnError ->
     snd r = Rejected SubscriptionFailed) /\
  (forall f, snd r = Rejected f ->
     initializedData (fst r) = initializedData ds /\
     isInitialized (fst r) = isInitialized ds /\
     getInitializedData (fst r) = getInitializedData ds /\
     isDataInitialized (fst r) = isDataInitialized ds /\
     getPreGameData (fst r) = getPreGameData ds /\
     forall sportsData bo, env_catalog env = Some (sportsData, bo) ->
       sportMappings (fst r) = initializeSportMappings sportsData /\
       bettingOptions (fst r) = Some bo).
Proof.
  cbv zeta.
  destruct (failing_step_rejects ds mode sp interval env) as (P1 & P2 & P3 & P4).
  split; [|split; [exact P2 | split; [exact P3 | split; [exact P4|]]]].
  - intros Hc. split; [by apply P1|]. unfold initialize. by rewrite Hc.
  - intros f Hr.
    destruct (initialize decode ds mode sp interval env) as [ds' out] eqn:E.
    cbn [fst snd] in *. subst out.
    destruct (rejected_initialize_state ds ds' mode sp interval env f E)
      as (H1 & H2 & H3 & H4 & H5 & _ & H7).
    do 5 (split; [assumption|]).
    intros sd bo' Hc. destruct (H7 sd bo' Hc) as (G1 & G2 & _). by split.
Qed.

End OrchestratorProperties.

(** C8, as stated, fails: a scheduled start that fails after the catalog was
    fetched has already rebuilt the sport mapping table, so the sport code
    and the enriched scheduled matches a caller reads have changed; and a
    live start that fails at the subscription request has already stored the
    new snapshot. *)
Lemma failed_initialize_changes_queries :
  (let r := initialize sample_decode sample_ready_pregame pre_game football None failing_env in
   snd r = Rejected PreGameFailed /\
   getCurrentSportTypeCode sample_ready_pregame = Some "S" /\
   getCurrentSportTypeCode (fst r) = Some "FB" /\
   length (getEnhancedPreGameMatches sample_ready_pregame) = 1%nat /\
   getEnhancedPreGameMatches (fst r) = [] /\
   observe (fst r) <> observe sample_ready_pregame) /\
  (let r := initialize sample_decode dataService0 live football None
              failing_subscription_env in
   snd r = Rejected SubscriptionFailed /\
   ds_getLiveData dataService0 = None /\
   ds_getLiveData (fst r) = Some (mkLiveData [] [] [] 17 2 football)).
Proof.
  split.
  - cbv zeta. repeat split; try (vm_compute; reflexivity).
    intros E. apply (f_equal q_sportTypeCode) in E. vm_compute in E. discriminate.
  - vm_compute. repeat split.
Qed.

Lemma failed_initialize_keeps_commit_witness :
  let r := initialize sample_decode sample_ready_pregame pre_game football None failing_env in
  snd r = Rejected PreGameFailed /\
  initializedData (fst r) = initializedData sample_ready_pregame /\
  isInitialized (fst r) = isInitialized sample_ready_pregame /\
  getPreGameData (fst r) = getPreGameData sample_ready_pregame.
Proof.
  cbv zeta.
  destruct (failed_initialize_keeps_commit sample_decode sample_ready_pregame
              pre_game football None failing_env) as (_ & P2 & _ & _ & P5).
  assert (R : snd (initialize sample_decode sample_ready_pregame pre_game football
                     None failing_env) = Rejected PreGameFailed)
    by (by eapply P2).
  destruct (P5 PreGameFailed R) as (H1 & H2 & _ & _ & H5 & _).
  repeat split; assumption.
Defined.

Lemma reset_clears_orchestrator_witness :
  (shouldStream (liveStreamService (reset sample_ready_live)) = false /\
   attempts (run sample_decode (liveStreamService (reset sample_ready_live))
               [EvStreamEnd; EvTimer 0 ConnOpen])
   = attempts (liveStreamService sample_ready_live)) /\
  reset dataService0 = dataService0.
Proof.
  split.
  - destruct (reset_clears_orchestrator sample_decode sample_ready_live 5
                [EvStreamEnd; EvTimer 0 ConnOpen]) as (H1 & _).
    destruct (H1 eq_refl) as (_ & H2 & H3). split; [exact H2 | exact (H3 eq_refl)].
  - destruct (reset_clears_orchestrator sample_decode dataService0 5 [])
      as (_ & _ & _ & _ & _ & _ & _ & _ & _ & _ & _ & _ & H).
    exact (H eq_refl eq_refl eq_refl).
Defined.

(** A reset during a backoff: the stream has ended, [isStreaming] is down and
    the timer is pending, so [reset] does not call [stopLiveSubscription];
    when the timer fires the subscription is requested again. *)
Example reset_during_backoff :
  let s1 := step sample_decode (liveStreamService sample_ready_live) EvStreamEnd in
  let ds1 := mkDataService s1 (sportMappings sample_ready_live)
               (bettingOptions sample_ready_live)
               (initializedData sample_ready_live) true in
  isStreaming s1 = false /\ timers s1 = [AfterEnd] /\
  shouldStream (liveStreamService (reset ds1)) = true /\
  attempts (liveStreamService (reset ds1)) = 1%nat /\
  attempts (step sample_decode (liveStreamService (reset ds1)) (EvTimer 0 ConnOpen)) = 2%nat.
Proof. vm_compute. repeat split. Qed.

(** * Further properties of the services *)

(** ** Lists *)

Lemma fold_left_snoc {A B : Type} (f : A -> B -> A) (l : list B) (x : B) (a : A) :
  fold_left f (l ++ [x]) a = f (fold_left f l a) x.
Proof. by rewrite fold_left_app. Qed.

Lemma filter_ext_Forall {A : Type} (p q : A -> bool) (l : list A) :
  Forall (fun a => p a = q a) l -> List.filter p l = List.filter q l.
Proof.
  induction 1 as [|a l Ha _ IH]; [done|]. cbn. by rewrite Ha, IH.
Qed.

Lemma filter_filter_implied {A : Type} (p q : A -> bool) (l : list A) :
  (forall a, p a = true -> q a = true) ->
  List.filter p (List.filter q l) = List.filter p l.
Proof.
  intros H. induction l as [|a l IH]; [done|]. cbn.
  destruct (q a) eqn:Eq; cbn; rewrite IH; [done|].
  destruct (p a) eqn:Ep; [|done]. apply H in Ep. congruence.
Qed.

Lemma find_app_or {A : Type} (p : A -> bool) (l k : list A) :
  List.find p (l ++ k) =
  match List.find p l with Some x => Some x | None => List.find p k end.
Proof.
  induction l as [|x l IH]; [done|]. cbn. by destruct (p x).
Qed.

Lemma last_app_ne {A : Type} (l1 l2 : list A) (d : A) :
  l2 <> [] -> List.last (l1 ++ l2) d = List.last l2 d.
Proof.
  intros H. induction l1 as [|x l1 IH]; [done|].
  cbn [app]. rewrite last_cons_ne; [done|]. by destruct l1, l2.
Qed.

(** ** Display helpers *)

Section JsMap.

Context {A : Type}.
Implicit Types (m : list (option jsval * A)) (k key : option jsval).

Lemma jsmap_get_alter (f : A -> A) m key k :
  jsmap_get (jsmap_alter f m key) k =
  if strict_equal key k then f <$> jsmap_get m k else jsmap_get m k.
Proof.
  induction m as [|[k0 x] m IH]; cbn.
  - by destruct (strict_equal key k).
  - destruct (strict_equal k0 key) eqn:E; cbn.
    + apply strict_equal_true in E as ->.
      by destruct (strict_equal key k).
    + destruct (strict_equal k0 k) eqn:E2.
      * apply strict_equal_true in E2 as ->.
        destruct (strict_equal key k) eqn:E3; [|done].
        apply strict_equal_true in E3 as ->.
        apply strict_equal_false in E. done.
      * apply IH.
Qed.

Lemma jsmap_keys_alter (f : A -> A) m key :
  map fst (jsmap_alter f m key) = map fst m.
Proof.
  induction m as [|[k0 x] m IH]; cbn; [done|].
  destruct (strict_equal k0 key); cbn; by rewrite ?IH.
Qed.

Lemma jsmap_has_elem m key : jsmap_has m key = true <-> key ∈ map fst m.
Proof.
  induction m as [|[k0 x] m IH]; cbn.
  - split; [done | by intros ?%elem_of_nil].
  - rewrite orb_true_iff, strict_equal_true, IH, elem_of_cons.
    split; (intros [H|H]; [left; by symmetry | by right]).
Qed.

Lemma jsmap_keys_set_fresh m key v :
  jsmap_has m key = false -> jsmap_set m key v = m ++ [(key, v)].
Proof.
  induction m as [|[k0 x] m IH]; cbn; [done|].
  intros [E H]%orb_false_iff. rewrite E. by rewrite IH.
Qed.

End JsMap.

Section JsMapMore.

Context {A : Type}.
Implicit Types (m : list (option jsval * A)) (k key : option jsval).

Lemma jsmap_alter_fresh (f : A -> A) m key v :
  jsmap_has m key = false ->
  jsmap_alter f (m ++ [(key, v)]) key = m ++ [(key, f v)].
Proof.
  induction m as [|[k0 x] m IH]; cbn.
  - intros _. assert (E : strict_equal key key = true) by by apply strict_equal_true.
    by rewrite E.
  - intros [E H]%orb_false_iff. rewrite E. by rewrite IH.
Qed.

Lemma jsmap_get_None m key : jsmap_has m key = false -> jsmap_get m key = None.
Proof.
  induction m as [|[k0 x] m IH]; cbn; [done|].
  intros [E H]%orb_false_iff. rewrite E. auto.
Qed.

Lemma jsmap_get_Some m key : jsmap_has m key = true -> is_Some (jsmap_get m key).
Proof.
  induction m as [|[k0 x] m IH]; cbn; [done|].
  destruct (strict_equal k0 key); cbn; eauto.
Qed.

End JsMapMore.

Import LiveDataUtils.

Lemma group_bet_cases (G : list (option jsval * list record)) (bet : record) :
  group_bet G bet =
  if jsmap_has G (bet !! "mId")
  then jsmap_alter (fun l => l ++ [bet]) G (bet !! "mId")
  else G ++ [(bet !! "mId", [bet])].
Proof.
  unfold group_bet. destruct (jsmap_has G (bet !! "mId")) eqn:E; cbn [negb]; [done|].
  rewrite jsmap_keys_set_fresh by done. by rewrite jsmap_alter_fresh.
Qed.

Lemma group_bet_get (G : list (option jsval * list record)) (bet : record)
    (k : option jsval) :
  jsmap_get (group_bet G bet) k =
  if strict_equal (bet !! "mId") k
  then Some (default [] (jsmap_get G k) ++ [bet])
  else jsmap_get G k.
Proof.
  rewrite group_bet_cases.
  destruct (jsmap_has G (bet !! "mId")) eqn:E.
  - rewrite jsmap_get_alter.
    destruct (strict_equal (bet !! "mId") k) eqn:E2; [|done].
    apply strict_equal_true in E2 as <-.
    by destruct (jsmap_get_Some _ _ E) as [l ->].
  - destruct (strict_equal (bet !! "mId") k) eqn:E2.
    + apply strict_equal_true in E2 as <-.
      rewrite (jsmap_get_None _ _ E). cbn.
      induction G as [|[k0 x] G IH]; cbn in *.
      * assert (E' : strict_equal (bet !! "mId") (bet !! "mId") = true)
          by by apply strict_equal_true.
        by rewrite E'.
      * apply orb_false_iff in E as [E1 E2]. rewrite E1. auto.
    + induction G as [|[k0 x] G IH]; cbn in *.
      * by rewrite E2.
      * apply orb_false_iff in E as [E1 E3].
        destruct (strict_equal k0 k); [done | auto].
Qed.

Lemma fold_group_bet_get (L : list record) (G : list (option jsval * list record))
    (k : option jsval) :
  jsmap_get (fold_left group_bet L G) k =
  let F := List.filter (fun bet => strict_equal (bet !! "mId") k) L in
  match jsmap_get G k with
  | Some l => Some (l ++ F)
  | None => match F with [] => None | _ => Some F end
  end.
Proof.
  revert G. induction L as [|bet L IH]; intros G; cbn [fold_left List.filter].
  - cbv zeta. destruct (jsmap_get G k); [by rewrite app_nil_r | done].
  - rewrite IH. cbv zeta. rewrite group_bet_get.
    destruct (strict_equal (bet !! "mId") k) eqn:E.
    + destruct (jsmap_get G k) as [l|]; cbn [default].
      * by rewrite <- app_assoc.
      * done.
    + done.
Qed.

(** Grouping and filtering agree: what the grouped map holds under a match
    id is what [filterBetsByMatch] returns for it, and the id is a key only
    when some bet carries it. *)
Theorem grouped_bets_are_the_filtered_bets (bs : list record) :
  (forall k : option jsval,
     jsmap_get (groupBetsByMatch bs) k =
     match List.filter (fun bet => strict_equal (bet !! "mId") k) bs with
     | [] => None
     | l => Some l
     end) /\
  (forall matchId : Z,
     jsmap_get (groupBetsByMatch bs) (Some (JNum matchId)) =
     match filterBetsByMatch bs matchId with
     | [] => None
     | l => Some l
     end) /\
  (forall k : option jsval,
     jsmap_has (groupBetsByMatch bs) k = true <->
     exists bet, bet ∈ bs /\ bet !! "mId" = k).
Proof.
  assert (H : forall k : option jsval,
     jsmap_get (groupBetsByMatch bs) k =
     match List.filter (fun bet => strict_equal (bet !! "mId") k) bs with
     | [] => None
     | l => Some l
     end).
  { intros k. unfold groupBetsByMatch. rewrite fold_group_bet_get. cbn.
    by destruct (List.filter _ bs). }
  split; [exact H|]. split; [intros matchId; apply H|].
  intros k. split.
  - intros Hk. apply jsmap_get_Some in Hk as [l Hl]. rewrite H in Hl.
    destruct (List.filter _ bs) as [|bet l'] eqn:E; [done|].
    assert (Hin : In bet (List.filter (fun bet => strict_equal (bet !! "mId") k) bs))
      by (rewrite E; by left).
    apply filter_In in Hin as [Hin Hb].
    exists bet. split; [by apply list_elem_of_In | by apply strict_equal_true].
  - intros (bet & Hin & Hb).
    destruct (jsmap_has (groupBetsByMatch bs) k) eqn:E; [done|].
    apply jsmap_get_None in E. rewrite H in E.
    assert (Hf : In bet (List.filter (fun bet => strict_equal (bet !! "mId") k) bs)).
    { apply filter_In. split; [by apply list_elem_of_In | by apply strict_equal_true]. }
    destruct (List.filter _ bs); [done | discriminate].
Qed.

Lemma jsmap_alter_concat (G : list (option jsval * list record)) (k : option jsval)
    (bet : record) :
  jsmap_has G k = true ->
  concat (map snd (jsmap_alter (fun l => l ++ [bet]) G k))
  ≡ₚ concat (map snd G) ++ [bet].
Proof.
  induction G as [|[k0 x] G IH]; cbn; [done|].
  destruct (strict_equal k0 k) eqn:E; cbn.
  - intros _. rewrite <- !app_assoc. apply Permutation_app_head.
    apply Permutation_app_comm.
  - intros H. rewrite IH by done. by rewrite app_assoc.
Qed.

Lemma group_bet_keys (G : list (option jsval * list record)) (bet : record) :
  map fst (group_bet G bet) =
  map fst G ++ (if jsmap_has G (bet !! "mId") then [] else [bet !! "mId"]).
Proof.
  rewrite group_bet_cases. destruct (jsmap_has G (bet !! "mId")).
  - by rewrite jsmap_keys_alter, app_nil_r.
  - by rewrite map_app.
Qed.

Lemma fold_group_bet_partition (L : list record) (G : list (option jsval * list record)) :
  NoDup (map fst G) ->
  NoDup (map fst (fold_left group_bet L G)) /\
  concat (map snd (fold_left group_bet L G)) ≡ₚ concat (map snd G) ++ L.
Proof.
  revert G. induction L as [|bet L IH]; intros G HG; cbn [fold_left].
  - by rewrite app_nil_r.
  - destruct (IH (group_bet G bet)) as [H1 H2].
    + rewrite group_bet_keys. destruct (jsmap_has G (bet !! "mId")) eqn:E.
      * by rewrite app_nil_r.
      * apply NoDup_app. split; [done|]. split; [|apply NoDup_singleton].
        intros x Hx ->%list_elem_of_singleton.
        apply jsmap_has_elem in Hx. congruence.
    + split; [done|]. rewrite H2.
      rewrite (cons_middle bet), app_assoc. apply Permutation_app_tail.
      rewrite group_bet_cases. destruct (jsmap_has G (bet !! "mId")) eqn:E.
      * by apply jsmap_alter_concat.
      * rewrite map_app, concat_app. cbn. done.
Qed.

(** The grouped map is a partition of the bets: no key twice, no empty
    group, every bet under its own match id, nothing lost or repeated. *)
Theorem grouping_partitions_the_bets (bs : list record) :
  let G := groupBetsByMatch bs in
  NoDup (map fst G) /\
  concat (map snd G) ≡ₚ bs /\
  (forall k l, (k, l) ∈ G ->
     l <> [] /\ l = List.filter (fun bet => strict_equal (bet !! "mId") k) bs) /\
  (length G <= length bs)%nat.
Proof.
  cbv zeta.
  destruct (fold_group_bet_partition bs [] (NoDup_nil_2)) as [H1 H2].
  fold (groupBetsByMatch bs) in H1, H2. cbn in H2.
  assert (H3 : forall k l, (k, l) ∈ groupBetsByMatch bs ->
     l <> [] /\ l = List.filter (fun bet => strict_equal (bet !! "mId") k) bs).
  { intros k l Hin.
    assert (Hg : jsmap_get (groupBetsByMatch bs) k = Some l).
    { revert H1 Hin. generalize (groupBetsByMatch bs) as G.
      induction G as [|[k0 x] G IH]; cbn; [by intros _ ?%elem_of_nil|].
      intros Hnd Hin. apply NoDup_cons in Hnd as [Hk0 Hnd].
      apply elem_of_cons in Hin as [[= <- <-]|Hin].
      - assert (E : strict_equal k k = true) by by apply strict_equal_true.
        by rewrite E.
      - destruct (strict_equal k0 k) eqn:E; [|by apply IH].
        apply strict_equal_true in E as ->. exfalso. apply Hk0.
        apply list_elem_of_fmap. by exists (k, l). }
    unfold groupBetsByMatch in Hg. rewrite fold_group_bet_get in Hg.
    cbn in Hg. destruct (List.filter _ bs) eqn:E; [done|].
    injection Hg as <-. done. }
  repeat split; try done.
  - apply (H3 k l H).
  - apply (H3 k l H).
  - rewrite <- (length_map fst).
    transitivity (length (concat (map snd (groupBetsByMatch bs)))).
    2: { by rewrite H2. }
    clear H1 H2. revert H3. generalize (groupBetsByMatch bs) as G.
    induction G as [|[k0 x] G IH]; intros H3; cbn; [lia|].
    rewrite length_app.
    assert (x <> []) by (apply (H3 k0 x); by left).
    assert (length (map fst G) <= length (concat (map snd G)))%nat.
    { apply IH. intros k l Hin. apply H3. by right. }
    destruct x; [done|]. cbn. lia.
Qed.

Lemma add_league_cases (M : list (option jsval * League)) (header : record) :
  add_league M header =
  if jsmap_has M (header !! "lid") then M
  else M ++ [(header !! "lid",
              mkLeague (header !! "lid") (header !! "lg") (header !! "lsh"))].
Proof.
  unfold add_league. destruct (jsmap_has M (header !! "lid")) eqn:E; cbn [negb]; [done|].
  by apply jsmap_keys_set_fresh.
Qed.

Lemma unique_leagues_invariant (hs : list record) :
  let M := fold_left add_league hs [] in
  NoDup (map fst M) /\
  Forall (fun e : option jsval * League => fst e = lg_id (snd e)) M /\
  (forall h, h ∈ hs -> h !! "lid" ∈ map fst M) /\
  (forall e, e ∈ M ->
     exists pre h post,
       hs = pre ++ h :: post /\
       Forall (fun h' : record => h' !! "lid" <> h !! "lid") pre /\
       e = (h !! "lid", mkLeague (h !! "lid") (h !! "lg") (h !! "lsh"))) /\
  (length M <= length hs)%nat.
Proof.
  induction hs as [|h hs IH] using rev_ind; cbv zeta.
  - cbn. repeat split; try constructor.
    + by intros ? ?%elem_of_nil.
    + by intros ? ?%elem_of_nil.
  - rewrite fold_left_snoc. cbv zeta in IH.
    destruct IH as (I1 & I2 & I3 & I4 & I5). rewrite length_app. cbn [length].
    rewrite add_league_cases.
    destruct (jsmap_has (fold_left add_league hs []) (h !! "lid")) eqn:E.
    + repeat split; try done.
      * intros h' [Hin| ->%list_elem_of_singleton]%elem_of_app; [by apply I3|].
        by apply jsmap_has_elem.
      * intros e He. destruct (I4 e He) as (pre & h0 & post & -> & Hpre & ->).
        exists pre, h0, (post ++ [h]). by rewrite <- app_assoc.
      * lia.
    + assert (Hfresh : h !! "lid" ∉ map fst (fold_left add_league hs [])).
      { intros Hin%jsmap_has_elem. congruence. }
      repeat split.
      * rewrite map_app. apply NoDup_app. split; [done|].
        split; [|apply NoDup_singleton].
        by intros x Hx ->%list_elem_of_singleton.
      * apply Forall_app. split; [done|]. by constructor.
      * intros h' [Hin| ->%list_elem_of_singleton]%elem_of_app; rewrite map_app.
        -- apply elem_of_app. left. by apply I3.
        -- apply elem_of_app. right. cbn. by left.
      * intros e [He| ->%list_elem_of_singleton]%elem_of_app.
        -- destruct (I4 e He) as (pre & h0 & post & -> & Hpre & ->).
           exists pre, h0, (post ++ [h]). by rewrite <- app_assoc.
        -- exists hs, h, []. repeat split.
           apply Forall_forall. intros h' Hin E'. apply Hfresh.
           rewrite <- E'. by apply I3.
      * rewrite length_app. cbn. lia.
Qed.

(** [getUniqueLeagues] lists every league once, with the name and short name
    of the first header that carries its id. *)
Theorem unique_leagues_come_from_first_header (hs : list record) :
  let L := getUniqueLeagues hs in
  NoDup (map lg_id L) /\
  (forall h, h ∈ hs -> exists l, l ∈ L /\ lg_id l = h !! "lid") /\
  (forall l, l ∈ L ->
     exists pre h post,
       hs = pre ++ h :: post /\
       Forall (fun h' : record => h' !! "lid" <> h !! "lid") pre /\
       l = mkLeague (h !! "lid") (h !! "lg") (h !! "lsh")) /\
  (length L <= length hs)%nat.
Proof.
  cbv zeta. unfold getUniqueLeagues.
  destruct (unique_leagues_invariant hs) as (I1 & I2 & I3 & I4 & I5).
  assert (Hkeys : map lg_id (map snd (fold_left add_league hs []))
                  = map fst (fold_left add_league hs [])).
  { rewrite map_map. apply map_ext_Forall.
    eapply Forall_impl; [exact I2|]. by intros [k l] ->. }
  assert (Hcover : forall h, h ∈ hs ->
            exists l, l ∈ map snd (fold_left add_league hs []) /\ lg_id l = h !! "lid").
  { intros h Hin. apply I3 in Hin.
    apply list_elem_of_fmap in Hin as ([k l] & Hk & Hin). cbn in Hk. subst k.
    exists l. split; [apply list_elem_of_fmap; by exists (h !! "lid", l)|].
    rewrite Forall_forall in I2. symmetry. apply (I2 _ Hin). }
  split; [by rewrite Hkeys|]. split; [exact Hcover|]. split.
  - intros l Hin. apply list_elem_of_fmap in Hin as ([k l'] & -> & Hin).
    destruct (I4 _ Hin) as (pre & h & post & -> & Hpre & [= -> ->]).
    by exists pre, h, post.
  - by rewrite length_map.
Qed.

Section StableSort.

Context {A : Type} (cmp : A -> A -> Z) (g : A -> Z).
Hypothesis cmp_by_key : forall a b, cmp a b = g a - g b.

Lemma sort_insert_perm (x : A) (l : list A) : sort_insert cmp x l ≡ₚ x :: l.
Proof.
  induction l as [|y l IH]; cbn; [done|].
  destruct (cmp x y <=? 0); [done|].
  rewrite IH. apply perm_swap.
Qed.

Lemma sort_by_perm (l : list A) : sort_by cmp l ≡ₚ l.
Proof.
  induction l as [|x l IH]; cbn; [done|].
  fold (sort_by cmp l). by rewrite sort_insert_perm, IH.
Qed.

Lemma sort_insert_sorted (x : A) (l : list A) :
  StronglySorted (fun a b => g a <= g b) l ->
  StronglySorted (fun a b => g a <= g b) (sort_insert cmp x l).
Proof.
  induction 1 as [|y l Hs IH Hy]; cbn.
  - repeat constructor.
  - rewrite cmp_by_key. destruct (g x - g y <=? 0) eqn:E.
    + apply Z.leb_le in E. constructor; [by constructor|].
      constructor; [lia|]. eapply Forall_impl; [exact Hy|]. cbn. intros; lia.
    + apply Z.leb_gt in E. constructor; [done|].
      rewrite sort_insert_perm. constructor; [lia | done].
Qed.

Lemma sort_by_sorted (l : list A) :
  StronglySorted (fun a b => g a <= g b) (sort_by cmp l).
Proof.
  induction l as [|x l IH]; cbn; [constructor|].
  by apply sort_insert_sorted.
Qed.

Lemma sort_insert_stable (x : A) (l : list A) (n : Z) :
  List.filter (fun a => g a =? n) (sort_insert cmp x l)
  = List.filter (fun a => g a =? n) (x :: l).
Proof.
  induction l as [|y l IH]; [done|].
  cbn [sort_insert]. rewrite cmp_by_key.
  destruct (g x - g y <=? 0) eqn:E; [done|].
  apply Z.leb_gt in E. cbn [List.filter] in *. rewrite IH.
  destruct (g x =? n) eqn:Ex, (g y =? n) eqn:Ey; try done.
  apply Z.eqb_eq in Ex, Ey. lia.
Qed.

Lemma sort_by_stable (l : list A) (n : Z) :
  List.filter (fun a => g a =? n) (sort_by cmp l)
  = List.filter (fun a => g a =? n) l.
Proof.
  induction l as [|x l IH]; [done|].
  cbn [sort_by fold_right]. fold (sort_by cmp l).
  rewrite sort_insert_stable. cbn [List.filter]. by rewrite IH.
Qed.

End StableSort.

(** [sortMatchesByKickoff] returns the headers in kick-off order, each header
    once, and headers with the same kick-off time in the order they had. *)
Theorem kickoff_sort_is_stable (hs : list record) (ascending : bool) :
  Forall (fun h => is_Some (kot h)) hs ->
  exists out,
    sortMatchesByKickoff hs ascending = Some out /\
    out ≡ₚ hs /\
    StronglySorted
      (fun a b => exists x y, kot a = Some x /\ kot b = Some y /\
                              if ascending then x <= y else y <= x) out /\
    (forall n, List.filter (fun h => bool_decide (kot h = Some n)) out
               = List.filter (fun h => bool_decide (kot h = Some n)) hs).
Proof.
  intros Hk. unfold sortMatchesByKickoff.
  assert (Hall : forallb (fun h => bool_decide (is_Some (kot h))) hs = true).
  { apply forallb_forall. intros h Hin. apply bool_decide_eq_true.
    rewrite Forall_forall in Hk. apply Hk. by apply list_elem_of_In. }
  rewrite Hall. eexists. split; [reflexivity|].
  set (cmp := fun a b : record =>
                if ascending then default 0 (kot a) - default 0 (kot b)
                else default 0 (kot b) - default 0 (kot a)).
  set (g := fun h : record =>
              if ascending then default 0 (kot h) else - default 0 (kot h)).
  assert (Hcmp : forall a b, cmp a b = g a - g b).
  { intros a b. unfold cmp, g. destruct ascending; lia. }
  assert (Hperm : sort_by cmp hs ≡ₚ hs) by apply sort_by_perm.
  assert (Hk' : Forall (fun h => is_Some (kot h)) (sort_by cmp hs))
    by by rewrite Hperm.
  split; [done|]. split.
  - pose proof (sort_by_sorted cmp g Hcmp hs) as Hs.
    revert Hk' Hs. generalize (sort_by cmp hs) as out.
    induction out as [|a out IH]; intros Hk' Hs; [constructor|].
    apply StronglySorted_inv in Hs as [Hs Ha].
    apply Forall_cons in Hk' as [[x Hx] Hk'].
    constructor; [by apply IH|].
    rewrite Forall_forall in Ha, Hk'. apply Forall_forall. intros b Hb.
    destruct (Hk' b Hb) as [y Hy]. exists x, y. split; [done|]. split; [done|].
    specialize (Ha b Hb). unfold g in Ha. rewrite Hx, Hy in Ha. cbn in Ha.
    destruct ascending; lia.
  - intros n.
    set (m := if ascending then n else - n).
    rewrite (filter_ext_Forall _ (fun h => g h =? m) (sort_by cmp hs)).
    2: { eapply Forall_impl; [exact Hk'|]. intros h [x Hx]. cbn.
         unfold g, m. rewrite Hx. cbn.
         destruct (bool_decide_reflect (Some x = Some n)) as [[= ->]|Hne].
         - symmetry. apply Z.eqb_eq. by destruct ascending.
         - symmetry. apply Z.eqb_neq. intros E. apply Hne. f_equal.
           destruct ascending; lia. }
    rewrite (filter_ext_Forall (fun h => bool_decide (kot h = Some n))
               (fun h => g h =? m) hs).
    2: { eapply Forall_impl; [exact Hk|]. intros h [x Hx]. cbn.
         unfold g, m. rewrite Hx. cbn.
         destruct (bool_decide_reflect (Some x = Some n)) as [[= ->]|Hne].
         - symmetry. apply Z.eqb_eq. by destruct ascending.
         - symmetry. apply Z.eqb_neq. intros E. apply Hne. f_equal.
           destruct ascending; lia. }
    by apply sort_by_stable.
Qed.

Lemma kickoff_sort_is_stable_witness :
  exists out,
    sortMatchesByKickoff
      [ {[ "id" := JNum 1; "kot" := JNum 30 ]};
        {[ "id" := JNum 2; "kot" := JNum 10 ]};
        {[ "id" := JNum 3; "kot" := JNum 10 ]} ] true = Some out /\
    out ≡ₚ [ {[ "id" := JNum 1; "kot" := JNum 30 ]};
             {[ "id" := JNum 2; "kot" := JNum 10 ]};
             {[ "id" := JNum 3; "kot" := JNum 10 ]} ] /\
    StronglySorted
      (fun a b => exists x y, kot a = Some x /\ kot b = Some y /\
                              if true then x <= y else y <= x) out /\
    (forall n, List.filter (fun h => bool_decide (kot h = Some n)) out
               = List.filter (fun h => bool_decide (kot h = Some n))
                   [ {[ "id" := JNum 1; "kot" := JNum 30 ]};
                     {[ "id" := JNum 2; "kot" := JNum 10 ]};
                     {[ "id" := JNum 3; "kot" := JNum 10 ]} ]).
Proof.
  apply (kickoff_sort_is_stable
           [ {[ "id" := JNum 1; "kot" := JNum 30 ]};
             {[ "id" := JNum 2; "kot" := JNum 10 ]};
             {[ "id" := JNum 3; "kot" := JNum 10 ]} ] true).
  repeat constructor; vm_compute; eauto.
Defined.

(** Three headers sorted from the latest kick-off to the earliest, and a
    header without a kick-off time. *)
Example kickoff_sort_of_sample :
  sortMatchesByKickoff
    [ {[ "id" := JNum 1; "kot" := JNum 30 ]};
      {[ "id" := JNum 2; "kot" := JNum 10 ]};
      {[ "id" := JNum 3; "kot" := JNum 10 ]} ] false
  = Some [ {[ "id" := JNum 1; "kot" := JNum 30 ]};
           {[ "id" := JNum 2; "kot" := JNum 10 ]};
           {[ "id" := JNum 3; "kot" := JNum 10 ]} ] /\
  sortMatchesByKickoff [ {[ "id" := JNum 1 ]} ] true = None.
Proof. split; reflexivity. Qed.

Lemma status_text_of (h : record) (code label : string) :
  h !! "ls" = Some (JStr code) ->
  dict_get statusMap code = Some label -> label <> "" ->
  getMatchStatusText h = Own label.
Proof.
  intros H1 H2 H3. unfold getMatchStatusText, literal_or. rewrite H1. cbn [property_key js_to_string].
  rewrite H2. cbn. destruct (String.eqb label "") eqn:E; [|done].
  by apply String.eqb_eq in E.
Qed.

(** Every match that [isMatchLive] accepts is kept by [getActiveMatches],
    which also keeps the matches at full time; the matches it keeps get
    one of three fixed status texts. *)
Theorem live_matches_are_active_matches (hs : list record) :
  (forall h, h ∈ hs -> isMatchLive h = true -> h ∈ getActiveMatches hs) /\
  List.filter isMatchLive (getActiveMatches hs) = List.filter isMatchLive hs /\
  (forall h, h ∈ getActiveMatches hs ->
     h ∈ hs /\
     (getMatchStatusText h = Own "Live" \/ getMatchStatusText h = Own "Half Time"
      \/ getMatchStatusText h = Own "Full Time")) /\
  (forall h, isMatchLive h = true ->
     getMatchStatusText h = Own "Live" \/ getMatchStatusText h = Own "Half Time") /\
  (forall h, h !! "ls" = Some (JStr "FT") ->
     isMatchLive h = false /\ getMatchStatusText h = Own "Full Time" /\
     (h ∈ hs -> h ∈ getActiveMatches hs)).
Proof.
  assert (Hlive : forall h, isMatchLive h = true ->
            h !! "ls" = Some (JStr "RUNNING") \/ h !! "ls" = Some (JStr "HT")).
  { intros h. unfold isMatchLive. rewrite orb_true_iff, !strict_equal_true. tauto. }
  split; [|split; [|split; [|split]]].
  - intros h Hin Hl. unfold getActiveMatches. apply list_elem_of_In, filter_In.
    split; [by apply list_elem_of_In|].
    unfold isMatchLive in Hl. by rewrite Hl.
  - unfold getActiveMatches. apply filter_filter_implied.
    intros h Hl. unfold isMatchLive in Hl. by rewrite Hl.
  - intros h Hin. unfold getActiveMatches in Hin.
    apply list_elem_of_In, filter_In in Hin as [Hin Hc].
    split; [by apply list_elem_of_In|].
    rewrite !orb_true_iff, !strict_equal_true in Hc.
    destruct Hc as [[Hc|Hc]|Hc].
    + left. by apply (status_text_of h "RUNNING").
    + right; left. by apply (status_text_of h "HT").
    + right; right. by apply (status_text_of h "FT").
  - intros h Hl. destruct (Hlive h Hl) as [Hc|Hc].
    + left. by apply (status_text_of h "RUNNING").
    + right. by apply (status_text_of h "HT").
  - intros h Hft. split; [|split].
    + unfold isMatchLive. rewrite Hft. done.
    + by apply (status_text_of h "FT").
    + intros Hin. unfold getActiveMatches. apply list_elem_of_In, filter_In.
      split; [by apply list_elem_of_In|]. rewrite Hft. done.
Qed.

Lemma includes_spec (codes : list string) (v : option jsval) :
  includes codes v = true <-> exists code, code ∈ codes /\ v = Some (JStr code).
Proof.
  unfold includes. rewrite existsb_exists. split.
  - intros (c & Hin & Hc). apply strict_equal_true in Hc.
    exists c. split; [by apply list_elem_of_In | done].
  - intros (c & Hin & ->). exists c.
    split; [by apply list_elem_of_In | by apply strict_equal_true].
Qed.

(** [filterHeadersBySport] keeps headers shown in live whose sport code is
    one of the codes of the sport; [getSportName] has a name for every such
    code, and no header is kept for two sports. *)
Theorem sport_filter_keeps_named_sports (hs : list record) (sp : Sport) :
  (forall h, h ∈ filterHeadersBySport hs sp ->
     h ∈ hs /\ truthy_opt (h !! "liv") = true /\
     exists code label,
       h !! "s" = Some (JStr code) /\ code ∈ sportCodeMap sp /\
       dict_get sportMap code = Some label /\
       getSportName (h !! "s") = Own label) /\
  (forall h, h ∈ hs -> truthy_opt (h !! "liv") = true ->
     (exists code, code ∈ sportCodeMap sp /\ h !! "s" = Some (JStr code)) ->
     h ∈ filterHeadersBySport hs sp) /\
  (forall sp' h, sp' <> sp ->
     h ∈ filterHeadersBySport hs sp -> h ∉ filterHeadersBySport hs sp') /\
  filterHeadersBySport (filterHeadersBySport hs sp) sp = filterHeadersBySport hs sp.
Proof.
  assert (Hkept : forall sp0 h, h ∈ filterHeadersBySport hs sp0 ->
            h ∈ hs /\ truthy_opt (h !! "liv") = true /\
            exists code, code ∈ sportCodeMap sp0 /\ h !! "s" = Some (JStr code)).
  { intros sp0 h Hin. unfold filterHeadersBySport in Hin.
    apply list_elem_of_In, filter_In in Hin as [Hin Hc].
    apply andb_true_iff in Hc as [Hc Hl]. apply includes_spec in Hc.
    split; [by apply list_elem_of_In | done]. }
  split; [|split; [|split]].
  - intros h Hin. destruct (Hkept sp h Hin) as (H1 & H2 & code & Hc & Hs).
    split; [done|]. split; [done|].
    assert (Hl : exists label, dict_get sportMap code = Some label /\
                               getSportName (Some (JStr code)) = Own label).
    { destruct sp; cbn in Hc;
        repeat (apply elem_of_cons in Hc as [->|Hc]; [eexists; split; reflexivity|]);
        by apply elem_of_nil in Hc. }
    destruct Hl as (label & Hl1 & Hl2).
    exists code, label. rewrite Hs. done.
  - intros h Hin Hl Hc. unfold filterHeadersBySport.
    apply list_elem_of_In, filter_In. split; [by apply list_elem_of_In|].
    apply andb_true_iff. split; [|done]. by apply includes_spec.
  - intros sp' h Hne Hin Hin'.
    destruct (Hkept sp h Hin) as (_ & _ & code & Hc & Hs).
    destruct (Hkept sp' h Hin') as (_ & _ & code' & Hc' & Hs').
    rewrite Hs in Hs'. injection Hs' as <-.
    destruct sp, sp'; try done; cbn in Hc, Hc';
      repeat (apply elem_of_cons in Hc as [->|Hc]);
      try (by apply elem_of_nil in Hc);
      repeat (apply elem_of_cons in Hc' as [Hc'|Hc']; [discriminate Hc'|]);
      by apply elem_of_nil in Hc'.
  - unfold filterHeadersBySport. by apply filter_filter_implied.
Qed.

(** ** Match and group helpers of [SportMappingService] *)

Lemma getEnhancedBettingDataForMatch_parts (bettingOptions : option BettingOptions)
    (matchId : Z) (bs hs : list record) :
  getEnhancedBettingDataForMatch bettingOptions matchId bs hs =
  let matchBets :=
    List.filter (fun bet => strict_equal (bet !! "mId") (Some (JNum matchId))) bs in
  match getSportCodeFromMatchCode (head matchBets ≫= (fun b => b !! "mc")) hs with
  | Some sportCode =>
      if truthy sportCode then enhanceBetsData bettingOptions matchBets sportCode
      else Some []
  | None => Some []
  end.
Proof.
  unfold getEnhancedBettingDataForMatch, getSportCodeFromMatchCode, enhanceBetsData.
  cbv zeta. by destruct (List.find _ hs).
Qed.

Section JsMapValues.

Context {A B : Type} (f : A -> B).

Lemma on_values_has (m : list (option jsval * A)) (k : option jsval) :
  jsmap_has (on_values f m) k = jsmap_has m k.
Proof.
  unfold on_values. induction m as [|[k0 x] m IH]; cbn; [done | by rewrite IH].
Qed.

Lemma on_values_set (m : list (option jsval * A)) (k : option jsval) (v : A) :
  on_values f (jsmap_set m k v) = jsmap_set (on_values f m) k (f v).
Proof.
  unfold on_values. induction m as [|[k0 x] m IH]; cbn; [done|].
  destruct (strict_equal k0 k); cbn; [done | by rewrite IH].
Qed.

Lemma on_values_alter (h : A -> A) (h' : B -> B) (m : list (option jsval * A))
    (k : option jsval) :
  (forall x, f (h x) = h' (f x)) ->
  on_values f (jsmap_alter h m k) = jsmap_alter h' (on_values f m) k.
Proof.
  intros H. unfold on_values. induction m as [|[k0 x] m IH]; cbn; [done|].
  destruct (strict_equal k0 k); cbn; [by rewrite H | by rewrite IH].
Qed.

End JsMapValues.

Lemma jsmap_alter_Forall {A : Type} (P : option jsval * A -> Prop) (h : A -> A)
    (m : list (option jsval * A)) (k : option jsval) :
  (forall x, P (k, x) -> P (k, h x)) ->
  Forall P m -> Forall P (jsmap_alter h m k).
Proof.
  intros H. induction 1 as [|[k0 x] m Hx Hm IH]; cbn; [constructor|].
  destruct (strict_equal k0 k) eqn:E.
  - apply strict_equal_true in E as ->. constructor; [by apply H | done].
  - by constructor.
Qed.

Lemma group_bet_with_code_cases (hs : list record)
    (G : list (option jsval * MatchBets)) (bet : record) :
  group_bet_with_code hs G bet =
  if jsmap_has G (bet !! "mId")
  then jsmap_alter (fun g => mkMatchBets (mb_bets g ++ [bet]) (mb_sportCode g))
         G (bet !! "mId")
  else G ++ [(bet !! "mId",
              mkMatchBets [bet]
                (or_unknown (getSportCodeFromMatchCode (bet !! "mc") hs)))].
Proof.
  unfold group_bet_with_code.
  destruct (jsmap_has G (bet !! "mId")) eqn:E; cbn [negb]; [done|].
  rewrite jsmap_keys_set_fresh by done. by rewrite jsmap_alter_fresh.
Qed.

Lemma or_unknown_spec (v : option jsval) :
  or_unknown v = JStr "Unknown" \/ v = Some (or_unknown v).
Proof.
  destruct v as [x|]; cbn; [|by left]. destruct (truthy x); [by right | by left].
Qed.

(** [groupBetsByMatchWithSportCodes] groups the bets as [groupBetsByMatch]
    does, and a group carries the sport code looked up for its first bet, or
    ['Unknown']. *)
Theorem match_groups_carry_the_first_sport_code (bs hs : list record) :
  let G := groupBetsByMatchWithSportCodes bs hs in
  map (fun e => (fst e, mb_bets (snd e))) G = LiveDataUtils.groupBetsByMatch bs /\
  (forall k g, (k, g) ∈ G ->
     exists b0 rest,
       mb_bets g = b0 :: rest /\ b0 !! "mId" = k /\
       mb_sportCode g = or_unknown (getSportCodeFromMatchCode (b0 !! "mc") hs) /\
       (mb_sportCode g = JStr "Unknown" \/
        exists h, h ∈ hs /\ h !! "mc" = b0 !! "mc" /\ h !! "s" = Some (mb_sportCode g))).
Proof.
  cbv zeta. split.
  - unfold groupBetsByMatchWithSportCodes, LiveDataUtils.groupBetsByMatch.
    change (on_values mb_bets (fold_left (group_bet_with_code hs) bs [])
            = fold_left LiveDataUtils.group_bet bs (on_values mb_bets [])).
    generalize (@nil (option jsval * MatchBets)) as G.
    induction bs as [|bet bs IH]; intros G; cbn [fold_left]; [done|].
    rewrite IH. f_equal. unfold group_bet_with_code, LiveDataUtils.group_bet.
    rewrite (on_values_alter mb_bets _ (fun l => l ++ [bet])) by done.
    rewrite on_values_has. destruct (jsmap_has G (bet !! "mId")); cbn [negb]; [done|].
    by rewrite on_values_set.
  - unfold groupBetsByMatchWithSportCodes.
    set (P := fun e : option jsval * MatchBets =>
                exists b0 rest,
                  mb_bets (snd e) = b0 :: rest /\ b0 !! "mId" = fst e /\
                  mb_sportCode (snd e)
                  = or_unknown (getSportCodeFromMatchCode (b0 !! "mc") hs)).
    assert (HP : Forall P (fold_left (group_bet_with_code hs) bs [])).
    { assert (H0 : Forall P []) by constructor. revert H0.
      generalize (@nil (option jsval * MatchBets)) as G.
      induction bs as [|bet bs IH]; intros G HG; cbn [fold_left]; [done|].
      apply IH. rewrite group_bet_with_code_cases.
      destruct (jsmap_has G (bet !! "mId")).
      - apply jsmap_alter_Forall; [|done].
        intros x (b0 & rest & H1 & H2 & H3). exists b0, (rest ++ [bet]).
        cbn in *. by rewrite H1.
      - apply Forall_app. split; [done|]. constructor; [|constructor].
        by exists bet, []. }
    intros k g Hin. rewrite Forall_forall in HP.
    destruct (HP _ Hin) as (b0 & rest & H1 & H2 & H3). cbn in H1, H2, H3.
    exists b0, rest. split; [done|]. split; [done|]. split; [done|].
    destruct (or_unknown_spec (getSportCodeFromMatchCode (b0 !! "mc") hs)) as [Hu|Hs].
    + left. by rewrite H3.
    + unfold getSportCodeFromMatchCode in Hs at 1.
      destruct (List.find _ hs) as [h|] eqn:Ef.
      * right. apply find_some in Ef as [Hh Hmc]. apply identical_true in Hmc as [Hmc _].
        exists h. split; [by apply list_elem_of_In|]. split; [done|].
        by rewrite H3.
      * left. rewrite H3. injection Hs as Hs. unfold or_unknown in Hs |- *.
        unfold getSportCodeFromMatchCode in *. rewrite Ef in *. done.
Qed.

Section GroupsOfEnhancedBets.

Variable bettingOptions : option BettingOptions.

Local Abbreviation push_unless_known bet :=
  (fun g : BetsOfGroup =>
     if existsb (fun b => strict_equal (ebd_id b) (ebd_id bet)) (bg_bets g)
     then g
     else mkBetsOfGroup (bg_groupInfo g) (bg_bets g ++ [bet])).

Local Abbreviation info_of groupId odd :=
  (match bettingOptions ≫=
           (fun bo => dict_get (betPickGroupMap bo) (number_to_string groupId)) with
   | Some g => CatalogGroup g
   | None => OddGroup groupId (oi_groupDescription odd) (oi_groupName odd)
   end).

Lemma group_odd_cases (bet : EnhancedBetData) (G : list (option jsval * BetsOfGroup))
    (odd : OddInfo) :
  group_odd bettingOptions bet G odd =
  match num_or_null (oi_groupId odd) with
  | None => G
  | Some groupId =>
      if jsmap_has G (Some (JNum groupId))
      then jsmap_alter (push_unless_known bet) G (Some (JNum groupId))
      else G ++ [(Some (JNum groupId), mkBetsOfGroup (info_of groupId odd) [bet])]
  end.
Proof.
  unfold group_odd. destruct (num_or_null (oi_groupId odd)) as [gid|]; [|done].
  cbv zeta. destruct (jsmap_has G (Some (JNum gid))) eqn:E; cbn [negb]; [done|].
  rewrite jsmap_keys_set_fresh by done. by rewrite jsmap_alter_fresh.
Qed.

Lemma num_or_null_Some (x : option Z) (n : Z) :
  num_or_null x = Some n <-> x = Some n /\ n <> 0.
Proof.
  unfold num_or_null. destruct x as [m|]; [|split; [done | by intros [? _]]].
  destruct (m =? 0) eqn:E.
  - apply Z.eqb_eq in E. split; [done | intros [[= ->] ?]; done].
  - apply Z.eqb_neq in E. split; [by intros [= ->] | by intros [[= ->] _]].
Qed.

Lemma existsb_id_elem (id : option jsval) (l : list EnhancedBetData) :
  existsb (fun b => strict_equal (ebd_id b) id) l = true <-> id ∈ map ebd_id l.
Proof.
  rewrite existsb_exists, list_elem_of_fmap. split.
  - intros (b & Hin & Hb). apply strict_equal_true in Hb.
    exists b. split; [done | by apply list_elem_of_In].
  - intros (b & -> & Hin). exists b.
    split; [by apply list_elem_of_In | by apply strict_equal_true].
Qed.

Lemma group_odd_ok (all : list EnhancedBetData) (bet : EnhancedBetData)
    (G : list (option jsval * BetsOfGroup)) (odd : OddInfo) :
  bet ∈ all -> odd ∈ ebd_odds bet ->
  NoDup (map fst G) -> Forall (group_ok all) G ->
  NoDup (map fst (group_odd bettingOptions bet G odd)) /\
  Forall (group_ok all) (group_odd bettingOptions bet G odd).
Proof.
  intros Hbet Hodd Hnd HG. rewrite group_odd_cases.
  destruct (num_or_null (oi_groupId odd)) as [gid|] eqn:Eg; [|done].
  apply num_or_null_Some in Eg as [Eg Hgid].
  destruct (jsmap_has G (Some (JNum gid))) eqn:E.
  - split; [by rewrite jsmap_keys_alter|].
    apply jsmap_alter_Forall; [|done].
    intros x (gid' & Hk & Hnz & Hnd' & Hne & Hall). cbn in Hk. injection Hk as <-.
    destruct (existsb _ (bg_bets x)) eqn:Ex.
    + exists gid. done.
    + exists gid. cbn. split; [done|]. split; [done|]. split; [|split].
      * rewrite map_app. apply NoDup_app. split; [done|].
        split; [|apply NoDup_singleton].
        intros id Hid ->%list_elem_of_singleton.
        apply existsb_id_elem in Hid. congruence.
      * by destruct (bg_bets x).
      * intros b [Hb| ->%list_elem_of_singleton]%elem_of_app; [by apply Hall|].
        split; [done|]. by exists odd.
  - split.
    + rewrite map_app. apply NoDup_app. split; [done|].
      split; [|apply NoDup_singleton].
      intros k Hk ->%list_elem_of_singleton. apply jsmap_has_elem in Hk. cbn in Hk. congruence.
    + apply Forall_app. split; [done|]. constructor; [|constructor].
      exists gid. cbn. split; [done|]. split; [done|]. split; [|split].
      * apply NoDup_singleton.
      * done.
      * intros b ->%list_elem_of_singleton. split; [done|]. by exists odd.
Qed.

Lemma group_odd_keeps_filed (bet : EnhancedBetData)
    (G : list (option jsval * BetsOfGroup)) (odd : OddInfo) (groupId : Z)
    (id : option jsval) :
  filed G groupId id -> filed (group_odd bettingOptions bet G odd) groupId id.
Proof.
  intros (g & Hg & Hid). rewrite group_odd_cases.
  destruct (num_or_null (oi_groupId odd)) as [gid|]; [|by exists g].
  destruct (jsmap_has G (Some (JNum gid))) eqn:E.
  - unfold filed. rewrite jsmap_get_alter, Hg.
    destruct (strict_equal (Some (JNum gid)) (Some (JNum groupId))); [|by exists g].
    cbn. eexists. split; [reflexivity|].
    destruct (existsb _ (bg_bets g)); [done|]. cbn. rewrite map_app.
    apply elem_of_app. by left.
  - exists g. split; [|done]. clear E. induction G as [|[k0 x] G IH]; [done|].
    cbn in *. destruct (strict_equal k0 (Some (JNum groupId))); [done | auto].
Qed.

Lemma group_odd_files (bet : EnhancedBetData)
    (G : list (option jsval * BetsOfGroup)) (odd : OddInfo) (groupId : Z) :
  num_or_null (oi_groupId odd) = Some groupId ->
  filed (group_odd bettingOptions bet G odd) groupId (ebd_id bet).
Proof.
  intros Hg. rewrite group_odd_cases, Hg.
  assert (Ekk : strict_equal (Some (JNum groupId)) (Some (JNum groupId)) = true)
    by by apply strict_equal_true.
  destruct (jsmap_has G (Some (JNum groupId))) eqn:E.
  - destruct (jsmap_get_Some _ _ E) as [g Hget].
    unfold filed. rewrite jsmap_get_alter, Ekk, Hget. cbn.
    eexists. split; [reflexivity|].
    destruct (existsb _ (bg_bets g)) eqn:Ex.
    + by apply existsb_id_elem.
    + cbn. rewrite map_app. apply elem_of_app. right. cbn. by left.
  - exists (mkBetsOfGroup (info_of groupId odd) [bet]). split; [|cbn; by left].
    induction G as [|[k0 x] G IH]; cbn in *.
    + by rewrite Ekk.
    + apply orb_false_iff in E as [E1 E2]. rewrite E1. auto.
Qed.

Lemma fold_group_odd (all : list EnhancedBetData) (bet : EnhancedBetData)
    (odds : list OddInfo) (G : list (option jsval * BetsOfGroup)) :
  bet ∈ all -> odds ⊆ ebd_odds bet ->
  NoDup (map fst G) -> Forall (group_ok all) G ->
  let G' := fold_left (group_odd bettingOptions bet) odds G in
  NoDup (map fst G') /\ Forall (group_ok all) G' /\
  (forall gid id, filed G gid id -> filed G' gid id) /\
  (forall odd gid, odd ∈ odds -> num_or_null (oi_groupId odd) = Some gid ->
     filed G' gid (ebd_id bet)).
Proof.
  intros Hbet. revert G. induction odds as [|odd odds IH]; intros G Hsub Hnd HG; cbv zeta.
  - cbn. repeat split; try done. by intros ? ? ?%elem_of_nil.
  - cbn [fold_left].
    destruct (group_odd_ok all bet G odd Hbet) as [Hnd1 HG1]; try done.
    { apply Hsub. by left. }
    destruct (IH (group_odd bettingOptions bet G odd)) as (I1 & I2 & I3 & I4); try done.
    { intros o Ho. apply Hsub. by right. }
    repeat split; try done.
    + intros gid id Hf. by apply I3, group_odd_keeps_filed.
    + intros o gid [->|Ho]%elem_of_cons Hg.
      * by apply I3, group_odd_files.
      * by apply (I4 o).
Qed.

End GroupsOfEnhancedBets.

(** [groupEnhancedBetsByGroup] files every bet under each group one of its
    odds names, once per bet id; a group holds only such bets. *)
Theorem enhanced_bets_are_filed_once_per_group (bettingOptions : option BettingOptions)
    (enhancedBets : list EnhancedBetData) :
  let G := groupEnhancedBetsByGroup bettingOptions enhancedBets in
  NoDup (map fst G) /\
  (forall k g, (k, g) ∈ G ->
     exists groupId,
       k = Some (JNum groupId) /\ groupId <> 0 /\
       NoDup (map ebd_id (bg_bets g)) /\ bg_bets g <> [] /\
       forall b, b ∈ bg_bets g ->
         b ∈ enhancedBets /\ exists odd, odd ∈ ebd_odds b /\ oi_groupId odd = Some groupId) /\
  (forall bet odd groupId,
     bet ∈ enhancedBets -> odd ∈ ebd_odds bet ->
     oi_groupId odd = Some groupId -> groupId <> 0 ->
     exists g b,
       jsmap_get G (Some (JNum groupId)) = Some g /\ b ∈ bg_bets g /\
       ebd_id b = ebd_id bet).
Proof.
  cbv zeta. unfold groupEnhancedBetsByGroup.
  assert (H : forall (seen todo : list EnhancedBetData) (G : list (option jsval * BetsOfGroup)),
            enhancedBets = seen ++ todo ->
            NoDup (map fst G) -> Forall (group_ok enhancedBets) G ->
            (forall bet odd gid, bet ∈ seen -> odd ∈ ebd_odds bet ->
               num_or_null (oi_groupId odd) = Some gid -> filed G gid (ebd_id bet)) ->
            let G' := fold_left
                        (fun grouped bet =>
                           fold_left (group_odd bettingOptions bet) (ebd_odds bet) grouped)
                        todo G in
            NoDup (map fst G') /\ Forall (group_ok enhancedBets) G' /\
            (forall bet odd gid, bet ∈ enhancedBets -> odd ∈ ebd_odds bet ->
               num_or_null (oi_groupId odd) = Some gid -> filed G' gid (ebd_id bet))).
  { intros seen todo. revert seen.
    induction todo as [|bet todo IH]; intros seen G Hall Hnd HG Hf; cbv zeta.
    - cbn. rewrite app_nil_r in Hall. subst seen. done.
    - cbn [fold_left].
      assert (Hbet : bet ∈ enhancedBets).
      { rewrite Hall. apply elem_of_app. right. by left. }
      destruct (fold_group_odd bettingOptions enhancedBets bet (ebd_odds bet) G)
        as (I1 & I2 & I3 & I4); try done.
      apply (IH (seen ++ [bet])); try done.
      + by rewrite <- app_assoc.
      + intros b o gid [Hb| ->%list_elem_of_singleton]%elem_of_app Ho Hg.
        * by apply I3, (Hf b o).
        * by apply (I4 o). }
  destruct (H [] enhancedBets []) as (H1 & H2 & H3); try done.
  { constructor. }
  { by intros ? ? ? ?%elem_of_nil. }
  split; [done|]. split.
  - intros k g Hin. rewrite Forall_forall in H2.
    destruct (H2 _ Hin) as (gid & Hk & Hrest). cbn in Hk, Hrest. by exists gid.
  - intros bet odd gid Hbet Hodd Hg Hnz.
    destruct (H3 bet odd gid Hbet Hodd) as (g & Hget & Hid).
    { by apply num_or_null_Some. }
    apply list_elem_of_fmap in Hid as (b & Hb & Hin). by exists g, b.
Qed.

(** ** The live bets of one match *)

Lemma enhanceBetData_fields (bettingOptions : option BettingOptions) (bet : record)
    (sc : jsval) (eb : EnhancedBetData) :
  enhanceBetData bettingOptions bet sc = Some eb ->
  ebd_id eb = bet !! "id" /\ ebd_betCode eb = bet !! "bc" /\
  ebd_matchId eb = bet !! "mId" /\ ebd_matchCode eb = bet !! "mc" /\
  ebd_specialValue eb = bet !! "sv" /\ ebd_status eb = bet !! "st" /\
  ebd_disabled eb = bet !! "d" /\ ebd_lastChangeTime eb = bet !! "lct" /\
  ebd_sportCode eb = sc.
Proof.
  unfold enhanceBetData.
  destruct (match bettingOptions with Some bo => _ | None => _ end) as [odds|];
    [|discriminate].
  cbn. by intros [= <-].
Qed.

Lemma enhanceBetData_defined (bettingOptions : option BettingOptions) (bet : record)
    (sc : jsval) :
  well_formed_om bet -> is_Some (enhanceBetData bettingOptions bet sc).
Proof.
  destruct bettingOptions as [bo|]; [apply enhanceBetData_total|].
  intros _. unfold enhanceBetData. eexists. reflexivity.
Qed.

(** [getEnhancedBettingDataForMatch] answers with one record per bet of the
    match, in the order of the store and with the properties of the bet, and
    gives all of them the sport code of the header that carries the match
    code of the first bet; it answers with nothing when that header is
    missing or has no sport code. *)
Theorem match_bets_get_the_sport_code_of_the_first (bettingOptions : option BettingOptions)
    (matchId : Z) (bs hs : list record) :
  let matchBets := LiveDataUtils.filterBetsByMatch bs matchId in
  let sportCode := getSportCodeFromMatchCode (head matchBets ≫= (fun b => b !! "mc")) hs in
  (truthy_opt sportCode = false ->
   getEnhancedBettingDataForMatch bettingOptions matchId bs hs = Some []) /\
  (forall result,
     getEnhancedBettingDataForMatch bettingOptions matchId bs hs = Some result ->
     truthy_opt sportCode = true ->
     Forall2 (fun bet eb =>
                ebd_id eb = bet !! "id" /\ ebd_matchId eb = Some (JNum matchId) /\
                ebd_matchCode eb = bet !! "mc" /\ Some (ebd_sportCode eb) = sportCode)
       matchBets result) /\
  (Forall well_formed_om matchBets ->
   is_Some (getEnhancedBettingDataForMatch bettingOptions matchId bs hs)) /\
  (matchBets = [] -> getEnhancedBettingDataForMatch bettingOptions matchId bs hs = Some []).
Proof.
  cbv zeta. rewrite getEnhancedBettingDataForMatch_parts. cbv zeta.
  change (List.filter (fun bet => strict_equal (bet !! "mId") (Some (JNum matchId))) bs)
    with (LiveDataUtils.filterBetsByMatch bs matchId).
  set (matchBets := LiveDataUtils.filterBetsByMatch bs matchId).
  set (sportCode := getSportCodeFromMatchCode _ hs).
  assert (Hmid : Forall (fun bet : record => bet !! "mId" = Some (JNum matchId)) matchBets).
  { apply Forall_forall. intros bet Hin.
    apply list_elem_of_In, filter_In in Hin as [_ Hin]. by apply strict_equal_true. }
  split; [|split; [|split]].
  - destruct sportCode as [sc|]; cbn; [|done]. by intros ->.
  - intros result. destruct sportCode as [sc|]; cbn; [|done].
    destruct (truthy sc); [|done]. intros Hr _.
    unfold enhanceBetsData in Hr. apply mapM_Some_1 in Hr.
    clear -Hr Hmid. induction Hr as [|bet eb l k Hb _ IH]; [constructor|].
    apply Forall_cons in Hmid as [Hm Hmid]. constructor; [|by apply IH].
    apply enhanceBetData_fields in Hb as (H1 & _ & H3 & H4 & _ & _ & _ & _ & H9).
    rewrite H1, H3, H4, H9, Hm. done.
  - intros Hwf. destruct sportCode as [sc|]; [|by eexists].
    destruct (truthy sc); [|by eexists].
    unfold enhanceBetsData. apply mapM_is_Some_2.
    eapply Forall_impl; [exact Hwf|]. intros bet Hb. by apply enhanceBetData_defined.
  - intros ->. destruct sportCode as [sc|]; [|done]. by destruct (truthy sc).
Qed.

(** A bet whose odds map is missing: [enhanceBetData] answers with a record
    without odds, while the enrichment with groups fails with a
    [TypeError], and with it the whole query for the match. *)
Theorem bet_without_odds_map (bettingOptions : option BettingOptions)
    (opts : EnhancedBettingOptions) (d : LiveData) (matchId : Z) (bet : record)
    (sportCode : jsval) :
  bet !! "om" = None \/ bet !! "om" = Some JNull ->
  enhanceBetData bettingOptions bet sportCode
  = Some (mkEnhancedBetData (bet !! "id") (bet !! "bc") (bet !! "mId") (bet !! "mc")
            (bet !! "sv") (bet !! "st") (bet !! "d") (bet !! "lct") sportCode []) /\
  enhance_live_bet (picks opts) sportCode bet = None /\
  (bet ∈ bets d -> bet !! "mId" = Some (JNum matchId) ->
   (exists h, List.find (fun h => strict_equal (rec_id h) (Some (JNum matchId))) (headers d)
              = Some h /\ h !! "s" = Some sportCode) ->
   truthy sportCode = true ->
   enhancedBettingDataWithGroups (Some opts) (Some d) matchId = None).
Proof.
  intros Hom.
  assert (Hf : truthy_opt (bet !! "om") = false) by (destruct Hom as [-> | ->]; done).
  assert (He : object_entries (bet !! "om") = None) by (destruct Hom as [-> | ->]; done).
  split; [|split].
  - unfold enhanceBetData. rewrite Hf. by destruct bettingOptions.
  - unfold enhance_live_bet. by rewrite He.
  - intros Hin Hmid (h & Hfind & Hs) Ht. unfold enhancedBettingDataWithGroups.
    assert (Hm : In bet (List.filter
                           (fun bet => strict_equal (bet !! "mId") (Some (JNum matchId)))
                           (bets d))).
    { apply filter_In. split; [by apply list_elem_of_In | by apply strict_equal_true]. }
    destruct (List.filter _ (bets d)) as [|b0 rest] eqn:E; [done|].
    rewrite Hfind. cbn [mbind option_bind]. rewrite Hs, Ht.
    apply mapM_None_2. apply Exists_exists. exists bet.
    split; [by apply list_elem_of_In|]. unfold enhance_live_bet. by rewrite He.
Qed.

Lemma bet_without_odds_map_witness :
  enhanceBetData (Some empty_catalog) {[ "id" := JNum 1; "mId" := JNum 5 ]} (JStr "S")
  = Some (mkEnhancedBetData (Some (JNum 1)) None (Some (JNum 5)) None None None None None
            (JStr "S") []) /\
  enhance_live_bet [] (JStr "S") {[ "id" := JNum 1; "mId" := JNum 5 ]} = None /\
  enhancedBettingDataWithGroups (Some (mkEnhancedBettingOptions [] []))
    (Some (mkLiveData [] [ {[ "id" := JNum 5; "s" := JStr "S" ]} ]
             [ {[ "id" := JNum 1; "mId" := JNum 5 ]} ] 17 0 football)) 5 = None.
Proof.
  pose proof (bet_without_odds_map (Some empty_catalog) (mkEnhancedBettingOptions [] [])
                (mkLiveData [] [ {[ "id" := JNum 5; "s" := JStr "S" ]} ]
                   [ {[ "id" := JNum 1; "mId" := JNum 5 ]} ] 17 0 football)
                5 {[ "id" := JNum 1; "mId" := JNum 5 ]} (JStr "S") (or_introl eq_refl))
    as (H1 & H2 & H3).
  split; [exact H1|]. split; [exact H2|].
  apply H3; [by left | reflexivity | | reflexivity].
  eexists. split; reflexivity.
Defined.

(** ** The Sport Mapping Table *)

Lemma sportNameMap_spec (name english : string) :
  sportNameMap name = Some english <->
  exists sp, english = sport_name sp /\ name = provider_name sp.
Proof.
  unfold sportNameMap. split.
  - destruct (String.eqb name "FUDBAL") eqn:E1.
    { apply String.eqb_eq in E1. intros [= <-]. by exists football. }
    destruct (String.eqb name "KOŠARKA") eqn:E2.
    { apply String.eqb_eq in E2. intros [= <-]. by exists basketball. }
    destruct (String.eqb name "TENIS") eqn:E3; [|done].
    apply String.eqb_eq in E3. intros [= <-]. by exists tennis.
  - intros ([] & -> & ->); reflexivity.
Qed.

Lemma sport_name_inj (sp sp' : Sport) : sport_name sp = sport_name sp' -> sp = sp'.
Proof. by destruct sp, sp'. Qed.

(** After [initializeSportMappings] the table answers for a sport with the
    last entry of the catalog that carries the provider's name of the sport,
    and with nothing when no entry does; it never holds another key than the
    three sports. *)
Theorem sport_table_answers_with_last_entry (sportsData : list SportData) (sp : Sport) :
  let m := initializeSportMappings sportsData in
  getSportMapping m sp =
    option_map (fun sd => mkSportMapping (sd_name sd) (sd_sportTypeCode sd) (sport_name sp))
      (List.find (fun sd => String.eqb (sd_name sd) (provider_name sp)) (rev sportsData)) /\
  getSportTypeCode m sp =
    option_map sd_sportTypeCode
      (List.find (fun sd => String.eqb (sd_name sd) (provider_name sp)) (rev sportsData)) /\
  (forall k mapping, m !! k = Some mapping ->
     exists sp', k = sport_name sp' /\ sm_englishName mapping = k /\
                 sm_name mapping = provider_name sp').
Proof.
  cbv zeta.
  assert (H1 : getSportMapping (initializeSportMappings sportsData) sp =
    option_map (fun sd => mkSportMapping (sd_name sd) (sd_sportTypeCode sd) (sport_name sp))
      (List.find (fun sd => String.eqb (sd_name sd) (provider_name sp)) (rev sportsData))).
  { unfold getSportMapping, initializeSportMappings.
    induction sportsData as [|sd l IH] using rev_ind; [done|].
    rewrite fold_left_app, rev_app_distr. cbn [fold_left rev app List.find].
    destruct (sportNameMap (sd_name sd)) as [english|] eqn:E.
    - apply sportNameMap_spec in E as (sp' & -> & Hn).
      destruct (decide (sport_name sp' = sport_name sp)) as [->%sport_name_inj|Hne].
      + rewrite lookup_insert_eq.
        assert (E : String.eqb (sd_name sd) (provider_name sp) = true)
          by by apply String.eqb_eq.
        by rewrite E.
      + rewrite lookup_insert_ne by done.
        rewrite IH.
        assert (E : String.eqb (sd_name sd) (provider_name sp) = false).
        { apply String.eqb_neq. rewrite Hn. intros E. apply Hne.
          by destruct sp, sp'. }
        by rewrite E.
    - rewrite IH.
      destruct (String.eqb (sd_name sd) (provider_name sp)) eqn:E2; [|done].
      apply String.eqb_eq in E2.
      assert (sportNameMap (sd_name sd) = Some (sport_name sp))
        by (apply sportNameMap_spec; by exists sp).
      congruence. }
  split; [exact H1|]. split.
  - unfold getSportTypeCode. unfold getSportMapping in H1. rewrite H1.
    by destruct (List.find _ (rev sportsData)).
  - clear H1. unfold initializeSportMappings.
    induction sportsData as [|sd l IH] using rev_ind; [done|].
    intros k mapping. rewrite fold_left_app. cbn [fold_left].
    destruct (sportNameMap (sd_name sd)) as [english|] eqn:E; [|apply IH].
    apply sportNameMap_spec in E as (sp' & -> & Hn).
    destruct (decide (k = sport_name sp')) as [->|Hne].
    + rewrite lookup_insert_eq. intros [= <-]. by exists sp'.
    + rewrite lookup_insert_ne by done. apply IH.
Qed.

(** ** The enhanced betting options *)

Lemma find_index_find {A : Type} (p : A -> bool) (l : list A) :
  List.find p l = find_index p l ≫= (fun i => l !! i).
Proof.
  induction l as [|x l IH]; [done|]. cbn.
  destruct (p x); [done|]. rewrite IH. by destruct (find_index p l).
Qed.

Lemma find_index_ext {A B : Type} (p : A -> bool) (q : B -> bool)
    (l : list A) (k : list B) :
  Forall2 (fun a b => p a = q b) l k -> find_index p l = find_index q k.
Proof.
  induction 1 as [|a b l k Hab _ IH]; [done|]. cbn. by rewrite Hab, IH.
Qed.

Lemma find_index_Some_lt {A : Type} (p : A -> bool) (l : list A) (i : nat) :
  find_index p l = Some i -> (i < length l)%nat.
Proof.
  revert i. induction l as [|x l IH]; intros i; [done|]. cbn.
  destruct (p x); [intros [= <-]; lia|].
  destruct (find_index p l) as [j|]; [|done]. intros [= <-].
  specialize (IH j eq_refl). lia.
Qed.

Lemma owns_tipType_core (c : Z) (g g' : EnhancedBetGroup) :
  group_core g = group_core g' -> owns_tipType c g = owns_tipType c g'.
Proof. unfold group_core, owns_tipType. by intros [= _ _ _ _ -> _]. Qed.

Lemma find_index_core (c : Z) (gs gs' : list EnhancedBetGroup) :
  map group_core gs = map group_core gs' ->
  find_index (owns_tipType c) gs = find_index (owns_tipType c) gs'.
Proof.
  intros H. apply find_index_ext. revert gs' H.
  induction gs as [|g gs IH]; intros [|g' gs'] H; try discriminate H; [constructor|].
  cbn [map] in H.
  assert (Hg : group_core g = group_core g') by congruence.
  assert (Ht : map group_core gs = map group_core gs') by congruence.
  constructor; [by apply owns_tipType_core | by apply IH].
Qed.

Lemma pick_of_core (gs gs' : list EnhancedBetGroup) (entry : string * BetPickMapItem) :
  map group_core gs = map group_core gs' -> pick_of gs entry = pick_of gs' entry.
Proof.
  intros H. unfold pick_of. cbv zeta.
  assert (E : option_map group_core
                (List.find (owns_tipType (bpm_tipTypeCode (snd entry))) gs)
              = option_map group_core
                  (List.find (owns_tipType (bpm_tipTypeCode (snd entry))) gs')).
  { revert gs' H. induction gs as [|g gs IH]; intros [|g' gs'] H;
      try discriminate H; [done|].
    cbn [map] in H.
    assert (Hg : group_core g = group_core g') by congruence.
    assert (Ht : map group_core gs = map group_core gs') by congruence.
    cbn [List.find].
    rewrite (owns_tipType_core _ g g' Hg).
    destruct (owns_tipType _ g'); [cbn; by f_equal | by apply IH]. }
  destruct (List.find _ gs) as [g|], (List.find _ gs') as [g'|]; try done.
  cbn in E. injection E as E1 E2 E3 E4 E5 E6. cbn. by rewrite E1, E2, E3, E4.
Qed.

Section PickLoop.

Variables (sportTypeCode : string) (gs0 : list EnhancedBetGroup).

Local Abbreviation wanted :=
  (fun e : string * BetPickMapItem => endsWith ("_" +:+ sportTypeCode) (fst e)).

Local Abbreviation home_of p :=
  (find_index (owns_tipType (ep_tipTypeCode p)) gs0).

Lemma add_pick_step (acc : EnhancedBettingOptions) (entry : string * BetPickMapItem) :
  map group_core (groups acc) = map group_core gs0 ->
  (forall i g, groups acc !! i = Some g ->
     eg_picks g = List.filter (fun p => bool_decide (home_of p = Some i)) (picks acc)) ->
  let acc' := add_pick sportTypeCode acc entry in
  map group_core (groups acc') = map group_core gs0 /\
  picks acc' = picks acc ++ (if wanted entry then [pick_of gs0 entry] else []) /\
  (forall i g, groups acc' !! i = Some g ->
     eg_picks g = List.filter (fun p => bool_decide (home_of p = Some i)) (picks acc')).
Proof.
  intros Hcore Hpicks. cbv zeta. unfold add_pick. destruct entry as [pickKey pickInfo].
  cbn [fst]. destruct (endsWith ("_" +:+ sportTypeCode) pickKey) eqn:Ew.
  2: { rewrite app_nil_r. done. }
  cbv zeta.
  set (gi := find_index (owns_tipType (bpm_tipTypeCode pickInfo)) (groups acc)).
  assert (Hgi : gi = find_index (owns_tipType (bpm_tipTypeCode pickInfo)) gs0)
    by by apply find_index_core.
  set (p := mkEnhancedBetPick _ _ _ _ _ _ _ _ _ _).
  assert (Hp : p = pick_of gs0 (pickKey, pickInfo)).
  { rewrite <- (pick_of_core (groups acc) gs0) by done.
    unfold p, pick_of. cbn [fst snd]. by rewrite find_index_find. }
  assert (Hhome : home_of p = gi) by by rewrite Hgi.
  cbn [groups picks].
  destruct gi as [i|] eqn:Egi.
  - pose proof (find_index_Some_lt _ _ _ Egi) as Hlt.
    destruct (lookup_lt_is_Some_2 (groups acc) i Hlt) as [g Hg].
    cbn [mbind option_bind]. rewrite Hg.
    split; [|split; [by rewrite Hp|]].
    + rewrite list_fmap_insert. cbn. rewrite <- Hcore.
      apply list_insert_id. rewrite list_lookup_fmap, Hg. done.
    + intros j g' Hj. rewrite List.filter_app. cbn [List.filter]. rewrite Hhome.
      destruct (decide (j = i)) as [->|Hne].
      * rewrite list_lookup_insert_eq in Hj by done. injection Hj as <-.
        cbn. rewrite (Hpicks i g Hg). rewrite bool_decide_eq_true_2; done.
      * rewrite list_lookup_insert_ne in Hj by done.
        rewrite (Hpicks j g' Hj).
        rewrite bool_decide_eq_false_2 by congruence. by rewrite app_nil_r.
  - cbn [mbind option_bind]. split; [done|]. split; [by rewrite Hp|].
    intros j g' Hj. rewrite List.filter_app. cbn [List.filter]. rewrite Hhome.
    rewrite bool_decide_eq_false_2 by done. rewrite app_nil_r. by apply Hpicks.
Qed.

Lemma add_pick_loop (entries : list (string * BetPickMapItem))
    (acc : EnhancedBettingOptions) :
  map group_core (groups acc) = map group_core gs0 ->
  (forall i g, groups acc !! i = Some g ->
     eg_picks g = List.filter (fun p => bool_decide (home_of p = Some i)) (picks acc)) ->
  let acc' := fold_left (add_pick sportTypeCode) entries acc in
  map group_core (groups acc') = map group_core gs0 /\
  picks acc' = picks acc ++ map (pick_of gs0) (List.filter wanted entries) /\
  (forall i g, groups acc' !! i = Some g ->
     eg_picks g = List.filter (fun p => bool_decide (home_of p = Some i)) (picks acc')).
Proof.
  revert acc. induction entries as [|e entries IH]; intros acc Hcore Hpicks; cbv zeta.
  - cbn. by rewrite app_nil_r.
  - cbn [fold_left List.filter].
    destruct (add_pick_step acc e Hcore Hpicks) as (S1 & S2 & S3).
    destruct (IH _ S1 S3) as (I1 & I2 & I3).
    split; [done|]. split; [|done].
    rewrite I2, S2, <- app_assoc. f_equal.
    by destruct (endsWith ("_" +:+ sportTypeCode) (fst e)).
Qed.

End PickLoop.

(** [createEnhancedBettingOptions] keeps the groups of the sport and the
    picks whose key ends with the sport code, both in catalog order, and
    nothing when the table has no code for the sport. *)
Theorem enhanced_options_follow_the_catalog (m : gmap string SportMapping)
    (bo : BettingOptions) (sp : Sport) :
  let r := createEnhancedBettingOptions m bo sp in
  match truthy_str (getSportTypeCode m sp) with
  | None => r = mkEnhancedBettingOptions [] []
  | Some code =>
      map group_core (groups r)
      = map (fun e => group_core (fresh_group e))
          (List.filter (fun e : string * BetPickGroup => String.eqb (bpg_sport (snd e)) code)
             (betPickGroupMap bo)) /\
      map (fun p => (ep_key p, ep_label p, ep_caption p,
                     ep_tipTypeCode p, ep_betPickCode p, ep_betCode p)) (picks r)
      = map (fun e : string * BetPickMapItem =>
               (fst e, bpm_label (snd e), bpm_caption (snd e),
                bpm_tipTypeCode (snd e), bpm_betPickCode (snd e), bpm_betCode (snd e)))
          (List.filter (fun e : string * BetPickMapItem => endsWith ("_" +:+ code) (fst e))
             (betPickMap bo)) /\
      Forall (fun g => eg_sport g = code) (groups r) /\
      Forall (fun p => endsWith ("_" +:+ code) (ep_key p) = true) (picks r)
  end.
Proof.
  cbv zeta. unfold createEnhancedBettingOptions.
  destruct (truthy_str (getSportTypeCode m sp)) as [code|]; [|done].
  set (gs0 := map _ (List.filter _ (betPickGroupMap bo))).
  destruct (add_pick_loop code gs0 (betPickMap bo) (mkEnhancedBettingOptions gs0 []))
    as (I1 & I2 & I3); [done| |].
  { intros i g Hg. cbn in *. unfold gs0 in Hg.
    rewrite list_lookup_fmap in Hg.
    destruct (List.filter _ (betPickGroupMap bo) !! i); [|done].
    by injection Hg as <-. }
  cbn [picks app] in I2.
  assert (Hg : map group_core gs0
               = map (fun e => group_core (fresh_group e))
                   (List.filter (fun e : string * BetPickGroup =>
                                   String.eqb (bpg_sport (snd e)) code)
                      (betPickGroupMap bo))).
  { unfold gs0. by rewrite map_map. }
  split; [by rewrite I1|]. split; [|split].
  - rewrite I2, map_map. done.
  - assert (Hs : Forall (fun c : Z * string * string * Z * option (list Z) * string =>
                           snd c = code)
                   (map group_core (fold_left (add_pick code) (betPickMap bo)
                                      (mkEnhancedBettingOptions gs0 [])).(groups))).
    { rewrite I1, Hg. apply Forall_forall. intros c Hc.
      apply list_elem_of_fmap in Hc as (e & -> & He).
      apply list_elem_of_In, filter_In in He as [_ He].
      by apply String.eqb_eq in He. }
    rewrite Forall_fmap in Hs. eapply Forall_impl; [exact Hs|]. done.
  - rewrite I2. apply Forall_forall. intros p Hp.
    apply list_elem_of_fmap in Hp as (e & -> & He).
    by apply list_elem_of_In, filter_In in He as [_ He].
Qed.

(** A pick carries the id, description, name and order number of the first
    group of the sport that lists its tip type, and that group alone holds
    the pick; a pick no group lists is in none. *)
Theorem picks_join_the_first_owning_group (m : gmap string SportMapping)
    (bo : BettingOptions) (sp : Sport) :
  let r := createEnhancedBettingOptions m bo sp in
  (forall p, p ∈ picks r ->
     let owner := List.find (owns_tipType (ep_tipTypeCode p)) (groups r) in
     ep_groupId p = num_or_null (option_map eg_id owner) /\
     ep_groupDescription p = str_or_null (option_map eg_description owner) /\
     ep_groupName p = str_or_null (option_map eg_name owner) /\
     ep_groupOrderNumber p = num_or_null (option_map eg_orderNumber owner)) /\
  (forall i g, groups r !! i = Some g ->
     eg_picks g =
     List.filter
       (fun p => bool_decide (find_index (owns_tipType (ep_tipTypeCode p)) (groups r) = Some i))
       (picks r)) /\
  (forall p g, g ∈ groups r -> p ∈ eg_picks g ->
     p ∈ picks r /\ owns_tipType (ep_tipTypeCode p) g = true).
Proof.
  cbv zeta. unfold createEnhancedBettingOptions.
  destruct (truthy_str (getSportTypeCode m sp)) as [code|].
  2: { cbn. split; [by intros ? ?%elem_of_nil|]. split; [done|].
       by intros ? ? ?%elem_of_nil. }
  set (gs0 := map _ (List.filter _ (betPickGroupMap bo))).
  destruct (add_pick_loop code gs0 (betPickMap bo) (mkEnhancedBettingOptions gs0 []))
    as (I1 & I2 & I3); [done| |].
  { intros i g Hg. cbn in *. unfold gs0 in Hg.
    rewrite list_lookup_fmap in Hg.
    destruct (List.filter _ (betPickGroupMap bo) !! i); [|done].
    by injection Hg as <-. }
  cbn [picks app] in I2.
  set (r := fold_left (add_pick code) (betPickMap bo) (mkEnhancedBettingOptions gs0 [])) in *.
  assert (Hsecond : forall i g, groups r !! i = Some g ->
     eg_picks g =
     List.filter
       (fun p => bool_decide (find_index (owns_tipType (ep_tipTypeCode p)) (groups r) = Some i))
       (picks r)).
  { intros i g Hg. rewrite (I3 i g Hg). apply filter_ext_Forall.
    apply Forall_forall. intros p _. cbn.
    by rewrite (find_index_core _ (groups r) gs0). }
  split; [|split; [exact Hsecond|]].
  - intros p Hp. rewrite I2 in Hp.
    apply list_elem_of_fmap in Hp as (e & -> & He).
    rewrite (pick_of_core gs0 (groups r)) by done. by unfold pick_of.
  - intros p g Hg Hp. apply list_elem_of_lookup in Hg as [i Hi].
    rewrite (Hsecond i g Hi) in Hp.
    apply list_elem_of_In, filter_In in Hp as [Hp Hhome].
    split; [by apply list_elem_of_In|].
    apply bool_decide_eq_true in Hhome.
    clear -Hhome Hi. revert i Hi Hhome.
    generalize (groups r) as gs. induction gs as [|g0 gs IH]; intros i Hi; [done|].
    cbn. destruct (owns_tipType (ep_tipTypeCode p) g0) eqn:E.
    + intros [= <-]. cbn in Hi. by injection Hi as <-.
    + destruct (find_index _ gs) as [j|] eqn:Ej; [|done]. intros [= <-].
      cbn in Hi. by apply (IH j).
Qed.

(** ** The special values of a scheduled pick *)

Lemma string_forall_app (p : ascii -> bool) (a b : string) :
  string_forall p (a +:+ b) = string_forall p a && string_forall p b.
Proof.
  induction a as [|c a IH]; [done|].
  change (String c a +:+ b) with (String c (a +:+ b)). cbn.
  by rewrite IH, andb_assoc.
Qed.

Lemma split_char_free (c : ascii) (s cur : string) :
  string_forall (fun x => negb (Ascii.eqb x c)) s = true ->
  split_go (String c "") 0 cur s = [string_rev cur +:+ s].
Proof.
  revert cur. induction s as [|x s IH]; intros cur H.
  - cbn. by rewrite string_app_empty.
  - cbn in H. apply andb_true_iff in H as [Hx Hs].
    cbn [split_go startsWith]. rewrite Ascii.eqb_sym.
    destruct (Ascii.eqb x c); [done|].
    rewrite IH by done. rewrite string_rev_cons, string_app_assoc. done.
Qed.

Lemma split_char_app (c : ascii) (a b cur : string) :
  string_forall (fun x => negb (Ascii.eqb x c)) a = true ->
  split_go (String c "") 0 cur (a +:+ String c b) =
  (string_rev cur +:+ a) :: split_go (String c "") 0 "" b.
Proof.
  revert cur. induction a as [|x a IH]; intros cur H.
  - change ("" +:+ String c b) with (String c b). cbn [split_go startsWith].
    rewrite Ascii.eqb_refl. cbn. by rewrite string_app_empty.
  - cbn in H. apply andb_true_iff in H as [Hx Hs].
    change (String x a +:+ String c b) with (String x (a +:+ String c b)).
    cbn [split_go startsWith]. rewrite Ascii.eqb_sym.
    destruct (Ascii.eqb x c); [done|].
    rewrite IH by done. rewrite string_rev_cons, string_app_assoc. done.
Qed.

Lemma token_parts (s : string) :
  token s = true ->
  s <> "" /\ trim s = s /\
  string_forall (fun x => negb (Ascii.eqb x ",")) s = true /\
  string_forall (fun x => negb (Ascii.eqb x "=")) s = true.
Proof.
  unfold token. intros [Hne Hall]%andb_true_iff.
  apply negb_true_iff, String.eqb_neq in Hne.
  split; [done|]. split; [|split].
  - assert (Hs : string_forall solid s = true).
    { revert Hall. apply string_forall_impl. intros c.
      by intros [[? _]%andb_true_iff _]%andb_true_iff. }
    destruct s as [|c rest]; [done|]. apply trim_solid.
    + cbn in Hs. by apply andb_true_iff in Hs as [? _].
    + clear Hne Hall. revert c Hs. induction rest as [|d rest IH]; intros c Hs.
      * cbn in *. by apply andb_true_iff in Hs as [? _].
      * cbn in Hs. apply andb_true_iff in Hs as [_ Hs].
        change (last_solid (String c (String d rest))) with (last_solid (String d rest)).
        by apply IH.
  - revert Hall. apply string_forall_impl. intros c.
    by intros [[_ ?]%andb_true_iff _]%andb_true_iff.
  - revert Hall. apply string_forall_impl. intros c.
    by intros [_ ?]%andb_true_iff.
Qed.

Lemma add_svParam_token (svParams : gmap string string) (k v : string) :
  token k = true -> token v = true ->
  add_svParam svParams (k +:+ "=" +:+ v) = <[k := v]> svParams.
Proof.
  intros (Hk1 & Hk2 & _ & Hk3)%token_parts (Hv1 & Hv2 & _ & Hv3)%token_parts.
  unfold add_svParam, split.
  change (k +:+ "=" +:+ v) with (k +:+ String "="%char v).
  rewrite split_char_app by done. rewrite split_char_free by done. cbn [string_rev string_rev_onto].
  change ("" +:+ k) with k. change ("" +:+ v) with v.
  rewrite Hk2, Hv2. destruct (String.eqb k "") eqn:E; [|done].
  by apply String.eqb_eq in E.
Qed.

Lemma param_comma_free (k v : string) :
  token k = true -> token v = true ->
  string_forall (fun x => negb (Ascii.eqb x ",")) (k +:+ "=" +:+ v) = true.
Proof.
  intros (_ & _ & Hk & _)%token_parts (_ & _ & Hv & _)%token_parts.
  rewrite !string_forall_app, Hk. cbn. by rewrite Hv.
Qed.

Lemma split_comma_concat (ps : list string) :
  ps <> [] ->
  Forall (fun p => string_forall (fun x => negb (Ascii.eqb x ",")) p = true) ps ->
  split "," (String.concat "," ps) = ps.
Proof.
  intros Hne Hall. unfold split.
  induction Hall as [|p ps Hp Hps IH]; [done|].
  destruct ps as [|q ps].
  - cbn [String.concat]. rewrite split_char_free by done. done.
  - change (String.concat "," (p :: q :: ps))
      with (p +:+ String ","%char (String.concat "," (q :: ps))).
    rewrite split_char_app by done. cbn [string_rev string_rev_onto].
    change ("" +:+ p) with p. f_equal. by apply IH.
Qed.

Lemma fold_add_svParam (params : list (string * string)) (m : gmap string string) :
  Forall (fun kv => token (fst kv) = true /\ token (snd kv) = true) params ->
  forall key,
    fold_left add_svParam (map (fun kv => fst kv +:+ "=" +:+ snd kv) params) m !! key =
    match List.find (fun kv => String.eqb (fst kv) key) (rev params) with
    | Some kv => Some (snd kv)
    | None => m !! key
    end.
Proof.
  intros Hall key. revert m.
  induction Hall as [|[k v] ps [Hk Hv] Hps IH]; intros m; [done|].
  cbn [map fold_left rev fst snd]. rewrite IH. cbn [fst snd].
  rewrite add_svParam_token by done.
  rewrite find_app_or. destruct (List.find _ (rev ps)); [done|]. cbn.
  destruct (String.eqb k key) eqn:E.
  - apply String.eqb_eq in E as ->. by rewrite lookup_insert_eq.
  - apply String.eqb_neq in E. by rewrite lookup_insert_ne.
Qed.

(** Reading back a text made of [key=value] parameters: the total is the
    value of the last [total] parameter, the handicap that of the last [hcp]
    parameter, each [null] when the text has no such parameter. *)
Theorem special_values_are_the_last_parameters (params : list (string * string)) :
  Forall (fun kv => token (fst kv) = true /\ token (snd kv) = true) params ->
  extractSpecialValues (sv_text params) =
  (option_map snd (List.find (fun kv => String.eqb (fst kv) "total") (rev params)),
   option_map snd (List.find (fun kv => String.eqb (fst kv) "hcp") (rev params))).
Proof.
  intros Hall. unfold extractSpecialValues, sv_text.
  destruct params as [|kv params]; [done|].
  set (ps := map _ (kv :: params)).
  assert (Hne : ps <> []) by done.
  assert (Hfree : Forall (fun p => string_forall (fun x => negb (Ascii.eqb x ",")) p = true) ps).
  { unfold ps. apply Forall_fmap. eapply Forall_impl; [exact Hall|].
    intros [k v] [Hk Hv]. by apply param_comma_free. }
  assert (Hnonempty : String.eqb (String.concat "," ps) "" = false).
  { apply String.eqb_neq. intros E.
    pose proof (split_comma_concat ps Hne Hfree) as Hs. rewrite E in Hs.
    unfold ps in Hs. cbn in Hs. injection Hs as Hs _.
    apply Forall_cons in Hall as [[Hk _] _]. apply token_parts in Hk as [Hk _].
    destruct (fst kv); [done | discriminate Hs]. }
  rewrite Hnonempty, split_comma_concat by done.
  unfold ps. rewrite !fold_add_svParam by done.
  assert (Hval : forall key,
            str_or_null
              match List.find (fun kv0 : string * string => String.eqb (fst kv0) key)
                      (rev (kv :: params)) with
              | Some kv0 => Some (snd kv0)
              | None => (∅ : gmap string string) !! key
              end
            = option_map snd
                (List.find (fun kv0 : string * string => String.eqb (fst kv0) key)
                   (rev (kv :: params)))).
  { intros key. destruct (List.find _ (rev (kv :: params))) as [[k v]|] eqn:E; [|done].
    apply find_some in E as [Hin _]. apply in_rev in Hin.
    rewrite Forall_forall in Hall. apply list_elem_of_In, Hall in Hin as [_ Hv].
    apply token_parts in Hv as [Hv _]. cbn in *.
    unfold str_or_null, truthy_str. destruct (String.eqb v "") eqn:Ev; [|done].
    by apply String.eqb_eq in Ev. }
  by rewrite !Hval.
Qed.

Lemma special_values_are_the_last_parameters_witness :
  extractSpecialValues (sv_text [("total", "2.5"); ("hcp", "-1"); ("total", "3.5")]) =
  (option_map snd
     (List.find (fun kv => String.eqb (fst kv) "total")
        (rev [("total", "2.5"); ("hcp", "-1"); ("total", "3.5")])),
   option_map snd
     (List.find (fun kv => String.eqb (fst kv) "hcp")
        (rev [("total", "2.5"); ("hcp", "-1"); ("total", "3.5")]))).
Proof.
  apply (special_values_are_the_last_parameters
           [("total", "2.5"); ("hcp", "-1"); ("total", "3.5")]).
  repeat constructor.
Defined.

(** What [extractSpecialValues] makes of texts of other shapes. *)
Example special_values_of_odd_texts :
  extractSpecialValues "total=2.5,hcp=-1,total=3.5" = (Some "3.5", Some "-1") /\
  extractSpecialValues "" = (None, None) /\
  extractSpecialValues "2.5" = (None, None) /\
  extractSpecialValues " total = 2.5 , hcp = " = (Some "2.5", None) /\
  extractSpecialValues "total=1=2" = (Some "1", None) /\
  extractSpecialValues "=5,hcp" = (None, None).
Proof. repeat split; vm_compute; reflexivity. Qed.

(** ** The odds of the scheduled records *)

Lemma map_has_elem {A : Type} (m : list (string * A)) (key : string) :
  map_has m key = true <-> key ∈ map fst m.
Proof.
  induction m as [|[k x] m IH]; cbn.
  - split; [done | by intros ?%elem_of_nil].
  - rewrite orb_true_iff, String.eqb_eq, IH, elem_of_cons.
    split; (intros [H|H]; [left; by symmetry | by right]).
Qed.

Lemma map_alter_keys {A : Type} (f : A -> A) (m : list (string * A)) (key : string) :
  map fst (map_alter f m key) = map fst m.
Proof.
  induction m as [|[k x] m IH]; cbn; [done|].
  destruct (String.eqb k key); cbn; by rewrite ?IH.
Qed.

Lemma map_alter_Forall {A : Type} (P : string * A -> Prop) (f : A -> A)
    (m : list (string * A)) (key : string) :
  (forall x, P (key, x) -> P (key, f x)) ->
  Forall P m -> Forall P (map_alter f m key).
Proof.
  intros H. induction 1 as [|[k x] m Hx Hm IH]; cbn; [constructor|].
  destruct (String.eqb k key) eqn:E.
  - apply String.eqb_eq in E as ->. constructor; [by apply H | done].
  - by constructor.
Qed.

Lemma map_alter_odds (o : PreGameOdd) (m : list (string * EnhancedPreGameBet))
    (key : string) :
  map_has m key = true ->
  concat (map (fun e => epb_odds (snd e)) (map_alter (push_odd o) m key))
  ≡ₚ concat (map (fun e => epb_odds (snd e)) m) ++ [o].
Proof.
  induction m as [|[k x] m IH]; cbn; [done|].
  destruct (String.eqb k key) eqn:E; cbn.
  - intros _. rewrite <- !app_assoc. apply Permutation_app_head.
    apply Permutation_app_comm.
  - intros H. rewrite IH by done. by rewrite app_assoc.
Qed.

Section OddsOfGroups.

Variables (ps : list EnhancedBetPick) (sportCode : string) (matchId : Z).

Lemma add_bet_keeps (R : list (string * EnhancedPreGameBet))
    (p : string * PreGameBet) :
  NoDup (map fst R) -> Forall (entry_ok matchId) R ->
  let R' := add_bet ps sportCode matchId R p in
  NoDup (map fst R') /\ Forall (entry_ok matchId) R' /\
  concat (map (fun e => epb_odds (snd e)) R')
  ≡ₚ concat (map (fun e => epb_odds (snd e)) R) ++ [pick_odd ps sportCode p].
Proof.
  intros Hnd Hok. cbv zeta. rewrite add_bet_parts.
  destruct (map_has R (pick_key ps sportCode p)) eqn:E.
  - split; [by rewrite map_alter_keys|]. split; [|by apply map_alter_odds].
    apply map_alter_Forall; [|done].
    intros x [H1 H2]. split; [done|]. cbn. by destruct (epb_odds x).
  - split; [|split].
    + rewrite map_app. apply NoDup_app. split; [done|].
      split; [|apply NoDup_singleton].
      intros k Hk ->%list_elem_of_singleton. apply map_has_elem in Hk.
      cbn [fst] in Hk. congruence.
    + apply Forall_app. split; [done|]. constructor; [|constructor]. done.
    + rewrite map_app, concat_app. cbn. done.
Qed.

Lemma fold_add_bet_keeps (L : list (string * PreGameBet))
    (R : list (string * EnhancedPreGameBet)) :
  NoDup (map fst R) -> Forall (entry_ok matchId) R ->
  let R' := fold_left (add_bet ps sportCode matchId) L R in
  NoDup (map fst R') /\ Forall (entry_ok matchId) R' /\
  concat (map (fun e => epb_odds (snd e)) R')
  ≡ₚ concat (map (fun e => epb_odds (snd e)) R) ++ map (pick_odd ps sportCode) L.
Proof.
  revert R. induction L as [|p L IH]; intros R Hnd Hok; cbv zeta.
  - cbn. by rewrite app_nil_r.
  - cbn [fold_left map].
    destruct (add_bet_keeps R p Hnd Hok) as (S1 & S2 & S3).
    destruct (IH _ S1 S2) as (I1 & I2 & I3).
    split; [done|]. split; [done|]. rewrite I3, S3, <- app_assoc. done.
Qed.

End OddsOfGroups.

(** [enhancePreGameBets] puts every raw pick of a match into exactly one
    record: the odds of the records are the raw picks, none lost and none
    twice; no record is without odds and no two records share an id. *)
Theorem scheduled_odds_are_the_raw_picks (ps : list EnhancedBetPick)
    (sportCode : string) (m : PreGameMatch) :
  let R := enhancePreGameBets ps sportCode m in
  concat (map epb_odds R) ≡ₚ map (pick_odd ps sportCode) (raw_picks m) /\
  NoDup (map epb_id R) /\
  Forall (fun b => epb_odds b <> []) R /\
  (length R <= length (raw_picks m))%nat /\
  (raw_picks m = [] -> R = []).
Proof.
  cbv zeta. unfold enhancePreGameBets, grouped_bets.
  destruct (fold_add_bet_keeps ps sportCode (pm_id m) (raw_picks m) [])
    as (H1 & H2 & H3); [constructor | constructor |].
  cbn [map concat app] in H3.
  set (R := fold_left (add_bet ps sportCode (pm_id m)) (raw_picks m) []) in *.
  assert (Hne : Forall (fun b => epb_odds b <> []) (map snd R)).
  { apply Forall_fmap. eapply Forall_impl; [exact H2|]. by intros e [_ ?]. }
  split; [by rewrite map_map|]. split; [|split; [done|split]].
  - assert (Hid : map epb_id (map snd R)
                  = map (fun k => number_to_string (pm_id m) +:+ "_" +:+ k) (map fst R)).
    { rewrite !map_map. apply map_ext_Forall.
      eapply Forall_impl; [exact H2|]. by intros e [? _]. }
    rewrite Hid. apply NoDup_fmap_2; [|done].
    intros x y E. by apply string_app_inj_r, string_app_inj_r in E.
  - rewrite <- (length_map (pick_odd ps sportCode)), <- H3.
    rewrite length_map. clear -H2. induction H2 as [|e R [_ He] _ IH]; cbn; [lia|].
    rewrite length_app. destruct (epb_odds (snd e)); [done|]. cbn. lia.
  - intros E. unfold R. by rewrite E.
Qed.

(** ** The frames of a subscription stream *)

(** A decoder that waits for no byte does not look at its other state. *)
Lemma utf8_decode_idle (lo hi : nat) (pending s : string) :
  utf8_decode 0 lo hi pending s = buffer_toString s.
Proof. by destruct s. Qed.

(** Well-formed bytes are read as they are, and leave the decoder idle. *)
Lemma utf8_decode_valid (a b : string) (need lo hi : nat) (pending : string) :
  utf8_valid need lo hi a = true ->
  utf8_decode need lo hi pending (a +:+ b) =
  match need with O => "" | S _ => string_rev pending end
  +:+ a +:+ buffer_toString b.
Proof.
  revert need lo hi pending. induction a as [|c a IH]; intros need lo hi pending H.
  - destruct need; [|discriminate H]. apply utf8_decode_idle.
  - change (String c a +:+ b) with (String c (a +:+ b)).
    cbn [utf8_decode utf8_valid] in *.
    destruct need as [|k].
    + change ("" +:+ String c a +:+ buffer_toString b)
        with (String c (a +:+ buffer_toString b)).
      destruct (nat_of_ascii c <? 128)%nat; [by rewrite (IH _ _ _ _ H)|].
      destruct ((194 <=? nat_of_ascii c)%nat && (nat_of_ascii c <=? 223)%nat);
        [by rewrite (IH _ _ _ _ H)|].
      destruct ((224 <=? nat_of_ascii c)%nat && (nat_of_ascii c <=? 239)%nat);
        [by rewrite (IH _ _ _ _ H)|].
      destruct ((240 <=? nat_of_ascii c)%nat && (nat_of_ascii c <=? 244)%nat);
        [by rewrite (IH _ _ _ _ H) | discriminate H].
    + apply andb_prop in H as [-> H].
      assert (E : string_rev (String c pending) +:+ a +:+ buffer_toString b
                  = string_rev pending +:+ String c a +:+ buffer_toString b).
      { rewrite string_rev_cons, string_app_assoc. reflexivity. }
      destruct k as [|k'].
      * rewrite (IH _ _ _ _ H). exact E.
      * rewrite (IH _ _ _ _ H). exact E.
Qed.

Lemma buffer_toString_whole (c : string) :
  whole_characters c = true -> buffer_toString c = c.
Proof.
  intros H. pose proof (utf8_decode_valid c "" 0 128 191 "" H) as E.
  rewrite string_app_empty in E. unfold buffer_toString at 1. rewrite E.
  cbn. apply string_app_empty.
Qed.

Lemma map_buffer_toString_whole (chunks : list string) :
  Forall (fun c => whole_characters c = true) chunks ->
  map buffer_toString chunks = chunks.
Proof.
  induction 1 as [|c chunks Hc _ IH]; [done|].
  cbn. by rewrite IH, buffer_toString_whole.
Qed.

Lemma buffer_toString_concat (chunks : list string) :
  Forall (fun c => whole_characters c = true) chunks ->
  buffer_toString (fold_right String.append "" chunks)
  = fold_right String.append "" chunks.
Proof.
  induction 1 as [|c chunks Hc _ IH]; [done|].
  cbn [fold_right]. unfold buffer_toString at 1.
  rewrite (utf8_decode_valid c _ 0 128 191 "" Hc). by rewrite IH.
Qed.

Section UpdateFramesProperties.

Variable decode : string -> option Payload.

Lemma on_update_data_buffer (chunks : list string) (buffer : string) (s : LiveStream) :
  split LF buffer = [buffer] ->
  let text := fold_right String.append "" (map buffer_toString chunks) in
  fold_left (on_update_data decode) chunks (buffer, s) =
  (List.last (split LF (buffer +:+ text)) "",
   fold_left (update_line decode) (removelast (split LF (buffer +:+ text))) s).
Proof.
  cbv zeta. revert buffer s. induction chunks as [|c chunks IH]; intros buffer s Hb.
  - cbn [map fold_left fold_right]. rewrite string_app_empty, Hb. done.
  - cbn [map fold_left fold_right]. unfold on_update_data at 2. cbn [fst snd].
    rewrite IH by apply split_last_piece.
    rewrite <- string_app_assoc.
    rewrite (split_app LF (buffer +:+ buffer_toString c)).
    rewrite removelast_app_ne by apply split_go_nonempty.
    rewrite fold_left_app. f_equal.
    rewrite last_app_ne; [done|]. apply split_go_nonempty.
Qed.

(** How the text of a subscription stream is cut into chunks does not
    matter as long as every chunk holds whole characters only: the handler
    ends with the same service and the same pending text as if the whole text
    had come at once, and the frames it applied are the lines of the text,
    the unfinished last one left out. *)
Theorem update_frames_ignore_chunking (chunks : list string) (s : LiveStream) :
  Forall (fun c => whole_characters c = true) chunks ->
  let text := fold_right String.append "" chunks in
  fold_left (on_update_data decode) chunks ("", s) = on_update_data decode ("", s) text /\
  snd (fold_left (on_update_data decode) chunks ("", s))
  = fold_left (update_line decode) (removelast (split LF text)) s /\
  fst (fold_left (on_update_data decode) chunks ("", s)) = List.last (split LF text) "" /\
  split LF (List.last (split LF text) "") = [List.last (split LF text) ""].
Proof.
  intros Hw. cbv zeta. rewrite on_update_data_buffer by done. cbv zeta.
  rewrite (map_buffer_toString_whole _ Hw).
  unfold on_update_data. cbn [fst snd]. rewrite (buffer_toString_concat _ Hw).
  change ("" +:+ fold_right String.append "" chunks)
    with (fold_right String.append "" chunks).
  repeat split. apply split_last_piece.
Qed.

End UpdateFramesProperties.

Lemma update_frames_ignore_chunking_witness :
  let chunks := ["KO"; "Š" +:+ LF +:+ "AR"; "KA" +:+ LF] in
  let text := fold_right String.append "" chunks in
  fold_left (on_update_data sample_decode) chunks ("", sample_streaming)
  = on_update_data sample_decode ("", sample_streaming) text /\
  snd (fold_left (on_update_data sample_decode) chunks ("", sample_streaming))
  = fold_left (update_line sample_decode) (removelast (split LF text)) sample_streaming /\
  fst (fold_left (on_update_data sample_decode) chunks ("", sample_streaming))
  = List.last (split LF text) "" /\
  split LF (List.last (split LF text) "") = [List.last (split LF text) ""].
Proof.
  apply (update_frames_ignore_chunking sample_decode
           ["KO"; "Š" +:+ LF +:+ "AR"; "KA" +:+ LF] sample_streaming).
  repeat constructor.
Defined.

(** A chunk that ends inside a character: the two bytes of [Š], each in a
    chunk of its own, are read as two U+FFFD. *)
Example cut_inside_a_character :
  whole_characters "Š" = true /\
  whole_characters (bytes [197]%nat) = false /\
  fst (on_update_data sample_decode ("", liveStream0) "Š") = "Š" /\
  fst (fold_left (on_update_data sample_decode) [bytes [197]%nat; bytes [160]%nat]
         ("", liveStream0))
  = replacement +:+ replacement.
Proof. vm_compute. repeat split. Qed.

(** ** What the snapshot is made of *)

Section SnapshotContents.

Variable decode : string -> option Payload.

Lemma process_line_payload (a : Accum) (line : string) :
  let a' := process_line decode a line in
  accSports a' = accSports a ++ default [] (frame_payload decode line ≫= liveSports) /\
  accHeaders a' = accHeaders a ++ default [] (frame_payload decode line ≫= liveHeaders) /\
  accBets a' = accBets a ++ default [] (frame_payload decode line ≫= liveBets).
Proof.
  cbv zeta. unfold process_line, frame_payload.
  destruct (String.eqb (trim line) ""); [by rewrite !app_nil_r|].
  cbv zeta. destruct (String.eqb (trim (json_part line)) ""); [by rewrite !app_nil_r|].
  destruct (startsWith "END " (json_part line)); [cbn; by rewrite !app_nil_r|].
  destruct (decode (json_part line)) as [data|]; [done | by rewrite !app_nil_r].
Qed.

Lemma process_lines_payloads (ls : list string) (a : Accum) :
  let a' := fold_left (process_line decode) ls a in
  let payloads := omap (frame_payload decode) ls in
  accSports a' = accSports a ++ flat_map (fun p => default [] (liveSports p)) payloads /\
  accHeaders a' = accHeaders a ++ flat_map (fun p => default [] (liveHeaders p)) payloads /\
  accBets a' = accBets a ++ flat_map (fun p => default [] (liveBets p)) payloads.
Proof.
  revert a. induction ls as [|line ls IH]; intros a; cbv zeta.
  - cbn. by rewrite !app_nil_r.
  - cbn [fold_left omap list_omap].
    destruct (IH (process_line decode a line)) as (I1 & I2 & I3).
    destruct (process_line_payload a line) as (P1 & P2 & P3).
    rewrite I1, I2, I3, P1, P2, P3, <- !app_assoc.
    destruct (frame_payload decode line) as [data|]; cbn; [done|].
    done.
Qed.

(** The snapshot of a bulk fetch holds, in arrival order, what the JSON
    frames of the feed carry, those after the sentinel too; blank frames,
    sentinels and text that is not JSON add nothing. *)
Theorem snapshot_collects_every_frame (sp : Sport) (chunks : list string)
    (now : Z) (d : LiveData) :
  bulk_outcome decode sp (Streamed chunks FinEnd) now = Resolved d ->
  let payloads := omap (frame_payload decode) (frames_from "" chunks) in
  sports d = flat_map (fun p => default [] (liveSports p)) payloads /\
  headers d = flat_map (fun p => default [] (liveHeaders p)) payloads /\
  bets d = flat_map (fun p => default [] (liveBets p)) payloads /\
  initializedAt d = now /\ sport d = sp.
Proof.
  intros H. cbv zeta. unfold bulk_outcome in H. rewrite on_data_frames in H.
  destruct (process_lines_payloads (frames_from "" chunks) accum0) as (I1 & I2 & I3).
  cbn [accum0 accSports accHeaders accBets app] in I1, I2, I3.
  unfold on_end in H.
  destruct (truthy_num _) as [ts|]; [|done].
  injection H as <-. cbn. by rewrite I1, I2, I3.
Qed.

End SnapshotContents.

Lemma snapshot_collects_every_frame_witness :
  let d := mkLiveData [] [sample_header; sample_header] [] 5 3 football in
  let payloads :=
    omap (frame_payload sample_decode)
      (frames_from ""
         [sample_header_frame +:+ blank_line +:+ "END 5" +:+ blank_line;
          sample_header_frame +:+ blank_line]) in
  sports d = flat_map (fun p => default [] (liveSports p)) payloads /\
  headers d = flat_map (fun p => default [] (liveHeaders p)) payloads /\
  bets d = flat_map (fun p => default [] (liveBets p)) payloads /\
  initializedAt d = 3 /\ sport d = football.
Proof.
  apply (snapshot_collects_every_frame sample_decode football
           [sample_header_frame +:+ blank_line +:+ "END 5" +:+ blank_line;
            sample_header_frame +:+ blank_line] 3).
  vm_compute. reflexivity.
Defined.

(** ** The watermark and the snapshot *)

Lemma store_ok_of (s s' : LiveStream) : store_of s' = store_of s -> store_ok s -> store_ok s'.
Proof.
  unfold store_of, store_ok, getLiveData. intros [= -> -> ->]. done.
Qed.

Lemma subscribe_store (s : LiveStream) (c : ConnResult) :
  store_of (fst (subscribeToLiveUpdates s c)) = store_of s.
Proof.
  unfold subscribeToLiveUpdates. destruct (negb (timestamp_set s)); [done|].
  by destruct c.
Qed.

Lemma start_store (s : LiveStream) (c : ConnResult) :
  store_of (fst (startLiveSubscription s c)) = store_of s.
Proof.
  unfold startLiveSubscription. destruct (negb (timestamp_set s)); [done|].
  destruct (isStreaming s); [done|].
  match goal with
  | |- context [subscribeToLiveUpdates ?x c] =>
      pose proof (subscribe_store x c) as H;
      destruct (subscribeToLiveUpdates x c) as [s2 thrown]
  end.
  exact H.
Qed.

Lemma fire_timer_store (s : LiveStream) (i : nat) (c : ConnResult) :
  store_of (fire_timer s i c) = store_of s.
Proof.
  unfold fire_timer. destruct (timers s !! i) as [b|]; [|done].
  cbn [shouldStream]. destruct (shouldStream s); [|done].
  destruct b; by rewrite subscribe_store.
Qed.

Lemma on_stream_end_store (s : LiveStream) : store_of (on_stream_end s) = store_of s.
Proof. unfold on_stream_end. by destruct (streams s). Qed.

Lemma on_stream_error_store (s : LiveStream) (abort : bool) :
  store_of (on_stream_error s abort) = store_of s.
Proof. unfold on_stream_error. destruct (streams s); [done|]. by destruct abort. Qed.

Lemma set_liveData_same_timestamp (s : LiveStream) (d d' : LiveData) :
  getLiveData s = Some d -> lastTimestamp d' = lastTimestamp d ->
  store_ok s -> store_ok (set_liveData s (Some d')).
Proof.
  intros Hd Ht (H1 & H2 & H3).
  pose proof (getLiveData_set s d d' Hd) as Hget.
  destruct (set_liveData_keeps s (Some d')) as (_ & _ & K3 & _ & _ & _ & K7).
  cbv zeta in K3, K7.
  split; [|split].
  - rewrite K3, Hget, H1, Hd. cbn. by rewrite Ht.
  - intros d0. rewrite Hget. intros [= <-]. rewrite Ht. by apply H2.
  - rewrite K7, Hget. rewrite H3, Hd. done.
Qed.

Section StoreInvariant.

Variable decode : string -> option Payload.

Lemma step_store_ok (s : LiveStream) (e : Event) : store_ok s -> store_ok (step decode s e).
Proof.
  intros Hok. destruct e as [sp resp now|c| | |abort|i c|data|hs]; cbn [step].
  - unfold initializeLiveEvents.
    destruct (bulk_outcome decode sp resp now) as [d| |] eqn:E; cbn [fst];
      try (revert Hok; by apply store_ok_of).
    apply bulk_resolved_nonzero in E. apply Z.eqb_neq in E.
    unfold store_ok, getLiveData. cbn.
    rewrite lookup_app_r by lia. rewrite Nat.sub_diag. cbn.
    split; [done|]. split; [by intros d0 [= <-]|]. done.
  - revert Hok. apply store_ok_of, start_store.
  - revert Hok. by apply store_ok_of.
  - revert Hok. apply store_ok_of, on_stream_end_store.
  - revert Hok. apply store_ok_of, on_stream_error_store.
  - revert Hok. apply store_ok_of, fire_timer_store.
  - destruct (streams s); [done|]. rewrite processLiveUpdateData_frame.
    destruct (getLiveData s) as [d|] eqn:Ed; [|done].
    by apply (set_liveData_same_timestamp s d).
  - destruct (getLiveData s) as [d|] eqn:Ed; cbn [option_map].
    + by apply (set_liveData_same_timestamp s d).
    + unfold set_liveData. by destruct (liveData s).
Qed.

Lemma reachable_store_ok (s : LiveStream) : reachable decode s -> store_ok s.
Proof.
  intros [evs ->]. unfold run.
  assert (H0 : store_ok liveStream0) by done.
  revert H0. generalize liveStream0 as s0.
  induction evs as [|e evs IH]; intros s0 H0; [done|].
  cbn [fold_left]. by apply IH, step_store_ok.
Qed.

(** In every state the service can reach, the watermark is the timestamp of
    the snapshot it holds: both are missing or both are there, and update
    frames change neither.  [startLiveSubscription] throws its "no
    timestamp" error exactly while there is no snapshot. *)
Theorem watermark_is_the_snapshot_timestamp (s : LiveStream) :
  reachable decode s ->
  currentTimestamp s = lastTimestamp <$> getLiveData s /\
  (timestamp_set s = true <-> is_Some (getLiveData s)) /\
  (forall c, snd (startLiveSubscription s c) = Some NoTimestampAvailable
             <-> getLiveData s = None) /\
  (forall data, currentTimestamp (step decode s (EvUpdate data)) = currentTimestamp s).
Proof.
  intros Hr. destruct (reachable_store_ok s Hr) as (H1 & H2 & H3).
  assert (Hts : timestamp_set s = true <-> is_Some (getLiveData s)).
  { unfold timestamp_set. rewrite H1.
    destruct (getLiveData s) as [d|] eqn:Ed; cbn.
    - specialize (H2 d eq_refl). apply Z.eqb_neq in H2. rewrite H2. cbn.
      split; [eauto | done].
    - split; [done | by intros [? ?]]. }
  split; [done|]. split; [done|]. split.
  - intros c. unfold startLiveSubscription.
    destruct (timestamp_set s) eqn:Et; cbn [negb snd].
    + destruct (proj1 Hts eq_refl) as [d Hd]. rewrite Hd.
      split; [|done]. destruct (isStreaming s); [done|].
      destruct (subscribeToLiveUpdates _ c) as [s2 [|]]; done.
    + split; [|done]. intros _.
      destruct (getLiveData s) as [d|] eqn:Ed; [|done].
      assert (false = true) by (apply Hts; eauto). done.
  - intros data. cbn [step]. destruct (streams s); [done|].
    unfold processLiveUpdateData.
    by destruct (set_liveData_keeps s
                   (match liveBets data with
                    | Some bs =>
                        updateLiveBets
                          (match liveHeaders data with
                           | Some hs => updateLiveHeaders (getLiveData s) hs
                           | None => getLiveData s
                           end) bs
                    | None =>
                        match liveHeaders data with
                        | Some hs => updateLiveHeaders (getLiveData s) hs
                        | None => getLiveData s
                        end
                    end)) as (_ & _ & K & _).
Qed.

Lemma step_keeps_snapshot (s : LiveStream) (d : LiveData) (e : Event) :
  getLiveData s = Some d ->
  exists d',
    getLiveData (step decode s e) = Some d' /\
    match e with
    | EvInit _ _ _ => True
    | EvUpdate _ | EvSetHeaders _ =>
        sports d' = sports d /\ lastTimestamp d' = lastTimestamp d /\
        initializedAt d' = initializedAt d /\ sport d' = sport d
    | _ => d' = d
    end.
Proof.
  intros Hd.
  assert (Hkeep : forall s', store_of s' = store_of s -> getLiveData s' = Some d).
  { intros s'. unfold store_of, getLiveData in *. by intros [= _ -> ->]. }
  destruct e as [sp resp now|c| | |abort|i c|data|hs]; cbn [step].
  - unfold initializeLiveEvents.
    destruct (bulk_outcome decode sp resp now) as [d1| |]; cbn [fst].
    + exists d1. split; [|done]. unfold getLiveData. cbn.
      rewrite lookup_app_r by lia. by rewrite Nat.sub_diag.
    + exists d. split; [by apply Hkeep | done].
    + exists d. split; [by apply Hkeep | done].
  - exists d. split; [apply Hkeep, start_store | done].
  - exists d. split; [by apply Hkeep | done].
  - exists d. split; [apply Hkeep, on_stream_end_store | done].
  - exists d. split; [apply Hkeep, on_stream_error_store | done].
  - exists d. split; [apply Hkeep, fire_timer_store | done].
  - destruct (streams s); [by exists d|].
    rewrite processLiveUpdateData_frame, Hd.
    exists (apply_frame data d). split; [by apply (getLiveData_set s d) | done].
  - rewrite Hd. cbn [option_map].
    exists (with_headers d hs). split; [by apply (getLiveData_set s d) | done].
Qed.

Lemma run_keeps_snapshot (evs : list Event) (s : LiveStream) :
  is_Some (getLiveData s) -> is_Some (getLiveData (run decode s evs)).
Proof.
  unfold run. revert s. induction evs as [|e evs IH]; intros s [d Hd]; [by eexists|].
  cbn [fold_left]. destruct (step_keeps_snapshot s d e Hd) as (d' & Hd' & _).
  apply IH. by exists d'.
Qed.

(** No event discards the snapshot: once [getLiveData] answers, it answers
    after every run of events.  Only a new bulk fetch replaces the snapshot;
    update frames and the orchestrator's filter change its headers and bets
    alone, and every other event leaves it as it is. *)
Theorem snapshot_outlives_every_event (s : LiveStream) (d : LiveData) (evs : list Event) :
  getLiveData s = Some d ->
  is_Some (getLiveData (run decode s evs)) /\
  (forall e, exists d',
     getLiveData (step decode s e) = Some d' /\
     match e with
     | EvInit _ _ _ => True
     | EvUpdate _ | EvSetHeaders _ =>
         sports d' = sports d /\ lastTimestamp d' = lastTimestamp d /\
         initializedAt d' = initializedAt d /\ sport d' = sport d
     | _ => d' = d
     end).
Proof.
  intros Hd. split; [apply run_keeps_snapshot; by exists d|].
  intros e. by apply step_keeps_snapshot.
Qed.

End StoreInvariant.

Lemma watermark_is_the_snapshot_timestamp_witness :
  currentTimestamp sample_streaming = lastTimestamp <$> getLiveData sample_streaming /\
  (timestamp_set sample_streaming = true <-> is_Some (getLiveData sample_streaming)) /\
  (forall c, snd (startLiveSubscription sample_streaming c) = Some NoTimestampAvailable
             <-> getLiveData sample_streaming = None) /\
  (forall data, currentTimestamp (step sample_decode sample_streaming (EvUpdate data))
                = currentTimestamp sample_streaming).
Proof.
  apply (watermark_is_the_snapshot_timestamp sample_decode sample_streaming).
  exists sample_events. reflexivity.
Defined.

Lemma snapshot_outlives_every_event_witness :
  is_Some (getLiveData (run sample_decode sample_streaming
                          [EvStreamEnd; EvStop; EvTimer 0 ConnOpen])) /\
  (forall e, exists d',
     getLiveData (step sample_decode sample_streaming e) = Some d' /\
     match e with
     | EvInit _ _ _ => True
     | EvUpdate _ | EvSetHeaders _ =>
         sports d' = sports (mkLiveData [] [] [] 17 0 football) /\
         lastTimestamp d' = lastTimestamp (mkLiveData [] [] [] 17 0 football) /\
         initializedAt d' = initializedAt (mkLiveData [] [] [] 17 0 football) /\
         sport d' = sport (mkLiveData [] [] [] 17 0 football)
     | _ => d' = mkLiveData [] [] [] 17 0 football
     end).
Proof.
  apply (snapshot_outlives_every_event sample_decode sample_streaming
           (mkLiveData [] [] [] 17 0 football)
           [EvStreamEnd; EvStop; EvTimer 0 ConnOpen]).
  reflexivity.
Defined.

(** ** Connections, streams and timers *)

Section Connections.

Variable decode : string -> option Payload.

Lemma subscribe_counts (s : LiveStream) (c : ConnResult) :
  exists da dn : nat,
    attempts (fst (subscribeToLiveUpdates s c)) = (attempts s + da)%nat /\
    streams (fst (subscribeToLiveUpdates s c)) = (streams s + dn)%nat /\
    timers (fst (subscribeToLiveUpdates s c)) = timers s /\
    (dn <= da)%nat /\ (da <= 1)%nat.
Proof.
  unfold subscribeToLiveUpdates.
  destruct (negb (timestamp_set s)); cbn [fst].
  - exists 0%nat, 0%nat. repeat split; lia.
  - destruct c; cbn [fst attempts streams timers].
    + exists 1%nat, 1%nat. repeat split; lia.
    + exists 1%nat, 0%nat. repeat split; lia.
    + exists 1%nat, 0%nat. repeat split; lia.
Qed.

Lemma step_counts (s : LiveStream) (e : Event) :
  (streams s + length (timers s) <= attempts s)%nat ->
  (streams (step decode s e) + length (timers (step decode s e))
   <= attempts (step decode s e))%nat /\
  (attempts s <= attempts (step decode s e))%nat /\
  (attempts (step decode s e)
   <= attempts s + match e with EvStart _ | EvTimer _ _ => 1 | _ => 0 end)%nat.
Proof.
  intros H. destruct e as [sp resp now|c| | |abort|i c|data|hs]; cbn [step].
  - destruct (initializeLiveEvents_loop decode s sp resp now) as (E1 & E2 & E3 & _).
    cbv zeta in E1, E2, E3. rewrite E1, E2, E3. lia.
  - unfold startLiveSubscription. destruct (negb (timestamp_set s)); cbn [fst]; [lia|].
    destruct (isStreaming s); cbn [fst]; [lia|].
    match goal with
    | |- context [subscribeToLiveUpdates ?x c] =>
        destruct (subscribe_counts x c) as (da & dn & K1 & K2 & K3 & K4 & K5);
        destruct (subscribeToLiveUpdates x c) as [s2 thrown]
    end.
    cbn [fst attempts streams timers] in *. rewrite K1, K2, K3. lia.
  - cbn. lia.
  - unfold on_stream_end. destruct (streams s) eqn:E; cbn; [lia|].
    rewrite length_app. cbn. lia.
  - unfold on_stream_error. destruct (streams s) eqn:E; cbn; [lia|].
    destruct abort; cbn; [lia|]. rewrite length_app. cbn. lia.
  - unfold fire_timer. destruct (timers s !! i) as [b|] eqn:Ei; [|lia].
    pose proof (lookup_lt_Some _ _ _ Ei) as Hlt.
    assert (Hdel : length (delete i (timers s)) = (length (timers s) - 1)%nat).
    { rewrite length_delete; [done|]. eauto. }
    cbn [shouldStream]. destruct (shouldStream s).
    + destruct b.
      * match goal with
        | |- context [subscribeToLiveUpdates ?x c] =>
            destruct (subscribe_counts x c) as (da & dn & K1 & K2 & K3 & K4 & K5)
        end.
        rewrite K1, K2, K3. cbn [attempts streams timers]. rewrite Hdel. lia.
      * match goal with
        | |- context [subscribeToLiveUpdates ?x c] =>
            destruct (subscribe_counts x c) as (da & dn & K1 & K2 & K3 & K4 & K5)
        end.
        rewrite K1, K2, K3. cbn [attempts streams timers]. rewrite Hdel. lia.
    + cbn. rewrite Hdel. lia.
  - destruct (streams s) eqn:E; [lia|]. unfold processLiveUpdateData.
    match goal with
    | |- context [set_liveData s ?d] =>
        destruct (set_liveData_keeps s d) as (_ & _ & _ & K4 & K5 & K6 & _)
    end.
    cbv zeta in K4, K5, K6. rewrite K4, K5, K6. lia.
  - destruct (set_liveData_keeps s (option_map (fun d => with_headers d hs) (getLiveData s)))
      as (_ & _ & _ & K4 & K5 & K6 & _).
    cbv zeta in K4, K5, K6. rewrite K4, K5, K6. lia.
Qed.

(** Every open subscription stream and every pending backoff timer goes back
    to a connection attempt of its own, and attempts are made by a start or
    by a timer that fires, one at a time: in a reachable state the streams
    and timers together are no more than the attempts, and a run makes no
    more attempts than it has starts and timer firings. *)
Theorem streams_and_timers_come_from_attempts (s : LiveStream) (evs : list Event) :
  reachable decode s ->
  (streams s + length (timers s) <= attempts s)%nat /\
  (attempts s <= attempts (run decode s evs))%nat /\
  (attempts (run decode s evs)
   <= attempts s
      + length (List.filter (fun e => match e with
                                      | EvStart _ | EvTimer _ _ => true
                                      | _ => false
                                      end) evs))%nat.
Proof.
  intros [evs0 ->].
  assert (Hinv : forall l s0, (streams s0 + length (timers s0) <= attempts s0)%nat ->
            (streams (run decode s0 l) + length (timers (run decode s0 l))
             <= attempts (run decode s0 l))%nat /\
            (attempts s0 <= attempts (run decode s0 l))%nat /\
            (attempts (run decode s0 l)
             <= attempts s0
                + length (List.filter (fun e => match e with
                                                | EvStart _ | EvTimer _ _ => true
                                                | _ => false
                                                end) l))%nat).
  { unfold run. induction l as [|e l IH]; intros s0 H0; cbn [fold_left List.filter].
    - cbn. lia.
    - destruct (step_counts s0 e H0) as (S1 & S2 & S3).
      destruct (IH _ S1) as (I1 & I2 & I3).
      split; [done|]. split; [lia|].
      destruct e; cbn [length] in *; lia. }
  destruct (Hinv evs0 liveStream0) as (H1 & _); [cbn; lia|].
  split; [done|]. destruct (Hinv evs _ H1) as (_ & H2 & H3). done.
Qed.

End Connections.

Lemma streams_and_timers_come_from_attempts_witness :
  (streams sample_streaming + length (timers sample_streaming)
   <= attempts sample_streaming)%nat /\
  (attempts sample_streaming
   <= attempts (run sample_decode sample_streaming
                  [EvStreamEnd; EvUpdate (mkPayload None None None); EvTimer 0 ConnOpen]))%nat /\
  (attempts (run sample_decode sample_streaming
               [EvStreamEnd; EvUpdate (mkPayload None None None); EvTimer 0 ConnOpen])
   <= attempts sample_streaming
      + length (List.filter (fun e => match e with
                                      | EvStart _ | EvTimer _ _ => true
                                      | _ => false
                                      end)
                  [EvStreamEnd; EvUpdate (mkPayload None None None); EvTimer 0 ConnOpen]))%nat.
Proof.
  apply (streams_and_timers_come_from_attempts sample_decode sample_streaming
           [EvStreamEnd; EvUpdate (mkPayload None None None); EvTimer 0 ConnOpen]).
  exists sample_events. reflexivity.
Defined.

(** ** A start that succeeds, and the states of the orchestrator *)

Lemma filterLiveHeadersBySport_idem (m : gmap string SportMapping)
    (hs : list record) (sp : Sport) :
  filterLiveHeadersBySport m (filterLiveHeadersBySport m hs sp) sp
  = filterLiveHeadersBySport m hs sp.
Proof.
  unfold filterLiveHeadersBySport.
  destruct (truthy_str (getSportTypeCode m sp)); [|done].
  by apply filter_filter_implied.
Qed.

Lemma start_streaming (s s' : LiveStream) (c : ConnResult) :
  timestamp_set s = true ->
  startLiveSubscription s c = (s', None) ->
  (isStreaming s' = true <-> isStreaming s = true \/ c = ConnOpen).
Proof.
  intros Ht. unfold startLiveSubscription. rewrite Ht. cbn [negb].
  destruct (isStreaming s) eqn:Es.
  - intros [= <-]. rewrite Es. split; [by left | done].
  - unfold subscribeToLiveUpdates. unfold timestamp_set in *. cbn [currentTimestamp].
    destruct (currentTimestamp s) as [n|]; [|done]. rewrite Ht. cbn [negb].
    destruct c; intros [= <-]; cbn; split; try done; try (by right);
      intros [?|?]; done.
Qed.

Section StartedOrchestrator.

Variable decode : string -> option Payload.

Lemma initialize_resolved (ds ds' : DataService) (mode : Mode) (sp : Sport)
    (interval : option string) (env : InitEnv) (data : InitializedData) :
  initialize decode ds mode sp interval env = (ds', Resolved data) ->
  exists sportsData bo,
    env_catalog env = Some (sportsData, bo) /\
    sportMappings ds' = initializeSportMappings sportsData /\
    bettingOptions ds' = Some bo /\
    initializedData ds' = Some data /\ isInitialized ds' = true /\
    id_sports data = sportsData /\ id_bettingOptions data = bo /\
    id_enhancedBettingOptions data
    = createEnhancedBettingOptions (initializeSportMappings sportsData) bo sp /\
    id_initializedAt data = env_clock_commit env /\
    id_mode data = mode /\ id_sport data = sp /\ id_interval data = interval /\
    match mode with
    | pre_game =>
        liveStreamService ds' = liveStreamService ds /\
        id_liveData data = None /\
        id_preGameData data = env_pregame env /\ is_Some (env_pregame env)
    | live =>
        exists d,
          bulk_outcome decode sp (env_bulk env) (env_clock_bulk env) = Resolved d /\
          id_preGameData data = None /\
          id_liveData data = liveData (liveStreamService ds') /\
          getLiveData (liveStreamService ds')
          = Some (with_headers d
                    (filterLiveHeadersBySport (initializeSportMappings sportsData)
                       (headers d) sp)) /\
          currentTimestamp (liveStreamService ds') = Some (lastTimestamp d) /\
          (isStreaming (liveStreamService ds') = true <->
           isStreaming (liveStreamService ds) = true \/ env_conn env = ConnOpen)
    end.
Proof.
  unfold initialize.
  destruct (env_catalog env) as [[sportsData bo]|] eqn:Ec; [|discriminate].
  destruct mode.
  - unfold initializeLiveEvents.
    destruct (bulk_outcome decode sp (env_bulk env) (env_clock_bulk env))
      as [d|f'|] eqn:Eb; [|discriminate|discriminate].
    cbn [fst snd].
    set (ls1 := mkLiveStream _ _ _ _ _ _ _ _ _).
    set (d' := with_headers d _).
    destruct (startLiveSubscription (set_liveData ls1 (Some d')) (env_conn env))
      as [ls3 thrown] eqn:Es.
    destruct thrown as [f'|]; [discriminate|].
    intros [= <- <-]. exists sportsData, bo. cbn.
    do 12 (split; [reflexivity|]). exists d. split; [reflexivity|].
    split; [reflexivity|]. split; [reflexivity|].
    assert (H1 : getLiveData ls1 = Some d).
    { unfold getLiveData, ls1. cbn. rewrite lookup_app_r by lia.
      by rewrite Nat.sub_diag. }
    pose proof (getLiveData_set ls1 d d' H1) as H2.
    pose proof (start_store (set_liveData ls1 (Some d')) (env_conn env)) as H3.
    rewrite Es in H3. cbn [fst] in H3.
    destruct (set_liveData_keeps ls1 (Some d')) as (K1 & _ & K3 & _).
    cbv zeta in K1, K3.
    assert (Hts : timestamp_set (set_liveData ls1 (Some d')) = true).
    { unfold timestamp_set, set_liveData, ls1. cbn.
      by rewrite (bulk_resolved_nonzero decode _ _ _ _ Eb). }
    split; [|split].
    + unfold store_of in H3. injection H3 as _ H3b H3c.
      unfold getLiveData in *. by rewrite H3b, H3c.
    + unfold store_of in H3. injection H3 as H3a _ _. by rewrite H3a.
    + rewrite (start_streaming _ _ _ Hts Es), K1. done.
  - destruct (env_pregame env) as [pg|] eqn:Ep; [|discriminate].
    intros [= <- <-]. exists sportsData, bo. cbn.
    do 12 (split; [reflexivity|]). repeat split. by exists pg.
Qed.

Lemma initialize_unsettled (ds ds' : DataService) (mode : Mode) (sp : Sport)
    (interval : option string) (env : InitEnv) (out : Outcome InitializedData) :
  initialize decode ds mode sp interval env = (ds', out) ->
  (forall data, out <> Resolved data) ->
  ds' = ds \/
  exists sportsData bo,
    ds' = mkDataService (liveStreamService ds') (initializeSportMappings sportsData)
            (Some bo) (initializedData ds) (isInitialized ds).
Proof.
  intros E Hout. unfold initialize in E.
  destruct (env_catalog env) as [[sportsData bo]|]; [|left; by injection E as <- _].
  right. exists sportsData, bo. destruct mode.
  - destruct (initializeLiveEvents _ _ _ _ _) as [ls1 [d| |]].
    + destruct (startLiveSubscription _ _) as [ls3 [f'|]].
      * by injection E as <- _.
      * injection E as _ <-. by destruct (Hout _ eq_refl).
    + by injection E as <- _.
    + by injection E as <- _.
  - destruct (env_pregame env).
    + injection E as _ <-. by destruct (Hout _ eq_refl).
    + by injection E as <- _.
Qed.

(** When [initialize] resolves, the queries answer from what it fetched:
    in live mode the snapshot with its headers cut down to the sport, which
    [getFilteredLiveHeadersBySport] returns unchanged; in pre-game mode the
    fetched matches of the sport, the live stream left as it was.  A
    connection that is aborted lets [initialize] resolve without a running
    stream. *)
Theorem resolved_initialize_answers_queries (ds ds' : DataService) (mode : Mode)
    (sp : Sport) (interval : option string) (env : InitEnv) (data : InitializedData) :
  initialize decode ds mode sp interval env = (ds', Resolved data) ->
  exists sportsData bo,
    env_catalog env = Some (sportsData, bo) /\
    let m := initializeSportMappings sportsData in
    getInitializedData ds' = Some data /\ isDataInitialized ds' = true /\
    id_mode data = mode /\ id_sport data = sp /\ id_interval data = interval /\
    id_enhancedBettingOptions data = createEnhancedBettingOptions m bo sp /\
    getCurrentSportTypeCode ds' = getSportTypeCode m sp /\
    match mode with
    | live =>
        exists d,
          bulk_outcome decode sp (env_bulk env) (env_clock_bulk env) = Resolved d /\
          ds_getLiveData ds'
          = Some (with_headers d (filterLiveHeadersBySport m (headers d) sp)) /\
          getFilteredLiveHeadersBySport ds' = filterLiveHeadersBySport m (headers d) sp /\
          getPreGameData ds' = None /\ getEnhancedPreGameMatches ds' = [] /\
          (isLiveStreaming ds' = true <->
           isLiveStreaming ds = true \/ env_conn env = ConnOpen)
    | pre_game =>
        exists preGameData,
          env_pregame env = Some preGameData /\
          getPreGameData ds' = Some preGameData /\
          map epm_match (getEnhancedPreGameMatches ds')
          = List.filter (fun pm => String.eqb (pm_sport pm) (getSportCode m sp))
              (esMatches preGameData) /\
          ds_getLiveData ds' = ds_getLiveData ds /\
          isLiveStreaming ds' = isLiveStreaming ds
    end.
Proof.
  intros H. apply initialize_resolved in H
    as (sportsData & bo & Ec & Hm & Hbo & Hd & Hi & _ & _ & He & _ & Hmode & Hsp & Hint & H).
  exists sportsData, bo. split; [done|]. cbv zeta.
  unfold getInitializedData, isDataInitialized, getCurrentSportTypeCode.
  rewrite Hd, Hi, Hm. cbn [mbind option_bind]. rewrite Hsp.
  do 7 (split; [done|]).
  destruct mode.
  - destruct H as (d & Eb & Hpg & Hld & Hget & Hts & Hstr).
    exists d. split; [done|]. unfold ds_getLiveData. split; [done|].
    unfold getFilteredLiveHeadersBySport, ds_getLiveData, getPreGameData,
      getEnhancedPreGameMatches, isLiveStreaming.
    rewrite Hd, Hget, Hm, Hsp, Hpg. cbn [headers with_headers mbind option_bind].
    split; [apply filterLiveHeadersBySport_idem|]. done.
  - destruct H as (Hls & Hld & Hpg & [pg Epg]).
    exists pg. split; [done|].
    unfold getPreGameData, getEnhancedPreGameMatches, ds_getLiveData, isLiveStreaming.
    rewrite Hd, Hls. cbn [mbind option_bind]. rewrite Hpg, Epg, Hmode, Hm, Hsp.
    split; [done|]. split; [|done].
    rewrite map_map. cbn. by rewrite map_id.
Qed.

Lemma ds_ok_stream (ds : DataService) (ls : LiveStream) (bo : option BettingOptions)
    (m : gmap string SportMapping) :
  ds_ok ds ->
  (is_Some (getLiveData (liveStreamService ds)) -> is_Some (getLiveData ls)) ->
  (is_Some (bettingOptions ds) -> is_Some bo) ->
  ds_ok (mkDataService ls m bo (initializedData ds) (isInitialized ds)).
Proof.
  intros [H1 H2] Hls Hbo. split; [done|]. cbn. intros data Hd.
  destruct (H2 data Hd) as [Hb Hm]. split; [by apply Hbo|].
  destruct (id_mode data); [|done].
  destruct Hm as (? & ? & ?). split; [|done]. by apply Hls.
Qed.

Lemma ds_step_ok (ds : DataService) (op : Op) : ds_ok ds -> ds_ok (ds_step decode ds op).
Proof.
  intros Hok. destruct op as [mode sp interval env| |e]; cbn [ds_step].
  - destruct (initialize decode ds mode sp interval env) as [ds' out] eqn:E.
    cbn [fst]. destruct out as [data|f|].
    + apply initialize_resolved in E
        as (sportsData & bo & Ec & Hm & Hbo & Hd & Hi & _ & _ & He & _ & Hmode & Hsp & Hint & H).
      split; [rewrite Hi, Hd; split; eauto|].
      intros data'. rewrite Hd. intros [= <-]. rewrite Hbo. split; [eauto|].
      rewrite Hmode. destruct mode.
      * destruct H as (d & Eb & Hpg & Hld & Hget & Hts & Hstr).
        unfold ds_getLiveData. rewrite Hget. split; [eauto|]. split; [|done].
        rewrite Hld. unfold getLiveData in Hget.
        destruct (liveData (liveStreamService ds')); [eauto | done].
      * destruct H as (Hls & Hld & Hpg & Hsome). by rewrite Hpg.
    + destruct (initialize_unsettled ds ds' mode sp interval env (Rejected f) E)
        as [->|(sportsData & bo & Hshape)]; [done.. |].
      pose proof (initialize_as_events decode ds mode sp interval env) as [evs Hevs].
      rewrite E in Hevs. cbn [fst] in Hevs.
      rewrite Hshape. apply ds_ok_stream; [done| |eauto].
      rewrite Hevs. apply run_keeps_snapshot.
    + destruct (initialize_unsettled ds ds' mode sp interval env Pending E)
        as [->|(sportsData & bo & Hshape)]; [done.. |].
      pose proof (initialize_as_events decode ds mode sp interval env) as [evs Hevs].
      rewrite E in Hevs. cbn [fst] in Hevs.
      rewrite Hshape. apply ds_ok_stream; [done| |eauto].
      rewrite Hevs. apply run_keeps_snapshot.
  - unfold reset. split; cbn; [|done]. split; [done | by intros [? ?]].
  - apply ds_ok_stream; [done| |done].
    intros [d Hd]. destruct (step_keeps_snapshot decode _ d e Hd) as (d' & Hd' & _).
    by exists d'.
Qed.

Lemma reachable_ds_ok (ds : DataService) : ds_reachable decode ds -> ds_ok ds.
Proof.
  intros [ops ->]. unfold ds_run.
  assert (H0 : ds_ok dataService0).
  { split; [|done]. cbn. split; [done | by intros [? ?]]. }
  revert H0. generalize dataService0 as ds0.
  induction ops as [|op ops IH]; intros ds0 H0; [done|].
  cbn [fold_left]. by apply IH, ds_step_ok.
Qed.

(** In every state the orchestrator can reach through [initialize], [reset]
    and the events of the stream, [isDataInitialized] tells whether there is
    initialized data, and initialized data of a mode has the data of that
    mode: a live one a snapshot, a pre-game one its fetched matches. *)
Theorem started_modes_have_their_data (ds : DataService) :
  ds_reachable decode ds ->
  (isDataInitialized ds = true <-> is_Some (getInitializedData ds)) /\
  forall data, getInitializedData ds = Some data ->
    match id_mode data with
    | live =>
        is_Some (ds_getLiveData ds) /\ getPreGameData ds = None /\
        getEnhancedPreGameMatches ds = []
    | pre_game => is_Some (getPreGameData ds)
    end.
Proof.
  intros Hr. destruct (reachable_ds_ok ds Hr) as [H1 H2]. split; [done|].
  unfold getInitializedData, getPreGameData, getEnhancedPreGameMatches.
  intros data Hd. rewrite Hd. destruct (H2 data Hd) as [_ Hm]. cbn [mbind option_bind].
  destruct (id_mode data).
  - destruct Hm as (? & ? & ->). done.
  - by destruct Hm as [? _].
Qed.

End StartedOrchestrator.

Lemma resolved_initialize_answers_queries_witness :
  exists sportsData bo,
    env_catalog sample_env = Some (sportsData, bo) /\
    let m := initializeSportMappings sportsData in
    getInitializedData sample_ready_live
    = Some (mkInitializedData [mkSportData "FUDBAL" "S" true] empty_catalog
              (mkEnhancedBettingOptions [] []) 1 live football None (Some 0%nat) None) /\
    isDataInitialized sample_ready_live = true /\
    id_mode (mkInitializedData [mkSportData "FUDBAL" "S" true] empty_catalog
               (mkEnhancedBettingOptions [] []) 1 live football None (Some 0%nat) None)
    = live /\
    id_sport (mkInitializedData [mkSportData "FUDBAL" "S" true] empty_catalog
                (mkEnhancedBettingOptions [] []) 1 live football None (Some 0%nat) None)
    = football /\
    id_interval (mkInitializedData [mkSportData "FUDBAL" "S" true] empty_catalog
                   (mkEnhancedBettingOptions [] []) 1 live football None (Some 0%nat) None)
    = None /\
    id_enhancedBettingOptions
      (mkInitializedData [mkSportData "FUDBAL" "S" true] empty_catalog
         (mkEnhancedBettingOptions [] []) 1 live football None (Some 0%nat) None)
    = createEnhancedBettingOptions m bo football /\
    getCurrentSportTypeCode sample_ready_live = getSportTypeCode m football /\
    exists d,
      bulk_outcome sample_decode football (env_bulk sample_env) (env_clock_bulk sample_env)
      = Resolved d /\
      ds_getLiveData sample_ready_live
      = Some (with_headers d (filterLiveHeadersBySport m (headers d) football)) /\
      getFilteredLiveHeadersBySport sample_ready_live
      = filterLiveHeadersBySport m (headers d) football /\
      getPreGameData sample_ready_live = None /\
      getEnhancedPreGameMatches sample_ready_live = [] /\
      (isLiveStreaming sample_ready_live = true <->
       isLiveStreaming dataService0 = true \/ env_conn sample_env = ConnOpen).
Proof.
  apply (resolved_initialize_answers_queries sample_decode dataService0 sample_ready_live
           live football None sample_env
           (mkInitializedData [mkSportData "FUDBAL" "S" true] empty_catalog
              (mkEnhancedBettingOptions [] []) 1 live football None (Some 0%nat) None)).
  vm_compute. reflexivity.
Defined.

Lemma started_modes_have_their_data_witness :
  (isDataInitialized sample_ready_pregame = true <->
   is_Some (getInitializedData sample_ready_pregame)) /\
  forall data, getInitializedData sample_ready_pregame = Some data ->
    match id_mode data with
    | live =>
        is_Some (ds_getLiveData sample_ready_pregame) /\
        getPreGameData sample_ready_pregame = None /\
        getEnhancedPreGameMatches sample_ready_pregame = []
    | pre_game => is_Some (getPreGameData sample_ready_pregame)
    end.
Proof.
  apply (started_modes_have_their_data sample_decode sample_ready_pregame).
  exists [OpInitialize pre_game football None sample_env]. reflexivity.
Defined.

(** ** What [initialize] leaves alone *)

Section SparedStream.

Variable decode : string -> option Payload.




End SparedStream.


(** ** The routes that read the orchestrator *)

Section Routes.

Variable decode : string -> option Payload.

(** [GET /api/live-bets/:matchId] in a state the orchestrator can reach:
    the branch "No live data available" is never taken; a session that is
    not authenticated is sent to the login page by this route and by
    [POST /api/stop], which then leaves the orchestrator alone; and after a
    stop the route answers "Invalid match ID" or "Live mode not
    initialized", whatever snapshot the stream service still holds. *)
Theorem live_bets_route_after_stop (ds : DataService) (authenticated : option bool)
    (matchIdParam : string) :
  ds_reachable decode ds ->
  live_bets_route authenticated ds matchIdParam
  <> Json 200 false "No live data available" None /\
  (authenticated <> Some true ->
   live_bets_route authenticated ds matchIdParam = Redirect "/login" /\
   stop_route authenticated ds = (ds, Redirect "/login")) /\
  (parseInt matchIdParam = NaN ->
   live_bets_route (Some true) ds matchIdParam = Json 400 false "Invalid match ID" None) /\
  (let ds' := fst (stop_route (Some true) ds) in
   ds_getLiveData ds' = ds_getLiveData ds /\
   (live_bets_route (Some true) ds' matchIdParam = Json 400 false "Invalid match ID" None \/
    live_bets_route (Some true) ds' matchIdParam
    = Json 200 false "Live mode not initialized. Please start live mode first." None)).
Proof.
  intros Hr. apply (reachable_ds_ok decode) in Hr as [_ Hok].
  split; [|split; [|split]].
  - unfold live_bets_route, requireAuth, live_bets_handler.
    destruct authenticated as [[|]|]; try discriminate.
    destruct (parseInt matchIdParam) as [|matchId]; [discriminate|]. cbv zeta.
    unfold getInitializedData.
    destruct (initializedData ds) as [data|] eqn:Ed; [|discriminate].
    destruct (Hok data eq_refl) as [_ Hm].
    destruct (id_mode data); [|discriminate].
    destruct Hm as ([l Hl] & _). rewrite Hl.
    destruct (ds_getEnhancedBettingDataForMatch ds matchId); discriminate.
  - intros Ha. unfold live_bets_route, stop_route, requireAuth.
    destruct authenticated as [[|]|]; [by destruct Ha | done | done].
  - intros Hn. unfold live_bets_route, requireAuth, live_bets_handler. by rewrite Hn.
  - cbn [stop_route fst]. split.
    { unfold ds_getLiveData, reset. cbn [liveStreamService].
      by destruct (isStreaming (liveStreamService ds)). }
    unfold live_bets_route, requireAuth, live_bets_handler.
    destruct (parseInt matchIdParam); [by left | by right].
Qed.

End Routes.

Lemma live_bets_route_after_stop_witness :
  live_bets_route (Some true) sample_ready_live "5"
  <> Json 200 false "No live data available" None /\
  (Some true <> Some true ->
   live_bets_route (Some true) sample_ready_live "5" = Redirect "/login" /\
   stop_route (Some true) sample_ready_live = (sample_ready_live, Redirect "/login")) /\
  (parseInt "5" = NaN ->
   live_bets_route (Some true) sample_ready_live "5"
   = Json 400 false "Invalid match ID" None) /\
  (let ds' := fst (stop_route (Some true) sample_ready_live) in
   ds_getLiveData ds' = ds_getLiveData sample_ready_live /\
   (live_bets_route (Some true) ds' "5" = Json 400 false "Invalid match ID" None \/
    live_bets_route (Some true) ds' "5"
    = Json 200 false "Live mode not initialized. Please start live mode first." None)).
Proof.
  apply (live_bets_route_after_stop sample_decode sample_ready_live (Some true) "5").
  exists [OpInitialize live football None sample_env]. reflexivity.
Defined.

(** The route before and after a stop, on the sample orchestrator. *)
Example live_bets_route_of_sample :
  live_bets_route (Some true) sample_ready_live "5"
  = Json 200 true "Enhanced live bets retrieved successfully"
      (Some (mkLiveBetsData 5 [] 0 (Some "S"))) /\
  live_bets_route (Some true) (fst (stop_route (Some true) sample_ready_live)) "5"
  = Json 200 false "Live mode not initialized. Please start live mode first." None /\
  live_bets_route (Some true) sample_ready_live "five"
  = Json 400 false "Invalid match ID" None /\
  live_bets_route None sample_ready_live "5" = Redirect "/login".
Proof. repeat split; vm_compute; reflexivity. Qed.

(** ** Odds whose pick is in the catalog *)





